(** * OgImgVyshkaClub: the preview compositing engine

    A shallow embedding of [internal/preview/preview.go] and the
    properties of it that the specification states.

    Conventions of the embedding.
    - A Go [string] is a [String.string]: both are sequences of 8-bit
      bytes.  A Go [[]byte] is an [option (list byte)], [None] being
      the nil slice, which [drawBackground] tests for.
    - A Go [int] is a [Z]; sums and differences are wrapped to 64 bits
      by [wrap64].  A [float64] is a [Q]: the floats of the layout
      are integers and halves of integers, which a [float64] holds
      exactly; the product [255 * Opacity] is rounded to a [float64]
      by [round64]; the ratio that [scale] computes is kept as the
      exact quotient.
    - A function returning [(T, error)] returns a [result T]; the
      methods of [Preview], which read and write the fields of their
      receiver, live in the monad [M], whose state is the receiver and
      whose outcomes are a value, an error or a run-time panic.
    - The libraries the file imports ([image], [vips], [truetype], the
      embedded font table, the rasterizer of [gg]) are the fields of
      the class [Libraries]; [unicode/utf8] and the part of [gg] that the
      properties talk about are modelled after their Go sources. *)

From Stdlib Require Import ZArith QArith Qround Qabs List String Ascii Lia Bool.
Import ListNotations.

Local Open Scope Z_scope.

(** ** Bytes and strings *)

Definition byteval (c : ascii) : Z := Z.of_N (N_of_ascii c).

(** The conversion [byte(x)] keeps the low eight bits. *)
Definition tobyte (z : Z) : ascii := ascii_of_N (Z.to_N (z mod 256)).

Definition bytes_of (s : string) : list Z := map byteval (list_ascii_of_string s).

Definition string_of_bytes (l : list Z) : string :=
  string_of_list_ascii (map tobyte l).

(** ** unicode/utf8 *)

Module utf8.

Definition RuneError : Z := 0xFFFD.
Definition MaxRune : Z := 0x10FFFF.
Definition surrogateMin : Z := 0xD800.
Definition surrogateMax : Z := 0xDFFF.
Definition rune1Max : Z := 0x7F.
Definition rune2Max : Z := 0x7FF.
Definition rune3Max : Z := 0xFFFF.

Definition t2 : Z := 0xC0.
Definition t3 : Z := 0xE0.
Definition t4 : Z := 0xF0.
Definition tx : Z := 0x80.
Definition maskx : Z := 0x3F.
Definition mask2 : Z := 0x1F.
Definition mask3 : Z := 0x0F.
Definition mask4 : Z := 0x07.
Definition locb : Z := 0x80.
Definition hicb : Z := 0xBF.

(** The table [first]: information about the first byte of an
    encoding.  [0xF0] is an ASCII byte, [0xF1] an invalid one;
    otherwise the low three bits are the size and the high four bits
    index [acceptRanges]. *)
Definition first (b : Z) : Z :=
  if b <? 0x80 then 0xF0
  else if b <? 0xC2 then 0xF1
  else if b <? 0xE0 then 0x02
  else if b =? 0xE0 then 0x13
  else if b <? 0xED then 0x03
  else if b =? 0xED then 0x23
  else if b <? 0xF0 then 0x03
  else if b =? 0xF0 then 0x34
  else if b <? 0xF4 then 0x04
  else if b =? 0xF4 then 0x44
  else 0xF1.

Definition acceptRanges (i : Z) : Z * Z :=
  if i =? 0 then (locb, hicb)
  else if i =? 1 then (0xA0, hicb)
  else if i =? 2 then (locb, 0x9F)
  else if i =? 3 then (0x90, hicb)
  else if i =? 4 then (locb, 0x8F)
  else (0, 0).

(** [DecodeRuneInString]: the first rune of [s] and its width in
    bytes.  An invalid or short encoding is [RuneError] of width 1. *)
Definition DecodeRuneInString (s : list Z) : Z * nat :=
  match s with
  | [] => (RuneError, 0%nat)
  | s0 :: _ =>
    let x := first s0 in
    if 0xF0 <=? x then
      ((if Z.testbit x 0 then RuneError else s0), 1%nat)
    else
      let sz := Z.land x 7 in
      let accept := acceptRanges (Z.shiftr x 4) in
      if Z.of_nat (List.length s) <? sz then (RuneError, 1%nat) else
      let s1 := nth 1 s 0 in
      if (s1 <? fst accept) || (snd accept <? s1) then (RuneError, 1%nat) else
      if sz <=? 2 then
        (Z.lor (Z.shiftl (Z.land s0 mask2) 6) (Z.land s1 maskx), 2%nat)
      else
      let s2 := nth 2 s 0 in
      if (s2 <? locb) || (hicb <? s2) then (RuneError, 1%nat) else
      if sz <=? 3 then
        (Z.lor (Z.lor (Z.shiftl (Z.land s0 mask3) 12)
                      (Z.shiftl (Z.land s1 maskx) 6))
               (Z.land s2 maskx), 3%nat)
      else
      let s3 := nth 3 s 0 in
      if (s3 <? locb) || (hicb <? s3) then (RuneError, 1%nat) else
        (Z.lor (Z.lor (Z.lor (Z.shiftl (Z.land s0 mask4) 18)
                             (Z.shiftl (Z.land s1 maskx) 12))
                      (Z.shiftl (Z.land s2 maskx) 6))
               (Z.land s3 maskx), 4%nat)
  end.

(** The loop of [[]rune(s)]: decode, advance by the width, repeat.
    The fuel is the number of bytes, which bounds the number of
    iterations because every width is at least one. *)
Fixpoint runes_loop (fuel : nat) (s : list Z) : list Z :=
  match fuel with
  | O => []
  | S fuel' =>
    match s with
    | [] => []
    | _ :: _ =>
      let '(r, size) := DecodeRuneInString s in
      r :: runes_loop fuel' (skipn size s)
    end
  end.

(** [[]rune(s)] *)
Definition stringtoslicerune (s : string) : list Z :=
  runes_loop (List.length (bytes_of s)) (bytes_of s).

(** The loop of [RuneCountInString]: one count per step, the same
    steps as decoding. *)
Fixpoint count_loop (fuel : nat) (s : list Z) (n : Z) : Z :=
  match fuel with
  | O => n
  | S fuel' =>
    match s with
    | [] => n
    | _ :: _ => count_loop fuel' (skipn (snd (DecodeRuneInString s)) s) (n + 1)
    end
  end.

Definition RuneCountInString (s : string) : Z :=
  count_loop (List.length (bytes_of s)) (bytes_of s) 0.

(** [encoderune]: the UTF-8 encoding of a rune (an [int32]); a rune
    out of range or a surrogate half is encoded as [RuneError]. *)
Definition encode3 (r : Z) : list Z :=
  [ Z.lor t3 (Z.shiftr r 12 mod 256);
    Z.lor tx (Z.land (Z.shiftr r 6 mod 256) maskx);
    Z.lor tx (Z.land (r mod 256) maskx) ].

Definition encoderune (r : Z) : list Z :=
  let i := r mod 2 ^ 32 in
  if i <=? rune1Max then [ r mod 256 ]
  else if i <=? rune2Max then
    [ Z.lor t2 (Z.shiftr r 6 mod 256);
      Z.lor tx (Z.land (r mod 256) maskx) ]
  else if (MaxRune <? i) || ((surrogateMin <=? i) && (i <=? surrogateMax)) then
    encode3 RuneError
  else if i <=? rune3Max then encode3 r
  else
    [ Z.lor t4 (Z.shiftr r 18 mod 256);
      Z.lor tx (Z.land (Z.shiftr r 12 mod 256) maskx);
      Z.lor tx (Z.land (Z.shiftr r 6 mod 256) maskx);
      Z.lor tx (Z.land (r mod 256) maskx) ].

(** [string(rs)] for a slice of runes. *)
Definition slicerunetostring (rs : list Z) : string :=
  string_of_bytes (flat_map encoderune rs).

(** A Unicode scalar value: what a decoder may return. *)
Definition scalar (r : Z) : Prop :=
  (0 <= r < surrogateMin) \/ (surrogateMax < r <= MaxRune).

End utf8.


(** ** Integers, floats, buffers and errors *)

(** A Go [int] has 64 bits; arithmetic wraps around. *)
Definition wrap64 (z : Z) : Z := (z + 2 ^ 63) mod 2 ^ 64 - 2 ^ 63.

Definition int_add (a b : Z) : Z := wrap64 (a + b).
Definition int_sub (a b : Z) : Z := wrap64 (a - b).

(** Integer division truncates toward zero. *)
Definition int_div (a b : Z) : Z := Z.quot a b.

(** [float64(n)] for an [int]. *)
Definition float64 (n : Z) : Q := inject_Z n.

(** [int(f)] for a float: the fraction is discarded. *)
Definition int_of_float (f : Q) : Z := Z.quot (Qnum f) (Zpos (Qden f)).

(** [uint8(f)] for a float. *)
Definition uint8_of_float (f : Q) : Z := int_of_float f mod 256.

(** [2^k] for an integer [k]. *)
Definition pow2 (k : Z) : Q := Qpower 2 k.

(** The exponent of the leading bit of a positive rational. *)
Definition ilog2 (q : Q) : Z :=
  let k := Z.log2 (Qnum q) - Z.log2 (Zpos (Qden q)) in
  if Qle_bool (pow2 k) q then k else k - 1.

(** The nearest integer, the even one of two. *)
Definition rne (x : Q) : Z :=
  let f := Qfloor x in
  match Qcompare (x - inject_Z f) (1 # 2) with
  | Lt => f
  | Gt => f + 1
  | Eq => if Z.even f then f else f + 1
  end.

(** The rounding of a real to the nearest [float64], ties to even:
    53 bits of mantissa from the leading bit, or steps of [2^-1074]
    below the normal range.  Overflow to infinity is not modelled. *)
Definition round64 (q : Q) : Q :=
  let q := Qred q in
  if Qnum q =? 0 then 0%Q
  else
    let a := Qabs q in
    let e := Z.max (ilog2 a) (-1022) in
    let ulp := pow2 (e - 52) in
    let m := (inject_Z (rne (a / ulp)) * ulp)%Q in
    if Qnum q <? 0 then (- m)%Q else m.

(** [a * b] on two [float64]s. *)
Definition float64_mul (a b : Q) : Q := round64 (a * b).

Definition bytes := list Byte.byte.

(** A [[]byte]; [None] is the nil slice. *)
Definition slice := option bytes.

Definition contents (b : slice) : bytes :=
  match b with Some l => l | None => [] end.

(** An [error] value: one that a library returned, or one that
    [fmt.Errorf("msg: %w", cause)] wrapped. *)
Inductive error : Type :=
| LibError (what : string)
| Errorf (msg : string) (cause : error).

(** The return of a function of type [(T, error)]. *)
Inductive result (T : Type) : Type :=
| Ok (v : T)
| Err (e : error).

Arguments Ok {T} v.
Arguments Err {T} e.

(** ** image and image/color *)

Record Rectangle : Type := mkRect { MinX : Z; MinY : Z; MaxX : Z; MaxY : Z }.

(** [image.Rect]: the corners are swapped where needed to make the
    rectangle well-formed. *)
Definition image_Rect (x0 y0 x1 y1 : Z) : Rectangle :=
  mkRect (Z.min x0 x1) (Z.min y0 y1) (Z.max x0 x1) (Z.max y0 y1).

Definition Dx (r : Rectangle) : Z := int_sub (MaxX r) (MinX r).
Definition Dy (r : Rectangle) : Z := int_sub (MaxY r) (MinY r).

Definition inRect (r : Rectangle) (x y : Z) : bool :=
  (MinX r <=? x) && (x <? MaxX r) && (MinY r <=? y) && (y <? MaxY r).

(** The colours the program meets.  [RGBA] and [RGBA64] are
    alpha-premultiplied, [NRGBA] is not. *)
Inductive Color : Type :=
| RGBA (r g b a : Z)
| NRGBA (r g b a : Z)
| RGBA64 (r g b a : Z)
| Gray16 (y : Z).

(** Four 16-bit alpha-premultiplied channels, as [Color.RGBA()]
    returns them. *)
Record rgba16 : Type := mk16 { r16 : Z; g16 : Z; b16 : Z; a16 : Z }.

Definition Color_RGBA (c : Color) : rgba16 :=
  match c with
  | RGBA r g b a => mk16 (r * 0x101) (g * 0x101) (b * 0x101) (a * 0x101)
  | NRGBA r g b a =>
    mk16 (r * 0x101 * a / 0xff) (g * 0x101 * a / 0xff) (b * 0x101 * a / 0xff)
         (a * 0x101)
  | RGBA64 r g b a => mk16 r g b a
  | Gray16 y => mk16 y y y 0xffff
  end.

Definition color_White : Color := Gray16 0xffff.

(** An [image.Image]: its bounds and its colour at each point. *)
Record image_Image : Type := mkImage { Bounds : Rectangle; At : Z -> Z -> Color }.

(** The pixels of an [image.RGBA]: 8-bit alpha-premultiplied channels. *)
Record pixel : Type := mkPix { pR : Z; pG : Z; pB : Z; pA : Z }.

Record image_RGBA : Type := mkRGBA { Rect : Rectangle; Pix : Z -> Z -> pixel }.

(** [image.NewRGBA]: every pixel is transparent black. *)
Definition image_NewRGBA (r : Rectangle) : image_RGBA :=
  mkRGBA r (fun _ _ => mkPix 0 0 0 0).

(** An [image.RGBA] seen through the [image.Image] interface; outside
    the bounds [At] is the zero colour. *)
Definition RGBA_Image (im : image_RGBA) : image_Image :=
  mkImage (Rect im)
    (fun x y =>
       if inRect (Rect im) x y
       then let p := Pix im x y in RGBA (pR p) (pG p) (pB p) (pA p)
       else RGBA 0 0 0 0).

(** The method [Set] of an [image.RGBA] and the [draw] package store
    the high byte of each 16-bit channel. *)
Definition pixel_of_16 (c : rgba16) : pixel :=
  mkPix (Z.shiftr (r16 c) 8) (Z.shiftr (g16 c) 8)
        (Z.shiftr (b16 c) 8) (Z.shiftr (a16 c) 8).

Definition setPix (im : image_RGBA) (f : Z -> Z -> pixel -> pixel) : image_RGBA :=
  mkRGBA (Rect im)
    (fun x y => if inRect (Rect im) x y then f x y (Pix im x y) else Pix im x y).

(** ** Fonts: truetype and multiface *)

(** A parsed font program. *)
Inductive Font : Type := ParsedFont (program : bytes).

(** [truetype.NewFace(font, &truetype.Options{Size: points})] *)
Record truetype_Face : Type := mkTTFace { tt_font : Font; tt_size : Q }.

(** A [multiface.Face]: the faces added so far, in the order of the
    calls of [AddTruetypeFace]; a glyph is looked up in that order. *)
Record Face : Type := mkFace { faces : list (truetype_Face * Font) }.

Definition AddTruetypeFace (face : Face) (f : truetype_Face) (ft : Font) : Face :=
  mkFace (faces face ++ [(f, ft)]).

(** ** gg: the drawing context *)

Module gg.

Inductive Align : Type := AlignLeft | AlignCenter | AlignRight.

(** What the program adds to the current path. *)
Inductive Shape : Type :=
| RectangleShape (x y w h : Q)
| CircleShape (x y r : Q).

Record Context : Type := mkContext {
  width : Z;
  height : Z;
  im : image_RGBA;
  color : Color;
  fillPattern : Color;
  path : list Shape;
  mask : option (Z -> Z -> Z);
  fontFace : option Face
}.

(** The method calls the program makes on a context. *)
Inductive Call : Type :=
| SetHexColor (x : string)
| SetColor (c : Color)
| DrawRectangle (x y w h : Q)
| DrawCircle (x y r : Q)
| Fill
| Clip
| DrawImage (img : image_Image) (x y : Z)
| DrawImageAnchored (img : image_Image) (x y : Z) (ax ay : Q)
| SetFontFace (f : Face)
| DrawStringAnchored (s : string) (x y ax ay : Q)
| DrawStringWrapped (s : string) (x y ax ay width lineSpacing : Q) (align : Align).

Definition NewContextForRGBA (img : image_RGBA) : Context :=
  mkContext (Dx (Rect img)) (Dy (Rect img)) img
            (RGBA64 0 0 0 0) color_White [] None None.

Definition NewContext (w h : Z) : Context :=
  NewContextForRGBA (image_NewRGBA (image_Rect 0 0 w h)).

Definition Image (dc : Context) : image_Image := RGBA_Image (im dc).

(** *** Hexadecimal colours *)

Definition hexval (c : ascii) : option Z :=
  let v := byteval c in
  if (48 <=? v) && (v <=? 57) then Some (v - 48)
  else if (97 <=? v) && (v <=? 102) then Some (v - 87)
  else if (65 <=? v) && (v <=? 70) then Some (v - 55)
  else None.

Definition TrimPrefix_hash (x : string) : string :=
  match x with
  | String c rest => if Ascii.eqb c "#" then rest else x
  | EmptyString => x
  end.

(** [parseHexColor]: three digits are doubled ([r |= r << 4]), six or
    eight are read in pairs; the alpha is 255 unless eight digits give
    one.  [SetHexColor] is only passed strings of hexadecimal digits
    here; on a string with another character the model leaves the
    channels at zero. *)
Definition parseHexColor (x : string) : Z * Z * Z * Z :=
  let x := TrimPrefix_hash x in
  match map hexval (list_ascii_of_string x) with
  | [Some r; Some g; Some b] =>
    (Z.lor r (Z.shiftl r 4), Z.lor g (Z.shiftl g 4), Z.lor b (Z.shiftl b 4), 255)
  | [Some r1; Some r0; Some g1; Some g0; Some b1; Some b0] =>
    (16 * r1 + r0, 16 * g1 + g0, 16 * b1 + b0, 255)
  | [Some r1; Some r0; Some g1; Some g0; Some b1; Some b0; Some a1; Some a0] =>
    (16 * r1 + r0, 16 * g1 + g0, 16 * b1 + b0, 16 * a1 + a0)
  | _ => (0, 0, 0, 255)
  end.

(** *** Compositing *)

Definition u32 (z : Z) : Z := z mod 2 ^ 32.
Definition u8 (z : Z) : Z := z mod 256.

(** The painter of [Fill] and [draw.DrawMask] with [draw.Over]: the
    source colour [c], weighted by the coverage [ma] out of [0xffff],
    over the destination pixel [d]. *)
Definition paintOver (c : rgba16) (ma : Z) (d : pixel) : pixel :=
  let m := 0xffff in
  let a := u32 ((m - a16 c * ma / m) * 0x101) in
  mkPix (u8 (Z.shiftr (u32 (pR d * a + r16 c * ma) / m) 8))
        (u8 (Z.shiftr (u32 (pG d * a + g16 c * ma) / m) 8))
        (u8 (Z.shiftr (u32 (pB d * a + b16 c * ma) / m) 8))
        (u8 (Z.shiftr (u32 (pA d * a + a16 c * ma) / m) 8)).

(** Drawing an image through a clip mask: the source is weighted by
    the mask's alpha [ma] (16 bits), composed over the destination in
    16 bits, and stored by [Set]. *)
Definition maskedOver (c : rgba16) (ma : Z) (d : pixel) : pixel :=
  let m := 0xffff in
  let pr := c.(r16) * ma / m in
  let pg := c.(g16) * ma / m in
  let pb := c.(b16) * ma / m in
  let pa := c.(a16) * ma / m in
  let pa1 := m - pa in
  pixel_of_16 (mk16 ((pR d * 0x101 * pa1 / m + pr) mod 2 ^ 16)
                    ((pG d * 0x101 * pa1 / m + pg) mod 2 ^ 16)
                    ((pB d * 0x101 * pa1 / m + pb) mod 2 ^ 16)
                    ((pA d * 0x101 * pa1 / m + pa) mod 2 ^ 16)).

Section Rendering.

(** The anti-aliasing rasterizer: the coverage, out of [0xffff], that
    the path gives to pixel [(x, y)] of a [w] by [h] surface. *)
Variable rasterize : list Shape -> Z -> Z -> Z -> Z -> Z.

(** The glyph renderer behind [DrawStringAnchored] and
    [DrawStringWrapped] (measuring, word wrapping and drawing). *)
Variable drawText :
  option Face -> Color -> string -> Q -> Q -> Q -> Q -> image_RGBA -> image_RGBA.
Variable drawTextWrapped :
  option Face -> Color -> string -> Q -> Q -> Q -> Q -> Q -> Q -> Align ->
  image_RGBA -> image_RGBA.

Definition exec_Fill (dc : Context) : Context :=
  let cov := rasterize (path dc) (width dc) (height dc) in
  let c := Color_RGBA (fillPattern dc) in
  let f x y d :=
    let ma := match mask dc with
              | None => cov x y
              | Some mk => cov x y * mk x y / 255
              end in
    if ma =? 0 then d else paintOver c ma d in
  mkContext (width dc) (height dc) (setPix (im dc) f) (color dc)
            (fillPattern dc) [] (mask dc) (fontFace dc).

Definition exec_Clip (dc : Context) : Context :=
  let cov := rasterize (path dc) (width dc) (height dc) in
  let clip x y := Z.shiftr (cov x y) 8 in
  let mk := match mask dc with
            | None => clip
            | Some old =>
              fun x y => Z.shiftr (clip x y * 0x101 * (old x y * 0x101) / 0xffff) 8
            end in
  mkContext (width dc) (height dc) (im dc) (color dc) (fillPattern dc) []
            (Some mk) (fontFace dc).

Definition exec_DrawImageAnchored (img : image_Image) (x y : Z) (ax ay : Q)
    (dc : Context) : Context :=
  let x := int_sub x (int_of_float (ax * float64 (Dx (Bounds img)))) in
  let y := int_sub y (int_of_float (ay * float64 (Dy (Bounds img)))) in
  let f dx dy d :=
    let sx := dx - x + MinX (Bounds img) in
    let sy := dy - y + MinY (Bounds img) in
    if inRect (Bounds img) sx sy then
      let c := Color_RGBA (At img sx sy) in
      match mask dc with
      | None => paintOver c 0xffff d
      | Some mk => maskedOver c (mk dx dy * 0x101) d
      end
    else d in
  mkContext (width dc) (height dc) (setPix (im dc) f) (color dc)
            (fillPattern dc) (path dc) (mask dc) (fontFace dc).

Definition withColor (c : Color) (dc : Context) : Context :=
  mkContext (width dc) (height dc) (im dc) c c (path dc) (mask dc) (fontFace dc).

Definition withPath (sh : Shape) (dc : Context) : Context :=
  mkContext (width dc) (height dc) (im dc) (color dc) (fillPattern dc)
            (path dc ++ [sh]) (mask dc) (fontFace dc).

Definition withIm (img : image_RGBA) (dc : Context) : Context :=
  mkContext (width dc) (height dc) img (color dc) (fillPattern dc)
            (path dc) (mask dc) (fontFace dc).

(** The effect of one method call on the context. *)
Definition exec (c : Call) (dc : Context) : Context :=
  match c with
  | SetHexColor x =>
    let '(r, g, b, a) := parseHexColor x in
    withColor (NRGBA (u8 r) (u8 g) (u8 b) (u8 a)) dc
  | SetColor col => withColor col dc
  | DrawRectangle x y w h => withPath (RectangleShape x y w h) dc
  | DrawCircle x y r => withPath (CircleShape x y r) dc
  | Fill => exec_Fill dc
  | Clip => exec_Clip dc
  | DrawImage img x y => exec_DrawImageAnchored img x y 0 0 dc
  | DrawImageAnchored img x y ax ay => exec_DrawImageAnchored img x y ax ay dc
  | SetFontFace f =>
    mkContext (width dc) (height dc) (im dc) (color dc) (fillPattern dc)
              (path dc) (mask dc) (Some f)
  | DrawStringAnchored s x y ax ay =>
    withIm (drawText (fontFace dc) (color dc) s x y ax ay (im dc)) dc
  | DrawStringWrapped s x y ax ay w ls al =>
    withIm (drawTextWrapped (fontFace dc) (color dc) s x y ax ay w ls al (im dc)) dc
  end.

End Rendering.

End gg.

(** ** The package preview: constants and options *)

(** [margin] and [padding] are the untyped constants [20.0] and
    [48.0]: a [float64] in the float expressions, an [int] in
    [drawLogo]. *)
Definition margin : Z := 20.
Definition padding : Z := 48.
Definition border : Z := 8.
Definition maxTitleLength : Z := 90.
Definition defaultBgColor : string := "#FFFFFF".
Definition avatarBorderColor : string := "#FFFFFF".
Definition textFont : string := "fonts/Ubuntu-Medium.ttf".
Definition symbolsFont : string := "fonts/NotoSansSymbols-Medium.ttf".
Definition emojiFont : string := "fonts/NotoEmoji-Regular.ttf".

(** The literal ["…"] of [drawTitle]: U+2026 in UTF-8. *)
Definition ellipsis : string :=
  String (ascii_of_nat 226) (String (ascii_of_nat 128) (String (ascii_of_nat 166) EmptyString)).

(** [hexRe], the expression [^#(?:[0-9a-fA-F]{3}){1,2}$]: a [#], then
    the group of three hexadecimal digits once or twice, then the end
    of the text. *)
Definition isHexDigit (c : ascii) : bool :=
  let v := byteval c in
  ((48 <=? v) && (v <=? 57)) || ((97 <=? v) && (v <=? 102))
  || ((65 <=? v) && (v <=? 70)).

Definition hexGroup (s : string) : option string :=
  match s with
  | String a (String b (String c rest)) =>
    if isHexDigit a && isHexDigit b && isHexDigit c then Some rest else None
  | _ => None
  end.

Definition hexRe_Match (s : string) : bool :=
  match s with
  | String c rest =>
    if Ascii.eqb c "#" then
      match hexGroup rest with
      | Some EmptyString => true
      | Some rest1 =>
        match hexGroup rest1 with
        | Some EmptyString => true
        | _ => false
        end
      | None => false
      end
    else false
  | EmptyString => false
  end.

Record Options : Type := mkOptions {
  CanvasW : Z;
  CanvasH : Z;
  Opacity : Q;
  AvaD : Z;
  Title : string;
  TitleSize : Q;
  Author : string;
  AuthorSize : Q;
  LabelL : string;
  LabelR : string;
  LabelSize : Q;
  Bg : string;
  AvaURL : string;
  LogoURL : string;
  LogoH : Z;
  Quality : Z
}.

(** The interface [getter].  The [context.Context] argument only
    carries cancellation and is left out. *)
Record getter : Type := mkGetter { GetAll : list string -> result (list slice) }.

Record Preview : Type := mkPreview {
  opts : option Options;
  ctx : option gg.Context;
  remote : getter
}.

(** ** Observable behaviour: the trace *)

Inductive Stage : Type :=
| BackgroundStage | ForegroundStage | AvatarStage
| AuthorStage | TitleStage | LogoStage.

(** The [vips] enumerations the program names. *)
Inductive Interesting : Type :=
| InterestingNone | InterestingCentre | InterestingEntropy
| InterestingAttention | InterestingLow | InterestingHigh | InterestingAll.

Inductive Kernel : Type :=
| KernelAuto | KernelNearest | KernelLinear | KernelCubic
| KernelLanczos2 | KernelLanczos3 | KernelMitchell.

(** A call of a fallible library function. *)
Inductive LibCall : Type :=
| CallGetAll (ids : list string)
| CallDecodeConfig (buf : bytes)
| CallDecode (buf : bytes)
| CallNewImageFromBuffer (buf : bytes)
| CallThumbnail (w h : Z) (crop : Interesting)
| CallResize (scale : Q) (k : Kernel)
| CallExport
| CallReadFile (name : string)
| CallParse (buf : bytes).

Inductive LogLine : Type :=
| LogResizing (w h : Z)
| LogScaling (h : Z)
| LogCircling.

(** The trace records, in order: the entry into each stage method,
    each library call with the error it returned if any, each read of
    [imgBufs[i]], each line of [log.Printf], and each method call on
    the canvas [p.ctx]. *)
Inductive Event : Type :=
| EvEnter (s : Stage)
| EvCall (c : LibCall) (failed : option error)
| EvIndex (i : Z)
| EvLog (l : LogLine)
| EvDraw (c : gg.Call).

Record World : Type := mkWorld { self : Preview; trace : list Event }.

(** A run either returns or panics (an index out of range, a nil
    pointer). *)
Inductive outcome (A : Type) : Type :=
| Val (a : A)
| Panic.

Arguments Val {A} a.
Arguments Panic {A}.

Definition M (A : Type) : Type := World -> outcome A * World.

Definition ret {A} (a : A) : M A := fun w => (Val a, w).

Definition bind {A B} (c : M A) (k : A -> M B) : M B :=
  fun w =>
    match c w with
    | (Val a, w') => k a w'
    | (Panic, w') => (Panic, w')
    end.

Definition panic {A} : M A := fun w => (Panic, w).

Declare Scope go_scope.
Delimit Scope go_scope with go.

Notation "x <- c ;; k" := (bind c (fun x => k))
  (at level 61, c at next level, right associativity) : go_scope.
Notation "c ;; k" := (bind c (fun _ => k))
  (at level 61, right associativity) : go_scope.

(** [x, err := f(); if err != nil { return nil, err }] *)
Notation "'try' x <- c ;; k" :=
  (bind c (fun r => match r with Err e => ret (Err e) | Ok x => k end))
  (at level 61, x name, c at next level, right associativity) : go_scope.

(** [x, err := f(); if err != nil { return fmt.Errorf(msg, err) }] *)
Notation "'try' x <- c 'orelse' msg ;; k" :=
  (bind c (fun r => match r with
                    | Err e => ret (Some (Errorf msg e))
                    | Ok x => k
                    end))
  (at level 61, x name, c at next level, msg at next level,
   right associativity) : go_scope.

(** [if err := f(); err != nil { return nil, err }] *)
Notation "'check' c ;; k" :=
  (bind c (fun err => match err with
                      | Some e => ret (None, Some e)
                      | None => k
                      end))
  (at level 61, c at next level, right associativity) : go_scope.

Local Open Scope go_scope.

Definition emit (ev : Event) : M unit :=
  fun w => (Val tt, mkWorld (self w) (trace w ++ [ev])).

Definition error_of {T} (r : result T) : option error :=
  match r with Ok _ => None | Err e => Some e end.

(** A library call: its result, recorded in the trace. *)
Definition call {T} (c : LibCall) (r : result T) : M (result T) :=
  emit (EvCall c (error_of r)) ;; ret r.

(** [p.opts] and [p.ctx] are pointers: reading through a nil one
    panics. *)
Definition get_opts : M Options :=
  fun w => match opts (self w) with
           | Some o => (Val o, w)
           | None => (Panic, w)
           end.

Definition get_ctx : M gg.Context :=
  fun w => match ctx (self w) with
           | Some dc => (Val dc, w)
           | None => (Panic, w)
           end.

Definition get_remote : M getter := fun w => (Val (remote (self w)), w).

Definition set_opts (o : Options) : M unit :=
  fun w => (Val tt, mkWorld (mkPreview (Some o) (ctx (self w)) (remote (self w)))
                            (trace w)).

Definition set_ctx (dc : gg.Context) : M unit :=
  fun w => (Val tt, mkWorld (mkPreview (opts (self w)) (Some dc) (remote (self w)))
                            (trace w)).

(** [imgBufs[i]] *)
Definition index (imgBufs : list slice) (i : nat) : M slice :=
  emit (EvIndex (Z.of_nat i)) ;;
  match nth_error imgBufs i with
  | Some b => ret b
  | None => panic
  end.

(** ** The libraries behind the package *)

Class Libraries : Type := mkLibraries {
  (** [image.DecodeConfig]: the width and height in the header. *)
  image_DecodeConfig : bytes -> result (Z * Z);
  image_Decode : bytes -> result image_Image;
  (** [vips]: an [ImageRef] is an image held by the library;
      [Thumbnail] and [Resize] update it, [Export] with the default
      parameters encodes it. *)
  ImageRef : Type;
  vips_NewImageFromBuffer : bytes -> result ImageRef;
  vips_Thumbnail : ImageRef -> Z -> Z -> Interesting -> result ImageRef;
  vips_Resize : ImageRef -> Q -> Kernel -> result ImageRef;
  vips_Export : ImageRef -> result bytes;
  (** The embedded file system [fonts] and [truetype.Parse]. *)
  fonts_ReadFile : string -> result bytes;
  truetype_Parse : bytes -> result Font;
  (** The rasterizer and the glyph renderer of [gg]. *)
  rasterize : list gg.Shape -> Z -> Z -> Z -> Z -> Z;
  drawText :
    option Face -> Color -> string -> Q -> Q -> Q -> Q -> image_RGBA -> image_RGBA;
  drawTextWrapped :
    option Face -> Color -> string -> Q -> Q -> Q -> Q -> Q -> Q -> gg.Align ->
    image_RGBA -> image_RGBA
}.

(** ** The package preview: the functions *)

Section Engine.

Context {L : Libraries}.

Definition exec : gg.Call -> gg.Context -> gg.Context :=
  gg.exec rasterize drawText drawTextWrapped.

(** A method call on the canvas [p.ctx]. *)
Definition draw (c : gg.Call) : M unit :=
  dc <- get_ctx ;;
  emit (EvDraw c) ;;
  set_ctx (exec c dc).

(** [resize] *)
Definition resize (buf : slice) (w h : Z) : M (result slice) :=
  try config <- call (CallDecodeConfig (contents buf))
                     (image_DecodeConfig (contents buf)) ;;
  if (fst config =? w) && (snd config =? h) then ret (Ok buf) else
  emit (EvLog (LogResizing w h)) ;;
  try vipsImg <- call (CallNewImageFromBuffer (contents buf))
                      (vips_NewImageFromBuffer (contents buf)) ;;
  try vipsImg <- call (CallThumbnail w h InterestingAttention)
                      (vips_Thumbnail vipsImg w h InterestingAttention) ;;
  try buf <- call CallExport (vips_Export vipsImg) ;;
  ret (Ok (Some buf)).

(** [scale] *)
Definition scale (buf : slice) (h : Z) : M (result slice) :=
  try config <- call (CallDecodeConfig (contents buf))
                     (image_DecodeConfig (contents buf)) ;;
  if snd config =? h then ret (Ok buf) else
  emit (EvLog (LogScaling h)) ;;
  try vipsImg <- call (CallNewImageFromBuffer (contents buf))
                      (vips_NewImageFromBuffer (contents buf)) ;;
  let ratio := (float64 h / float64 (snd config))%Q in
  try vipsImg <- call (CallResize ratio KernelAuto)
                      (vips_Resize vipsImg ratio KernelAuto) ;;
  try buf <- call CallExport (vips_Export vipsImg) ;;
  ret (Ok (Some buf)).

(** [math.Min] *)
Definition math_Min (a b : Q) : Q := if Qle_bool a b then a else b.

(** [circle]: the mask is a context of its own, not the canvas. *)
Definition circle_mask (src : image_Image) : gg.Context :=
  let r := int_of_float (math_Min (float64 (Dx (Bounds src)))
                                  (float64 (Dy (Bounds src))) / 2)%Q in
  let pX := int_div (Dx (Bounds src)) 2 in
  let pY := int_div (Dy (Bounds src)) 2 in
  let mask := gg.NewContextForRGBA (image_NewRGBA (Bounds src)) in
  let mask := exec (gg.DrawCircle (float64 pX) (float64 pY) (float64 r)) mask in
  let mask := exec gg.Clip mask in
  exec (gg.DrawImage src 0 0) mask.

Definition circle (src : image_Image) : M image_Image :=
  emit (EvLog LogCircling) ;;
  ret (gg.Image (circle_mask src)).

(** [loadFont] *)
Definition loadFont (name : string) (points : Q) : M (result Face) :=
  let face := mkFace [] in
  try textBuf <- call (CallReadFile name) (fonts_ReadFile name) ;;
  try textFont <- call (CallParse textBuf) (truetype_Parse textBuf) ;;
  let textFace := mkTTFace textFont points in
  let face := AddTruetypeFace face textFace textFont in
  try symbolsBuf <- call (CallReadFile symbolsFont) (fonts_ReadFile symbolsFont) ;;
  try symbolsFont <- call (CallParse symbolsBuf) (truetype_Parse symbolsBuf) ;;
  let symbolsFace := mkTTFace symbolsFont points in
  let face := AddTruetypeFace face symbolsFace symbolsFont in
  try emojiBuf <- call (CallReadFile emojiFont) (fonts_ReadFile emojiFont) ;;
  try emojiFont <- call (CallParse emojiBuf) (truetype_Parse emojiBuf) ;;
  let emojiFace := mkTTFace emojiFont points in
  let face := AddTruetypeFace face emojiFace emojiFont in
  ret (Ok face).

(** [drawBackground] *)
Definition drawBackground (bgBuf : slice) (bgColor : string) : M (option error) :=
  emit (EvEnter BackgroundStage) ;;
  match bgBuf with
  | None =>
    draw (gg.SetHexColor bgColor) ;;
    o <- get_opts ;;
    draw (gg.DrawRectangle 0 0 (float64 (CanvasW o)) (float64 (CanvasH o))) ;;
    draw gg.Fill ;;
    ret None
  | Some _ =>
    o <- get_opts ;;
    try bgBuf <- resize bgBuf (CanvasW o) (CanvasH o)
      orelse "could not resize the background" ;;
    try bgImg <- call (CallDecode (contents bgBuf)) (image_Decode (contents bgBuf))
      orelse "could not decode the background" ;;
    draw (gg.DrawImage bgImg 0 0) ;;
    ret None
  end.

(** [drawForeground] *)
Definition drawForeground : M (option error) :=
  emit (EvEnter ForegroundStage) ;;
  o <- get_opts ;;
  draw (gg.SetColor (RGBA 0 0 0 (uint8_of_float (float64_mul 255 (Opacity o))))) ;;
  draw (gg.DrawRectangle (float64 margin) (float64 margin)
          (float64 (CanvasW o) - float64 margin * 2)%Q
          (float64 (CanvasH o) - float64 margin * 2)%Q) ;;
  draw gg.Fill ;;
  ret None.

(** [drawAvatar] *)
Definition drawAvatar (avaBuf : slice) : M (option error) :=
  emit (EvEnter AvatarStage) ;;
  o <- get_opts ;;
  let avaX := (float64 padding + float64 (int_add (AvaD o) border) / 2)%Q in
  let avaY := (float64 padding + float64 (int_add (AvaD o) border) / 2)%Q in
  draw (gg.DrawCircle avaX avaY (float64 (int_div (int_add (AvaD o) 8) 2))) ;;
  draw (gg.SetHexColor avatarBorderColor) ;;
  draw gg.Fill ;;
  try avaBuf <- resize avaBuf (AvaD o) (AvaD o)
    orelse "could not resize the avatar" ;;
  try avaImg <- call (CallDecode (contents avaBuf)) (image_Decode (contents avaBuf))
    orelse "could not decode the avatar" ;;
  avaImg <- circle avaImg ;;
  draw (gg.DrawImageAnchored avaImg (int_of_float avaX) (int_of_float avaY)
          (1 # 2) (1 # 2)) ;;
  ret None.

(** [drawAuthor] *)
Definition drawAuthor : M (option error) :=
  emit (EvEnter AuthorStage) ;;
  o <- get_opts ;;
  try font <- loadFont textFont (AuthorSize o)
    orelse "could not load a font face" ;;
  draw (gg.SetFontFace font) ;;
  draw (gg.SetColor (RGBA 255 255 255 204)) ;;
  let authorX := (float64 padding + float64 (AvaD o) + float64 padding / 2)%Q in
  let authorY := (float64 padding + float64 (AvaD o) / 2)%Q in
  draw (gg.DrawStringAnchored (Author o) authorX authorY 0 (1 # 2)) ;;
  ret None.

(** [[]rune(title)[0:n]]: slicing beyond the length panics. *)
Definition slice_to (rs : list Z) (n : Z) : M (list Z) :=
  if n <=? Z.of_nat (List.length rs) then ret (firstn (Z.to_nat n) rs) else panic.

(** [drawTitle] *)
Definition drawTitle : M (option error) :=
  emit (EvEnter TitleStage) ;;
  o <- get_opts ;;
  try font <- loadFont textFont (TitleSize o)
    orelse "could not load a font face" ;;
  draw (gg.SetFontFace font) ;;
  draw (gg.SetColor color_White) ;;
  let titleX := float64 padding in
  let titleY := (float64 padding * 2 + float64 (AvaD o))%Q in
  let maxWidth := (float64 (CanvasW o) - float64 padding - float64 margin * 2)%Q in
  let title := Title o in
  title <- (if maxTitleLength <? utf8.RuneCountInString title
            then rs <- slice_to (utf8.stringtoslicerune title) maxTitleLength ;;
                 ret (utf8.slicerunetostring rs ++ ellipsis)%string
            else ret title) ;;
  draw (gg.DrawStringWrapped title titleX titleY 0 0 maxWidth (12 # 10) gg.AlignLeft) ;;
  ret None.

(** [drawLogo] *)
Definition drawLogo (logoBuf : slice) : M (option error) :=
  emit (EvEnter LogoStage) ;;
  o <- get_opts ;;
  try logoBuf <- scale logoBuf (LogoH o)
    orelse "could not resize the logo" ;;
  try logoImg <- call (CallDecode (contents logoBuf)) (image_Decode (contents logoBuf))
    orelse "could not decode the logo" ;;
  let logoX := int_sub (int_sub (CanvasW o) padding) (Dx (Bounds logoImg)) in
  let logoY := int_sub (int_sub (CanvasH o) padding) (LogoH o) in
  draw (gg.DrawImage logoImg logoX logoY) ;;
  ret None.

(** The start of [Draw]: the colour of a solid background and the
    identifiers to fetch. *)
Definition isBgHEX (o : Options) : bool := hexRe_Match (Bg o).

Definition bgColor (o : Options) : string :=
  if isBgHEX o then Bg o else defaultBgColor.

Definition urlsOrPaths (o : Options) : list string :=
  if isBgHEX o then [AvaURL o; LogoURL o]
  else if negb (String.eqb (Bg o) EmptyString) then [AvaURL o; LogoURL o] ++ [Bg o]
  else [AvaURL o; LogoURL o].

(** [Draw] *)
Definition Draw (o : Options) : M (option image_Image * option error) :=
  set_opts o ;;
  set_ctx (gg.NewContext (CanvasW o) (CanvasH o)) ;;
  o <- get_opts ;;
  r <- get_remote ;;
  imgBufs <- call (CallGetAll (urlsOrPaths o)) (GetAll r (urlsOrPaths o)) ;;
  match imgBufs with
  | Err e => ret (None, Some (Errorf "could not get an image" e))
  | Ok imgBufs =>
    check (if isBgHEX o || String.eqb (Bg o) EmptyString
           then drawBackground None (bgColor o)
           else b <- index imgBufs 2 ;; drawBackground b (bgColor o)) ;;
    check drawForeground ;;
    check (b <- index imgBufs 0 ;; drawAvatar b) ;;
    check drawAuthor ;;
    check drawTitle ;;
    check (b <- index imgBufs 1 ;; drawLogo b) ;;
    dc <- get_ctx ;;
    ret (Some (gg.Image dc), None)
  end.

End Engine.

(** ** Vocabulary of the properties *)

(** The stages in the order in which [Draw] runs them. *)
Definition stage_order : list Stage :=
  [BackgroundStage; ForegroundStage; AvatarStage; AuthorStage; TitleStage; LogoStage].

(** The stage that a message of [fmt.Errorf] names. *)
Definition stage_of_message (msg : string) : option Stage :=
  if String.eqb msg "could not resize the background" then Some BackgroundStage
  else if String.eqb msg "could not decode the background" then Some BackgroundStage
  else if String.eqb msg "could not resize the avatar" then Some AvatarStage
  else if String.eqb msg "could not decode the avatar" then Some AvatarStage
  else if String.eqb msg "could not load a font face" then Some AuthorStage
  else if String.eqb msg "could not resize the logo" then Some LogoStage
  else if String.eqb msg "could not decode the logo" then Some LogoStage
  else None.

(** The stages entered along a trace. *)
Definition stages_of (tr : list Event) : list Stage :=
  flat_map (fun ev => match ev with EvEnter s => [s] | _ => [] end) tr.

(** The reads [imgBufs[i]] along a trace. *)
Definition indices_of (tr : list Event) : list Z :=
  flat_map (fun ev => match ev with EvIndex i => [i] | _ => [] end) tr.

Definition call_failed (ev : Event) : bool :=
  match ev with EvCall _ (Some _) => true | _ => false end.

Definition is_enter (ev : Event) : bool :=
  match ev with EvEnter _ => true | _ => false end.

(** Events that paint with a colour, that draw an image, that decode
    one, that draw text. *)
Definition is_fill (ev : Event) : bool :=
  match ev with
  | EvDraw (gg.SetHexColor _) | EvDraw (gg.SetColor _) | EvDraw gg.Fill
  | EvDraw (gg.DrawRectangle _ _ _ _) => true
  | _ => false
  end.

Definition is_image (ev : Event) : bool :=
  match ev with
  | EvDraw (gg.DrawImage _ _ _) | EvDraw (gg.DrawImageAnchored _ _ _ _ _) => true
  | EvCall (CallDecode _) _ | EvCall (CallDecodeConfig _) _ => true
  | EvCall (CallNewImageFromBuffer _) _ => true
  | _ => false
  end.

Definition is_text (ev : Event) : bool :=
  match ev with
  | EvDraw (gg.DrawStringAnchored _ _ _ _ _)
  | EvDraw (gg.DrawStringWrapped _ _ _ _ _ _ _ _) => true
  | _ => false
  end.

(** A Go [int] as a [Z]. *)
Definition is_int (z : Z) : Prop := - 2 ^ 63 <= z < 2 ^ 63.

(** The truncation policy of the title, on codepoints: [drawn] is the
    title itself, or its first 90 codepoints and an ellipsis. *)
Definition title_policy (title drawn : string) : Prop :=
  if maxTitleLength <? Z.of_nat (List.length (utf8.stringtoslicerune title))
  then utf8.stringtoslicerune drawn
       = firstn 90 (utf8.stringtoslicerune title) ++ [0x2026]
  else drawn = title.

(** A string that is the UTF-8 encoding of its own codepoints. *)
Definition valid_utf8 (s : string) : Prop :=
  utf8.slicerunetostring (utf8.stringtoslicerune s) = s.

(** Pixel [(x, y)] is the unit square with corners [(x, y)] and
    [(x+1, y+1)].  It is strictly inside the circle of centre
    [(cx, cy)] and radius [r] when its four corners are closer to the
    centre than [r], and strictly outside when its nearest point is
    farther than [r]. *)
Definition sq (z : Z) : Z := z * z.

Definition clamp (lo hi v : Z) : Z :=
  if v <? lo then lo else if hi <? v then hi else v.

Definition strictlyInside (cx cy r x y : Z) : bool :=
  forallb (fun c => sq (fst c - cx) + sq (snd c - cy) <? sq r)
          [(x, y); (x + 1, y); (x, y + 1); (x + 1, y + 1)].

Definition strictlyOutside (cx cy r x y : Z) : bool :=
  sq r <? sq (clamp x (x + 1) cx - cx) + sq (clamp y (y + 1) cy - cy).

(** What the rasterizer is relied on for: a rectangle with integer
    corners covers the pixels inside it fully; a circle with integer
    centre and radius covers fully the pixels strictly inside it and
    not at all those strictly outside. *)
Definition rasterizes_rectangles (L : Libraries) : Prop :=
  forall x0 y0 rw rh w h x y,
    0 <= x < w -> 0 <= y < h ->
    x0 <= x < x0 + rw -> y0 <= y < y0 + rh ->
    rasterize [gg.RectangleShape (float64 x0) (float64 y0) (float64 rw) (float64 rh)]
              w h x y = 0xffff.

Definition rasterizes_circles (L : Libraries) : Prop :=
  forall cx cy r w h x y,
    (0 <= x < w -> 0 <= y < h -> strictlyInside cx cy r x y = true ->
     rasterize [gg.CircleShape (float64 cx) (float64 cy) (float64 r)] w h x y
     = 0xffff) /\
    (strictlyOutside cx cy r x y = true ->
     rasterize [gg.CircleShape (float64 cx) (float64 cy) (float64 r)] w h x y = 0).

(** What [vips] is relied on for.  A thumbnail has the width and the
    height asked for; a resize by [s] multiplies both dimensions by
    [s], up to the rounding to a whole number of pixels. *)
Definition thumbnail_has_size (L : Libraries) : Prop :=
  forall buf ref w h ref' out,
    vips_NewImageFromBuffer buf = Ok ref ->
    vips_Thumbnail ref w h InterestingAttention = Ok ref' ->
    vips_Export ref' = Ok out ->
    image_DecodeConfig out = Ok (w, h).



(** The contract of the resolver: as many buffers as identifiers. *)
Definition same_length (g : getter) : Prop :=
  forall ids bufs, GetAll g ids = Ok bufs -> List.length bufs = List.length ids.

(** ** Runs and traces

    The vocabulary in which the properties of the stages are stated:
    what a trace may contain, how a run of a helper ends, and the
    order in which [Draw] reads its buffers and runs its stages. *)

(** The values of a byte. *)
Definition byte_range (b : Z) : Prop := 0 <= b < 256.

(** Events that read [imgBufs[i]]. *)
Definition is_index (ev : Event) : bool :=
  match ev with EvIndex _ => true | _ => false end.

(** No library call of the trace failed. *)
Definition clean (evs : list Event) : bool :=
  forallb (fun ev => negb (call_failed ev)) evs.

(** The events inside one stage: no entry into a stage, no read of
    [imgBufs]. *)
Definition inner (evs : list Event) : bool :=
  forallb (fun ev => negb (is_enter ev) && negb (is_index ev)) evs.

(** Library calls and log lines only: nothing touches the canvas. *)
Definition library_only (evs : list Event) : bool :=
  forallb (fun ev => match ev with EvCall _ _ | EvLog _ => true | _ => false end) evs.

(** The last event is a library call that failed with [e], and no
    call before it failed. *)
Definition ends_with_failure (evs : list Event) (e : error) : Prop :=
  exists pre c, evs = pre ++ [EvCall c (Some e)] /\ clean pre = true.

(** How the run of a helper ends: without a failed call when it
    returns a value, at the failed call whose error it returns
    otherwise. *)
Definition settled {T} (r : result T) (evs : list Event) : Prop :=
  match r with
  | Ok _ => clean evs = true
  | Err e => ends_with_failure evs e
  end.

(** No text is drawn. *)
Definition no_text (evs : list Event) : bool :=
  forallb (fun ev => negb (is_text ev)) evs.

(** No colour is set and nothing is filled. *)
Definition no_fill (evs : list Event) : bool :=
  forallb (fun ev => negb (is_fill ev)) evs.


(** The messages with which each stage wraps the errors of its
    helpers. *)
Definition messages (st : Stage) : list string :=
  match st with
  | BackgroundStage =>
    ["could not resize the background"%string; "could not decode the background"%string]
  | ForegroundStage => []
  | AvatarStage => ["could not resize the avatar"%string; "could not decode the avatar"%string]
  | AuthorStage => ["could not load a font face"%string]
  | TitleStage => ["could not load a font face"%string]
  | LogoStage => ["could not resize the logo"%string; "could not decode the logo"%string]
  end.

(** The reads of [imgBufs] and the stages of [Draw], in order. *)
Definition plan (o : Options) : list (option nat * Stage) :=
  [ (if hexRe_Match (Bg o) || String.eqb (Bg o) EmptyString then None else Some 2%nat,
     BackgroundStage);
    (None, ForegroundStage);
    (Some 0%nat, AvatarStage);
    (None, AuthorStage);
    (None, TitleStage);
    (Some 1%nat, LogoStage) ].

(** The event of a read, and what makes it succeed. *)
Definition read_events (oi : option nat) : list Event :=
  match oi with Some i => [EvIndex (Z.of_nat i)] | None => [] end.

Definition readable (bufs : list slice) (oi : option nat) : Prop :=
  match oi with Some i => nth_error bufs i <> None | None => True end.

(** The runs of a list of stages over the fetched buffers: each stage
    reads its buffer, if it has one, and runs; the run stops at the
    first read out of range, with a panic, or at the first stage that
    fails, with its error, and else goes on to the end. *)
Inductive pipeline (bufs : list slice) :
  list (option nat * Stage) ->
  outcome (option image_Image * option error) -> list Event -> Prop :=
| pipeline_done img :
    pipeline bufs [] (Val (Some img, None)) []
| pipeline_panic i st rest :
    nth_error bufs i = None ->
    pipeline bufs ((Some i, st) :: rest) Panic [EvIndex (Z.of_nat i)]
| pipeline_fail oi st rest evs msg cause :
    readable bufs oi -> inner evs = true -> ends_with_failure evs cause ->
    In msg (messages st) -> st <> TitleStage ->
    pipeline bufs ((oi, st) :: rest) (Val (None, Some (Errorf msg cause)))
             (read_events oi ++ EvEnter st :: evs)
| pipeline_next oi st rest evs out evs' :
    readable bufs oi -> inner evs = true -> clean evs = true ->
    pipeline bufs rest out evs' ->
    pipeline bufs ((oi, st) :: rest) out
             (read_events oi ++ EvEnter st :: evs ++ evs').

(** The reads that a list of stages plans. *)
Definition planned (pl : list (option nat * Stage)) : list nat :=
  flat_map (fun p => match fst p with Some i => [i] | None => [] end) pl.

(** What every stage method does to the world. *)
Definition stage_spec (st : Stage) (c : M (option error)) : Prop :=
  forall w o dc,
    opts (self w) = Some o -> ctx (self w) = Some dc ->
    exists r dc' evs,
      c w = (Val r, mkWorld (mkPreview (Some o) (Some dc') (remote (self w)))
                            (trace w ++ EvEnter st :: evs)) /\
      inner evs = true /\
      match r with
      | None => clean evs = true
      | Some e =>
        exists msg cause,
          e = Errorf msg cause /\ In msg (messages st) /\ ends_with_failure evs cause
      end.

(** A computation only adds to the trace. *)
Definition extends {A} (c : M A) : Prop :=
  forall w, exists evs, trace (snd (c w)) = trace w ++ evs.

(** A computation whose first event is [ev]. *)
Definition starts {A} (ev : Event) (c : M A) : Prop :=
  forall w, exists rest, trace (snd (c w)) = trace w ++ ev :: rest.

(** Two worlds that [Draw] cannot tell apart once it has fetched
    [ids]: the same options, the same canvas, and resolvers that
    return the same buffers for [ids]. *)
Definition same_fetch (ids : list string) (w1 w2 : World) : Prop :=
  GetAll (remote (self w1)) ids = GetAll (remote (self w2)) ids.

(** The same receiver fields and the same fetch. *)
Definition agree (ids : list string) (w1 w2 : World) : Prop :=
  opts (self w1) = opts (self w2) /\ ctx (self w1) = ctx (self w2) /\
  same_fetch ids w1 w2.

(** A computation that two such worlds cannot tell apart: the same
    outcome, and worlds that still agree. *)
Definition stable {A} (ids : list string) (c : M A) : Prop :=
  forall w1 w2, agree ids w1 w2 ->
    fst (c w1) = fst (c w2) /\ agree ids (snd (c w1)) (snd (c w2)).

Section Runs.
Context {L : Libraries}.

(** The error, if any, that loading the font [name] ends in: the
    first failure among reading and parsing the three font files. *)
Definition fontError (name : string) : option error :=
  match fonts_ReadFile name with
  | Err e => Some e
  | Ok textBuf =>
    match truetype_Parse textBuf with
    | Err e => Some e
    | Ok _ =>
      match fonts_ReadFile symbolsFont with
      | Err e => Some e
      | Ok symbolsBuf =>
        match truetype_Parse symbolsBuf with
        | Err e => Some e
        | Ok _ =>
          match fonts_ReadFile emojiFont with
          | Err e => Some e
          | Ok emojiBuf =>
            match truetype_Parse emojiBuf with
            | Err e => Some e
            | Ok _ => None
            end
          end
        end
      end
    end
  end.

(** The world in which the first stage of [Draw] runs. *)
Definition fetched (o : Options) (w : World) : World :=
  mkWorld (mkPreview (Some o) (Some (gg.NewContext (CanvasW o) (CanvasH o)))
                     (remote (self w)))
          (trace w ++ [EvCall (CallGetAll (urlsOrPaths o)) None]).

(** The call of the first stage in [Draw]. *)
Definition background_call (o : Options) (imgBufs : list slice) : M (option error) :=
  if isBgHEX o || String.eqb (Bg o) EmptyString
  then drawBackground None (bgColor o)
  else b <- index imgBufs 2 ;; drawBackground b (bgColor o).

(** The image that [circle] returns for [src]. *)
Definition circled (src : image_Image) : image_Image := gg.Image (circle_mask src).

End Runs.

(** ** More vocabulary: the receiver, the canvas and the libraries

    What the further properties of the stages are stated with. *)

(** Whether [Draw] fetches the background: it is neither a colour nor
    empty. *)
Definition fetches_background (o : Options) : bool :=
  negb (hexRe_Match (Bg o)) && negb (String.eqb (Bg o) EmptyString).

(** The stages of [Draw] that can fail: the background only when it
    is an image. *)
Definition may_fail (o : Options) (st : Stage) : bool :=
  match st with
  | BackgroundStage => fetches_background o
  | AvatarStage | AuthorStage | LogoStage => true
  | ForegroundStage | TitleStage => false
  end.

(** A computation that leaves the receiver as it was. *)
Definition quiet {A} (c : M A) : Prop :=
  forall w, self (snd (c w)) = self w.

(** A computation that keeps a property of the receiver. *)
Definition keeps {A} (I : Preview -> Prop) (c : M A) : Prop :=
  forall w, I (self w) -> I (self (snd (c w))).

(** The receiver holds the options [o] and a canvas whose image has
    the bounds [R]. *)
Definition canvas_is (R : Rectangle) (o : Options) (p : Preview) : Prop :=
  opts p = Some o /\ exists dc, ctx p = Some dc /\ Rect (gg.im dc) = R.

(** The image that a computation returns is the canvas it leaves. *)
Definition returns_canvas (c : M (option image_Image * option error)) : Prop :=
  forall w img e,
    fst (c w) = Val (Some img, e) ->
    exists dc, ctx (self (snd (c w))) = Some dc /\ img = gg.Image dc.

(** What the glyph renderer is relied on for here: it draws into the
    image it is given and returns one of the same bounds. *)
Definition text_keeps_bounds (L : Libraries) : Prop :=
  (forall f c s x y ax ay img,
     Rect (drawText f c s x y ax ay img) = Rect img) /\
  (forall f c s x y ax ay wd ls al img,
     Rect (drawTextWrapped f c s x y ax ay wd ls al img) = Rect img).






(** The font files that [loadFont] reads for the text font [name], in
    the order in which their faces are added. *)
Definition font_files (name : string) : list string :=
  [name; symbolsFont; emojiFont].

(** The string that [drawTitle] hands to the word wrapper for a
    title: the expression of the source, outside the monad (there the
    slice never panics, the count being above 90). *)
Definition title_drawn (title : string) : string :=
  if maxTitleLength <? utf8.RuneCountInString title
  then (utf8.slicerunetostring (firstn 90 (utf8.stringtoslicerune title)) ++ ellipsis)%string
  else title.

(** The call with which [drawTitle] draws the string [s]. *)
Definition title_call (o : Options) (s : string) : gg.Call :=
  gg.DrawStringWrapped s (float64 padding)
    (float64 padding * 2 + float64 (AvaD o))%Q 0 0
    (float64 (CanvasW o) - float64 padding - float64 margin * 2)%Q
    (12 # 10) gg.AlignLeft.

(** What the decoders are relied on for here: an image that decodes
    has the width and height of its header, its bounds start at the
    origin, and its dimensions fit 31 bits. *)
Definition decode_agrees (L : Libraries) : Prop :=
  forall buf img,
    image_Decode buf = Ok img ->
    exists w h,
      image_DecodeConfig buf = Ok (w, h) /\ Bounds img = mkRect 0 0 w h /\
      0 <= w < 2 ^ 31 /\ 0 <= h < 2 ^ 31.

(** The canvas after the border ring of the avatar is painted on
    [dc]. *)
Definition ringed {L : Libraries} (o : Options) (dc : gg.Context) : gg.Context :=
  exec gg.Fill
    (exec (gg.SetHexColor avatarBorderColor)
       (exec (gg.DrawCircle
                (float64 padding + float64 (int_add (AvaD o) border) / 2)%Q
                (float64 padding + float64 (int_add (AvaD o) border) / 2)%Q
                (float64 (int_div (int_add (AvaD o) 8) 2))) dc)).

(** What [Draw] does after the fetch when the resolver returned no
    buffer, up to the read that panics: for a background that is
    fetched, the read of [imgBufs[2]] and nothing else; otherwise the
    background and the foreground are painted before the read of
    [imgBufs[0]]. *)
Definition events_before_panic (o : Options) : list Event :=
  if fetches_background o then [EvIndex 2]
  else [EvEnter BackgroundStage; EvDraw (gg.SetHexColor (bgColor o));
        EvDraw (gg.DrawRectangle 0 0 (float64 (CanvasW o)) (float64 (CanvasH o)));
        EvDraw gg.Fill;
        EvEnter ForegroundStage;
        EvDraw (gg.SetColor
                  (RGBA 0 0 0 (uint8_of_float (float64_mul 255 (Opacity o)))));
        EvDraw (gg.DrawRectangle (float64 margin) (float64 margin)
                  (float64 (CanvasW o) - float64 margin * 2)%Q
                  (float64 (CanvasH o) - float64 margin * 2)%Q);
        EvDraw gg.Fill;
        EvIndex 0].

(** ** A small instance of the libraries

    Images are two bytes, the width and the height; a decoded image
    is opaque red.  The rasterizer is exact on the pixels that lie
    wholly inside or outside a shape with integer coordinates and
    gives half coverage elsewhere.  Text is not drawn. *)

Module demo.

Definition dim (b : Byte.byte) : Z := Z.of_N (Byte.to_N b).

Definition DecodeConfig (buf : bytes) : result (Z * Z) :=
  match buf with
  | w :: h :: _ => Ok (dim w, dim h)
  | _ => Err (LibError "image: unknown format")
  end.

Definition Decode (buf : bytes) : result image_Image :=
  match buf with
  | w :: h :: _ => Ok (mkImage (mkRect 0 0 (dim w) (dim h)) (fun _ _ => RGBA 255 0 0 255))
  | _ => Err (LibError "image: unknown format")
  end.

Definition Thumbnail (ref : Z * Z) (w h : Z) (crop : Interesting) : result (Z * Z) :=
  if (0 <? w) && (0 <? h) then Ok (w, h)
  else Err (LibError "vips: bad size").

Definition Resize (ref : Z * Z) (s : Q) (k : Kernel) : result (Z * Z) :=
  Ok (Qfloor (float64 (fst ref) * s), Qfloor (float64 (snd ref) * s)).

Definition Export (ref : Z * Z) : result bytes :=
  if (0 <=? fst ref) && (0 <=? snd ref) then
    match Byte.of_N (Z.to_N (fst ref)), Byte.of_N (Z.to_N (snd ref)) with
    | Some w, Some h => Ok [w; h]
    | _, _ => Err (LibError "vips: image too large")
    end
  else Err (LibError "vips: image too large").

Definition ReadFile (name : string) : result bytes :=
  if String.eqb name textFont || String.eqb name symbolsFont
     || String.eqb name emojiFont
  then Ok [] else Err (LibError "open: file does not exist").

Definition Parse (buf : bytes) : result Font := Ok (ParsedFont buf).

Definition whole (q : Q) : option Z :=
  if Pos.eqb (Qden q) 1 then Some (Qnum q) else None.

Definition cover (sh : gg.Shape) (x y : Z) : Z :=
  match sh with
  | gg.RectangleShape x0 y0 rw rh =>
    match whole x0, whole y0, whole rw, whole rh with
    | Some x0, Some y0, Some rw, Some rh =>
      if (x0 <=? x) && (x <? x0 + rw) && (y0 <=? y) && (y <? y0 + rh)
      then 0xffff else 0
    | _, _, _, _ => 0x8000
    end
  | gg.CircleShape cx cy r =>
    match whole cx, whole cy, whole r with
    | Some cx, Some cy, Some r =>
      if strictlyOutside cx cy r x y then 0
      else if strictlyInside cx cy r x y then 0xffff
      else 0x8000
    | _, _, _ => 0x8000
    end
  end.

Definition rasterize (p : list gg.Shape) (w h x y : Z) : Z :=
  if (0 <=? x) && (x <? w) && (0 <=? y) && (y <? h)
  then fold_right (fun sh acc => Z.max (cover sh x y) acc) 0 p
  else 0.

Definition libs : Libraries :=
  mkLibraries DecodeConfig Decode (Z * Z)%type DecodeConfig Thumbnail Resize Export
              ReadFile Parse rasterize
              (fun _ _ _ _ _ _ _ img => img)
              (fun _ _ _ _ _ _ _ _ _ _ img => img).

(** A resolver: the identifier ["bad"] yields a buffer that is not an
    image, ["bg"] a 4 by 2 image, any other a 3 by 3 image. *)
Definition fetch (id : string) : slice :=
  if String.eqb id "bad" then Some []
  else if String.eqb id "bg" then Some [Byte.x04; Byte.x02]
  else Some [Byte.x03; Byte.x03].

Definition resolver : getter := mkGetter (fun ids => Ok (map fetch ids)).

Definition options (title bg ava : string) (avaD : Z) : Options :=
  mkOptions 4 2 (1 # 2) avaD title 40 "Jane" 20 EmptyString EmptyString 0 bg ava "logo" 3 80.

Definition world : World := mkWorld (mkPreview None None resolver) [].

(** The world in which the stage methods run inside [Draw]. *)
Definition stage_world (o : Options) : World :=
  mkWorld (mkPreview (Some o) (Some (gg.NewContext (CanvasW o) (CanvasH o))) resolver) [].

(** An eight by eight image of 16-bit pixels whose alpha is [0x1234]. *)
Definition deep : image_Image :=
  mkImage (mkRect 0 0 8 8) (fun _ _ => RGBA64 0x1234 0 0 0x1234).

(** A three by three opaque image. *)
Definition tile : image_Image :=
  mkImage (mkRect 0 0 3 3) (fun _ _ => RGBA 255 0 0 255).

(** Ninety-one letters of two bytes each, U+00E9. *)
Definition long_title : string :=
  string_of_list_ascii
    (List.concat (repeat [ascii_of_nat 195; ascii_of_nat 169] 91)).

(** Options for a solid background, a long title, an avatar that is
    not an image, an empty background, a background image, and an odd
    avatar diameter. *)
Definition solid : Options := options "Hello" "#1e90ff" "ava" 3.

Definition wordy : Options := options long_title "#fff" "ava" 3.

Definition broken : Options := options "Hello" "#fff" "bad" 3.

Definition blank : Options := options "Hello" EmptyString "ava" 3.

Definition pictured : Options := options "Hello" "bg" "ava" 3.

Definition odd : Options := options "Hello" "#fff" "ava" 81.

(** A resolver that returns no buffer at all, and one that returns a
    nil buffer for ["bg"]. *)
Definition silent : getter := mkGetter (fun _ => Ok []).

Definition forgetful : getter :=
  mkGetter (fun ids =>
              Ok (map (fun id => if String.eqb id "bg" then None else fetch id) ids)).

Definition deaf_world : World := mkWorld (mkPreview None None silent) [].

Definition absent_world : World := mkWorld (mkPreview None None forgetful) [].


End demo.

(** * Verification *)

(** ** unicode/utf8: decoding what was encoded *)

Lemma land_shifted_low (a b n : Z) :
  0 <= n -> 0 <= b < 2 ^ n -> Z.land (a * 2 ^ n) b = 0.
Proof.
  intros Hn Hb. apply Z.bits_inj'. intros i Hi.
  rewrite Z.land_spec, Z.bits_0.
  destruct (Z.lt_ge_cases i n) as [Hlt | Hge].
  - rewrite Z.mul_pow2_bits_low by lia. reflexivity.
  - replace b with (b mod 2 ^ n) by (apply Z.mod_small; lia).
    rewrite Z.mod_pow2_bits_high by lia. apply andb_false_r.
Qed.

Lemma lor_shifted (a b n : Z) :
  0 <= n -> 0 <= b < 2 ^ n -> Z.lor (a * 2 ^ n) b = a * 2 ^ n + b.
Proof.
  intros Hn Hb. pose proof (Z.add_lor_land (a * 2 ^ n) b) as H.
  rewrite (land_shifted_low a b n Hn Hb) in H. lia.
Qed.

Lemma land_maskx (v : Z) : Z.land v utf8.maskx = v mod 64.
Proof. change utf8.maskx with (Z.ones 6). rewrite Z.land_ones by lia. reflexivity. Qed.
Lemma land_mask2 (v : Z) : Z.land v utf8.mask2 = v mod 32.
Proof. change utf8.mask2 with (Z.ones 5). rewrite Z.land_ones by lia. reflexivity. Qed.
Lemma land_mask3 (v : Z) : Z.land v utf8.mask3 = v mod 16.
Proof. change utf8.mask3 with (Z.ones 4). rewrite Z.land_ones by lia. reflexivity. Qed.
Lemma land_mask4 (v : Z) : Z.land v utf8.mask4 = v mod 8.
Proof. change utf8.mask4 with (Z.ones 3). rewrite Z.land_ones by lia. reflexivity. Qed.

Lemma lor_tx (v : Z) : 0 <= v < 64 -> Z.lor utf8.tx v = 128 + v.
Proof. intros. change utf8.tx with (2 * 2 ^ 6). rewrite lor_shifted; lia. Qed.
Lemma lor_t2 (v : Z) : 0 <= v < 32 -> Z.lor utf8.t2 v = 192 + v.
Proof. intros. change utf8.t2 with (6 * 2 ^ 5). rewrite lor_shifted; lia. Qed.
Lemma lor_t3 (v : Z) : 0 <= v < 16 -> Z.lor utf8.t3 v = 224 + v.
Proof. intros. change utf8.t3 with (14 * 2 ^ 4). rewrite lor_shifted; lia. Qed.
Lemma lor_t4 (v : Z) : 0 <= v < 8 -> Z.lor utf8.t4 v = 240 + v.
Proof. intros. change utf8.t4 with (30 * 2 ^ 3). rewrite lor_shifted; lia. Qed.

Lemma rune2_value (a b : Z) :
  Z.lor (Z.shiftl (Z.land a utf8.mask2) 6) (Z.land b utf8.maskx)
  = (a mod 32) * 64 + b mod 64.
Proof.
  rewrite land_mask2, land_maskx, Z.shiftl_mul_pow2 by lia.
  apply lor_shifted; [lia | apply Z.mod_pos_bound; lia].
Qed.

Lemma rune3_value (a b c : Z) :
  Z.lor (Z.lor (Z.shiftl (Z.land a utf8.mask3) 12) (Z.shiftl (Z.land b utf8.maskx) 6))
        (Z.land c utf8.maskx)
  = (a mod 16) * 4096 + (b mod 64) * 64 + c mod 64.
Proof.
  rewrite land_mask3, !land_maskx, !Z.shiftl_mul_pow2 by lia.
  pose proof (Z.mod_pos_bound b 64 ltac:(lia)).
  pose proof (Z.mod_pos_bound c 64 ltac:(lia)).
  rewrite (lor_shifted (a mod 16) (b mod 64 * 2 ^ 6) 12) by lia.
  replace (a mod 16 * 2 ^ 12 + b mod 64 * 2 ^ 6)
    with ((a mod 16 * 64 + b mod 64) * 2 ^ 6) by lia.
  rewrite lor_shifted by lia. lia.
Qed.

Lemma rune4_value (a b c d : Z) :
  Z.lor (Z.lor (Z.lor (Z.shiftl (Z.land a utf8.mask4) 18)
                      (Z.shiftl (Z.land b utf8.maskx) 12))
               (Z.shiftl (Z.land c utf8.maskx) 6))
        (Z.land d utf8.maskx)
  = (a mod 8) * 262144 + (b mod 64) * 4096 + (c mod 64) * 64 + d mod 64.
Proof.
  rewrite land_mask4, !land_maskx, !Z.shiftl_mul_pow2 by lia.
  pose proof (Z.mod_pos_bound b 64 ltac:(lia)).
  pose proof (Z.mod_pos_bound c 64 ltac:(lia)).
  pose proof (Z.mod_pos_bound d 64 ltac:(lia)).
  rewrite (lor_shifted (a mod 8) (b mod 64 * 2 ^ 12) 18) by lia.
  replace (a mod 8 * 2 ^ 18 + b mod 64 * 2 ^ 12)
    with ((a mod 8 * 64 + b mod 64) * 2 ^ 12) by lia.
  rewrite (lor_shifted _ (c mod 64 * 2 ^ 6) 12) by lia.
  replace ((a mod 8 * 64 + b mod 64) * 2 ^ 12 + c mod 64 * 2 ^ 6)
    with (((a mod 8 * 64 + b mod 64) * 64 + c mod 64) * 2 ^ 6) by lia.
  rewrite lor_shifted by lia. lia.
Qed.

(** The bytes of an encoding, in arithmetic. *)
Lemma encode_tail (v : Z) : Z.lor utf8.tx (Z.land (v mod 256) utf8.maskx) = 128 + v mod 64.
Proof.
  rewrite land_maskx.
  replace ((v mod 256) mod 64) with (v mod 64) by (Z.div_mod_to_equations; lia).
  apply lor_tx. apply Z.mod_pos_bound; lia.
Qed.

Ltac first_cases b :=
  unfold utf8.first;
  destruct (Z.ltb_spec b 0x80); [ | 
  destruct (Z.ltb_spec b 0xC2); [ |
  destruct (Z.ltb_spec b 0xE0); [ |
  destruct (Z.eqb_spec b 0xE0); [ |
  destruct (Z.ltb_spec b 0xED); [ |
  destruct (Z.eqb_spec b 0xED); [ |
  destruct (Z.ltb_spec b 0xF0); [ |
  destruct (Z.eqb_spec b 0xF0); [ |
  destruct (Z.ltb_spec b 0xF4); [ |
  destruct (Z.eqb_spec b 0xF4) ]]]]]]]]].

Ltac split_ifs :=
  repeat match goal with
  | |- context [fst (if ?c then _ else _)] =>
    let E := fresh "E" in destruct c eqn:E; cbn [fst snd]
  end;
  repeat match goal with
  | H : (_ || _) = false |- _ => apply orb_false_iff in H; destruct H
  | H : (_ || _) = true |- _ => clear H
  | H : (_ <? _) = false |- _ => apply Z.ltb_ge in H
  | H : (_ <? _) = true |- _ => apply Z.ltb_lt in H
  | H : (_ <=? _) = false |- _ => apply Z.leb_gt in H
  | H : (_ <=? _) = true |- _ => apply Z.leb_le in H
  end.

Lemma decode_scalar (s : list Z) :
  Forall byte_range s -> s <> [] ->
  utf8.scalar (fst (utf8.DecodeRuneInString s)) /\
  (1 <= snd (utf8.DecodeRuneInString s) <= List.length s)%nat.
Proof.
  intros Hs Hne. destruct s as [ | s0 t]; [congruence | ].
  assert (H0 : byte_range s0) by (inversion Hs; assumption).
  unfold byte_range in H0.
  assert (Hn : forall k, byte_range (nth k (s0 :: t) 0)).
  { intros k. destruct (Nat.lt_ge_cases k (List.length (s0 :: t))).
    - rewrite Forall_forall in Hs. apply Hs, nth_In; assumption.
    - rewrite nth_overflow by assumption. unfold byte_range; lia. }
  pose proof (Hn 1%nat) as H1. pose proof (Hn 2%nat) as H2. pose proof (Hn 3%nat) as H3.
  unfold byte_range in H1, H2, H3.
  unfold utf8.DecodeRuneInString, utf8.scalar.
  rewrite rune2_value, rune3_value, rune4_value.
  remember (nth 1 (s0 :: t) 0) as s1 eqn:Es1.
  remember (nth 2 (s0 :: t) 0) as s2 eqn:Es2.
  remember (nth 3 (s0 :: t) 0) as s3 eqn:Es3.
  remember (List.length (s0 :: t)) as n eqn:En.
  assert (Hlen : (1 <= n)%nat) by (subst n; simpl; lia).
  remember (s0 mod 32 * 64 + s1 mod 64) as v2 eqn:Ev2.
  remember (s0 mod 16 * 4096 + s1 mod 64 * 64 + s2 mod 64) as v3 eqn:Ev3.
  remember (s0 mod 8 * 262144 + s1 mod 64 * 4096 + s2 mod 64 * 64 + s3 mod 64) as v4 eqn:Ev4.
  clear Es1 Es2 Es3 En Hs Hne Hn.
  first_cases s0; simpl; split_ifs;
    unfold utf8.surrogateMin, utf8.surrogateMax, utf8.MaxRune, utf8.RuneError,
      utf8.locb, utf8.hicb in *;
    subst v2 v3 v4;
    (split; [ Z.div_mod_to_equations; lia | lia ]).
Qed.

Ltac split_ifs_eq :=
  repeat match goal with
  | |- context [if ?c then _ else _] =>
    let E := fresh "E" in destruct c eqn:E
  end;
  repeat match goal with
  | H : (_ || _) = false |- _ => apply orb_false_iff in H; destruct H
  | H : (_ || _) = true |- _ => apply orb_true_iff in H; destruct H
  | H : (_ <? _) = false |- _ => apply Z.ltb_ge in H
  | H : (_ <? _) = true |- _ => apply Z.ltb_lt in H
  | H : (_ <=? _) = false |- _ => apply Z.leb_gt in H
  | H : (_ <=? _) = true |- _ => apply Z.leb_le in H
  end.

Lemma decode_bytes (b0 b1 b2 b3 : Z) (rest : list Z) (r : Z) (k : nat) :
  (k = 1%nat /\ 0 <= b0 < 128 /\ r = b0) \/
  (k = 2%nat /\ 194 <= b0 < 224 /\ 128 <= b1 < 192 /\
   r = b0 mod 32 * 64 + b1 mod 64) \/
  (k = 3%nat /\ 224 <= b0 < 240 /\ 128 <= b1 < 192 /\ 128 <= b2 < 192 /\
   (b0 = 224 -> 160 <= b1) /\ (b0 = 237 -> b1 < 160) /\
   r = b0 mod 16 * 4096 + b1 mod 64 * 64 + b2 mod 64) \/
  (k = 4%nat /\ 240 <= b0 < 245 /\ 128 <= b1 < 192 /\ 128 <= b2 < 192 /\
   128 <= b3 < 192 /\ (b0 = 240 -> 144 <= b1) /\ (b0 = 244 -> b1 < 144) /\
   r = b0 mod 8 * 262144 + b1 mod 64 * 4096 + b2 mod 64 * 64 + b3 mod 64) ->
  utf8.DecodeRuneInString (firstn k [b0; b1; b2; b3] ++ rest) = (r, k).
Proof.
  intros H.
  destruct H as [(-> & H0 & ->) | [(-> & H0 & H1 & ->) |
    [(-> & H0 & H1 & H2 & Ha & Hb & ->) | (-> & H0 & H1 & H2 & H3 & Ha & Hb & ->)]]];
    cbn [firstn app]; unfold utf8.DecodeRuneInString;
    rewrite ?rune2_value, ?rune3_value, ?rune4_value; cbn [nth];
    remember (List.length rest) as n eqn:En; cbn [List.length]; rewrite <- ?En;
    first_cases b0; try lia; simpl;
    unfold utf8.locb, utf8.hicb in *;
    split_ifs_eq; try lia; try reflexivity.
Qed.

Lemma decode_encode (r : Z) (rest : list Z) :
  utf8.scalar r ->
  utf8.DecodeRuneInString (utf8.encoderune r ++ rest)
  = (r, List.length (utf8.encoderune r)) /\
  Forall byte_range (utf8.encoderune r) /\ utf8.encoderune r <> [].
Proof.
  unfold utf8.scalar, utf8.surrogateMin, utf8.surrogateMax, utf8.MaxRune.
  intros Hr.
  assert (Hi : r mod 2 ^ 32 = r) by (apply Z.mod_small; lia).
  unfold utf8.encoderune, utf8.encode3. rewrite Hi. clear Hi.
  unfold utf8.rune1Max, utf8.rune2Max, utf8.rune3Max, utf8.MaxRune,
    utf8.surrogateMin, utf8.surrogateMax.
  rewrite !encode_tail, !Z.shiftr_div_pow2 by lia.
  change (2 ^ 6) with 64. change (2 ^ 12) with 4096. change (2 ^ 18) with 262144.
  destruct (Z.leb_spec r 127).
  { split; [ | split; [ | discriminate]].
    - rewrite (Z.mod_small r 256) by lia.
      apply (decode_bytes r 0 0 0 rest r 1). left. lia.
    - repeat constructor; unfold byte_range; Z.div_mod_to_equations; lia. }
  destruct (Z.leb_spec r 2047).
  { rewrite (Z.mod_small (r / 64) 256) by (Z.div_mod_to_equations; lia).
    rewrite lor_t2 by (Z.div_mod_to_equations; lia).
    split; [ | split; [ | discriminate]].
    - apply (decode_bytes (192 + r / 64) (128 + r mod 64) 0 0 rest r 2).
      right; left. repeat split; Z.div_mod_to_equations; lia.
    - repeat constructor; unfold byte_range; Z.div_mod_to_equations; lia. }
  destruct ((1114111 <? r) || ((55296 <=? r) && (r <=? 57343))) eqn:E.
  { exfalso. apply orb_true_iff in E. destruct E as [E | E].
    - apply Z.ltb_lt in E. lia.
    - apply andb_true_iff in E. destruct E as [E1 E2].
      apply Z.leb_le in E1. apply Z.leb_le in E2. lia. }
  destruct (Z.leb_spec r 65535).
  { rewrite (Z.mod_small (r / 4096) 256) by (Z.div_mod_to_equations; lia).
    rewrite lor_t3 by (Z.div_mod_to_equations; lia).
    split; [ | split; [ | discriminate]].
    - apply (decode_bytes (224 + r / 4096) (128 + (r / 64) mod 64) (128 + r mod 64) 0 rest r 3).
      right; right; left. repeat split; Z.div_mod_to_equations; lia.
    - repeat constructor; unfold byte_range; Z.div_mod_to_equations; lia. }
  rewrite (Z.mod_small (r / 262144) 256) by (Z.div_mod_to_equations; lia).
  rewrite lor_t4 by (Z.div_mod_to_equations; lia).
  split; [ | split; [ | discriminate]].
  - apply (decode_bytes (240 + r / 262144) (128 + (r / 4096) mod 64)
             (128 + (r / 64) mod 64) (128 + r mod 64) rest r 4).
    right; right; right. repeat split; Z.div_mod_to_equations; lia.
  - repeat constructor; unfold byte_range; Z.div_mod_to_equations; lia.
Qed.

(** *** The loops *)

Lemma Forall_skipn {A} (P : A -> Prop) (n : nat) (l : list A) :
  Forall P l -> Forall P (skipn n l).
Proof.
  revert l. induction n as [ | n IH]; intros l H; [exact H | ].
  destruct l as [ | a l]; [constructor | ]. simpl. apply IH. inversion H; assumption.
Qed.

Lemma runes_loop_fuel (f1 f2 : nat) (s : list Z) :
  Forall byte_range s ->
  (List.length s <= f1)%nat -> (List.length s <= f2)%nat ->
  utf8.runes_loop f1 s = utf8.runes_loop f2 s.
Proof.
  revert f2 s. induction f1 as [ | f1 IH]; intros f2 s Hs H1 H2.
  - destruct s; [ | simpl in H1; lia]. destruct f2; reflexivity.
  - destruct s as [ | a t]; [destruct f2; reflexivity | ].
    destruct f2 as [ | f2]; [simpl in H2; lia | ].
    cbn [utf8.runes_loop].
    destruct (decode_scalar (a :: t) Hs ltac:(discriminate)) as [_ Hw].
    destruct (utf8.DecodeRuneInString (a :: t)) as [r size]. cbn [snd] in Hw.
    f_equal. apply IH.
    + apply Forall_skipn; assumption.
    + rewrite length_skipn. cbn [List.length] in *. lia.
    + rewrite length_skipn. cbn [List.length] in *. lia.
Qed.

Lemma runes_loop_scalar (f : nat) (s : list Z) :
  Forall byte_range s -> Forall utf8.scalar (utf8.runes_loop f s).
Proof.
  revert s. induction f as [ | f IH]; intros s Hs; [constructor | ].
  destruct s as [ | a t]; [constructor | ]. cbn [utf8.runes_loop].
  destruct (decode_scalar (a :: t) Hs ltac:(discriminate)) as [Hr _].
  destruct (utf8.DecodeRuneInString (a :: t)) as [r size]. cbn [fst] in Hr.
  constructor; [exact Hr | ]. apply IH, Forall_skipn; assumption.
Qed.

Lemma count_loop_length (f : nat) (s : list Z) (n : Z) :
  utf8.count_loop f s n = n + Z.of_nat (List.length (utf8.runes_loop f s)).
Proof.
  revert s n. induction f as [ | f IH]; intros s n; [simpl; lia | ].
  destruct s as [ | a t]; [simpl; lia | ].
  cbn [utf8.runes_loop utf8.count_loop]. rewrite IH.
  destruct (utf8.DecodeRuneInString (a :: t)) as [r size]. cbn [snd List.length]. lia.
Qed.

Lemma skipn_length_app {A} (l1 l2 : list A) : skipn (List.length l1) (l1 ++ l2) = l2.
Proof. induction l1; simpl; auto. Qed.

Lemma runes_loop_encoded (rs : list Z) (tl : list Z) (f : nat) :
  Forall utf8.scalar rs -> Forall byte_range tl ->
  (List.length (flat_map utf8.encoderune rs ++ tl) <= f)%nat ->
  utf8.runes_loop f (flat_map utf8.encoderune rs ++ tl)
  = rs ++ utf8.runes_loop (List.length tl) tl.
Proof.
  revert f. induction rs as [ | r rs IH]; intros f Hrs Htl Hf.
  - simpl. apply runes_loop_fuel; [assumption | simpl in Hf; lia | lia].
  - inversion Hrs as [ | ? ? Hr Hrs']; subst.
    cbn [flat_map]. rewrite <- app_assoc.
    destruct (decode_encode r (flat_map utf8.encoderune rs ++ tl) Hr) as (Hd & Hb & Hne).
    assert (Hpos : (1 <= List.length (utf8.encoderune r))%nat).
    { destruct (utf8.encoderune r); [congruence | simpl; lia]. }
    cbn [flat_map] in Hf. rewrite !length_app in Hf.
    destruct f as [ | f]; [lia | ].
    cbn [utf8.runes_loop].
    destruct (utf8.encoderune r ++ flat_map utf8.encoderune rs ++ tl) as [ | a t] eqn:E.
    { apply (f_equal (@List.length Z)) in E. rewrite length_app in E. simpl in E. lia. }
    rewrite Hd. rewrite <- E. rewrite skipn_length_app. cbn [app]. f_equal.
    apply IH; [assumption | assumption | rewrite length_app; lia].
Qed.

Lemma Forall_firstn {A} (P : A -> Prop) (n : nat) (l : list A) :
  Forall P l -> Forall P (firstn n l).
Proof.
  revert l. induction n as [ | n IH]; intros l H; [constructor | ].
  destruct l as [ | a l]; [constructor | ]. simpl.
  inversion H; subst. constructor; [assumption | apply IH; assumption].
Qed.

(** *** Strings and their bytes *)

Lemma byteval_range (c : ascii) : byte_range (byteval c).
Proof.
  unfold byte_range, byteval. pose proof (N_ascii_bounded c). lia.
Qed.

Lemma bytes_of_range (s : string) : Forall byte_range (bytes_of s).
Proof.
  unfold bytes_of. apply Forall_forall. intros x Hx.
  apply in_map_iff in Hx. destruct Hx as (c & <- & _). apply byteval_range.
Qed.

Lemma byteval_tobyte (z : Z) : byte_range z -> byteval (tobyte z) = z.
Proof.
  unfold byte_range, byteval, tobyte. intros H.
  rewrite Z.mod_small by lia. rewrite N_ascii_embedding by lia. lia.
Qed.

Lemma tobyte_byteval (c : ascii) : tobyte (byteval c) = c.
Proof.
  unfold tobyte, byteval. pose proof (N_ascii_bounded c).
  rewrite Z.mod_small by lia. rewrite N2Z.id. apply ascii_N_embedding.
Qed.

Lemma bytes_of_string_of_bytes (l : list Z) :
  Forall byte_range l -> bytes_of (string_of_bytes l) = l.
Proof.
  unfold bytes_of, string_of_bytes. intros H.
  rewrite list_ascii_of_string_of_list_ascii, map_map.
  induction H as [ | z l Hz _ IH]; [reflexivity | ].
  simpl. rewrite byteval_tobyte by assumption. f_equal. exact IH.
Qed.

Lemma string_of_bytes_of (s : string) : string_of_bytes (bytes_of s) = s.
Proof.
  unfold bytes_of, string_of_bytes. rewrite map_map.
  rewrite (map_ext _ (fun c => c)) by (intros; apply tobyte_byteval).
  rewrite map_id. apply string_of_list_ascii_of_string.
Qed.

Lemma list_ascii_of_string_app (a b : string) :
  list_ascii_of_string (a ++ b) = list_ascii_of_string a ++ list_ascii_of_string b.
Proof. induction a as [ | c a IH]; simpl; [reflexivity | now rewrite IH]. Qed.

Lemma bytes_of_app (a b : string) : bytes_of (a ++ b) = bytes_of a ++ bytes_of b.
Proof. unfold bytes_of. rewrite list_ascii_of_string_app. apply map_app. Qed.

Lemma string_of_list_ascii_app (a b : list ascii) :
  string_of_list_ascii (a ++ b)
  = (string_of_list_ascii a ++ string_of_list_ascii b)%string.
Proof. induction a as [ | c a IH]; simpl; [reflexivity | now rewrite IH]. Qed.

Lemma string_of_bytes_app (a b : list Z) :
  string_of_bytes (a ++ b) = (string_of_bytes a ++ string_of_bytes b)%string.
Proof. unfold string_of_bytes. rewrite map_app. apply string_of_list_ascii_app. Qed.

Lemma encoded_range (rs : list Z) :
  Forall utf8.scalar rs -> Forall byte_range (flat_map utf8.encoderune rs).
Proof.
  induction 1 as [ | r rs Hr _ IH]; [constructor | ].
  simpl. apply Forall_app. split; [ | exact IH].
  apply (decode_encode r [] Hr).
Qed.

Lemma stringtoslicerune_scalar (s : string) :
  Forall utf8.scalar (utf8.stringtoslicerune s).
Proof. apply runes_loop_scalar, bytes_of_range. Qed.

Lemma RuneCountInString_length (s : string) :
  utf8.RuneCountInString s = Z.of_nat (List.length (utf8.stringtoslicerune s)).
Proof. unfold utf8.RuneCountInString. rewrite count_loop_length. reflexivity. Qed.

(** Decoding the encoding of scalar values followed by any string. *)
Lemma stringtoslicerune_encoded (rs : list Z) (t : string) :
  Forall utf8.scalar rs ->
  utf8.stringtoslicerune (utf8.slicerunetostring rs ++ t)
  = rs ++ utf8.stringtoslicerune t.
Proof.
  intros Hrs. unfold utf8.stringtoslicerune, utf8.slicerunetostring.
  rewrite bytes_of_app, bytes_of_string_of_bytes by (apply encoded_range; assumption).
  apply runes_loop_encoded; [assumption | apply bytes_of_range | lia].
Qed.

Lemma ellipsis_rune : utf8.stringtoslicerune ellipsis = [0x2026].
Proof. reflexivity. Qed.

Lemma truncated_policy (title : string) :
  maxTitleLength < Z.of_nat (List.length (utf8.stringtoslicerune title)) ->
  title_policy title
    (utf8.slicerunetostring (firstn 90 (utf8.stringtoslicerune title)) ++ ellipsis).
Proof.
  intros H. unfold title_policy.
  destruct (Z.ltb_spec maxTitleLength
              (Z.of_nat (List.length (utf8.stringtoslicerune title)))); [ | lia].
  rewrite stringtoslicerune_encoded, ellipsis_rune; [reflexivity | ].
  apply Forall_firstn, stringtoslicerune_scalar.
Qed.

(** A valid title is cut between two encodings. *)
Lemma truncated_prefix (title : string) :
  valid_utf8 title ->
  exists p q : string,
    title = (p ++ q)%string /\
    (utf8.slicerunetostring (firstn 90 (utf8.stringtoslicerune title)) ++ ellipsis
     = p ++ ellipsis)%string /\
    utf8.stringtoslicerune p = firstn 90 (utf8.stringtoslicerune title).
Proof.
  intros Hv.
  exists (utf8.slicerunetostring (firstn 90 (utf8.stringtoslicerune title))),
         (utf8.slicerunetostring (skipn 90 (utf8.stringtoslicerune title))).
  split; [ | split; [reflexivity | ]].
  - unfold utf8.slicerunetostring. rewrite <- string_of_bytes_app, <- flat_map_app.
    rewrite firstn_skipn. symmetry. exact Hv.
  - pose proof (stringtoslicerune_encoded
                  (firstn 90 (utf8.stringtoslicerune title)) EmptyString
                  (Forall_firstn _ 90 _ (stringtoslicerune_scalar title))) as H.
    replace (utf8.slicerunetostring (firstn 90 (utf8.stringtoslicerune title)) ++ EmptyString)%string
      with (utf8.slicerunetostring (firstn 90 (utf8.stringtoslicerune title))) in H.
    + rewrite H. change (utf8.stringtoslicerune EmptyString) with (@nil Z). apply app_nil_r.
    + generalize (utf8.slicerunetostring (firstn 90 (utf8.stringtoslicerune title))).
      intros s. induction s as [ | c s IH]; simpl; [reflexivity | now rewrite <- IH].
Qed.

(** ** The stages and their runs *)

Section Verification.
Context {L : Libraries}.

Lemma ends_with_failure_app pre evs e :
  clean pre = true -> ends_with_failure evs e -> ends_with_failure (pre ++ evs) e.
Proof.
  intros Hp (p & c & -> & Hc). exists (pre ++ p), c. split.
  - now rewrite app_assoc.
  - unfold clean in *. rewrite forallb_app, Hp, Hc. reflexivity.
Qed.

Lemma ends_with_failure_last pre c e :
  clean pre = true -> ends_with_failure (pre ++ [EvCall c (Some e)]) e.
Proof. intros H. exists pre, c. auto. Qed.

Ltac go :=
  repeat first
    [ progress cbn [bind ret emit call error_of fst snd self trace opts ctx remote
                    get_opts get_ctx get_remote set_opts set_ctx draw panic]
    | progress unfold bind, ret, emit, call, get_opts, get_ctx, get_remote,
        set_opts, set_ctx, draw, panic ].

Lemma resize_spec (buf : slice) (w h : Z) (wd : World) :
  exists r evs,
    resize buf w h wd = (Val r, mkWorld (self wd) (trace wd ++ evs)) /\
    library_only evs = true /\ settled r evs /\
    hd_error evs = Some (EvCall (CallDecodeConfig (contents buf))
                                (error_of (image_DecodeConfig (contents buf)))).
Proof.
  unfold resize. go.
  destruct (image_DecodeConfig (contents buf)) as [[cw ch] | e] eqn:Ecfg; go.
  2:{ exists (Err e), [EvCall (CallDecodeConfig (contents buf)) (Some e)].
      repeat split. apply (ends_with_failure_last []). reflexivity. }
  destruct ((cw =? w) && (ch =? h)) eqn:Esame; go.
  { exists (Ok buf), [EvCall (CallDecodeConfig (contents buf)) None]. repeat split. }
  destruct (vips_NewImageFromBuffer (contents buf)) as [ref | e] eqn:Enew; go.
  2:{ eexists (Err e), _. repeat rewrite <- app_assoc. cbn [app].
      repeat split. apply (ends_with_failure_last [_; _]). reflexivity. }
  destruct (vips_Thumbnail ref w h InterestingAttention) as [ref' | e] eqn:Eth; go.
  2:{ eexists (Err e), _. repeat rewrite <- app_assoc. cbn [app].
      repeat split. apply (ends_with_failure_last [_; _; _]). reflexivity. }
  destruct (vips_Export ref') as [out | e] eqn:Eex; go.
  2:{ eexists (Err e), _. repeat rewrite <- app_assoc. cbn [app].
      repeat split. apply (ends_with_failure_last [_; _; _; _]). reflexivity. }
  eexists (Ok (Some out)), _. repeat rewrite <- app_assoc. cbn [app].
  repeat split.
Qed.

Ltac ewf :=
  first [ apply (ends_with_failure_last [])
        | apply (ends_with_failure_last [_])
        | apply (ends_with_failure_last [_; _])
        | apply (ends_with_failure_last [_; _; _])
        | apply (ends_with_failure_last [_; _; _; _])
        | apply (ends_with_failure_last [_; _; _; _; _])
        | apply (ends_with_failure_last [_; _; _; _; _; _]) ]; reflexivity.

Ltac done_run :=
  eexists _, _; repeat rewrite <- app_assoc; cbn [app];
  repeat split; try reflexivity; try assumption; try ewf.

Lemma scale_spec (buf : slice) (h : Z) (wd : World) :
  exists r evs,
    scale buf h wd = (Val r, mkWorld (self wd) (trace wd ++ evs)) /\
    library_only evs = true /\ settled r evs.
Proof.
  unfold scale. go.
  destruct (image_DecodeConfig (contents buf)) as [[cw ch] | e] eqn:Ecfg; go;
    [ | done_run].
  destruct (ch =? h) eqn:Esame; go; [done_run | ].
  destruct (vips_NewImageFromBuffer (contents buf)) as [ref | e] eqn:Enew; go;
    [ | done_run].
  destruct (vips_Resize ref _ KernelAuto) as [ref' | e] eqn:Ers; go; [ | done_run].
  destruct (vips_Export ref') as [out | e] eqn:Eex; go; done_run.
Qed.

Lemma loadFont_spec (name : string) (points : Q) (wd : World) :
  exists r evs,
    loadFont name points wd = (Val r, mkWorld (self wd) (trace wd ++ evs)) /\
    library_only evs = true /\ settled r evs /\
    fontError name = error_of r.
Proof.
  unfold loadFont, fontError. go.
  destruct (fonts_ReadFile name) as [b1 | e]; go; [ | done_run].
  destruct (truetype_Parse b1) as [f1 | e]; go; [ | done_run].
  destruct (fonts_ReadFile symbolsFont) as [b2 | e]; go; [ | done_run].
  destruct (truetype_Parse b2) as [f2 | e]; go; [ | done_run].
  destruct (fonts_ReadFile emojiFont) as [b3 | e]; go; [ | done_run].
  destruct (truetype_Parse b3) as [f3 | e]; go; done_run.
Qed.

Lemma library_only_inner evs : library_only evs = true -> inner evs = true.
Proof.
  unfold library_only, inner. intros H. rewrite forallb_forall in *.
  intros ev Hev. specialize (H ev Hev). destruct ev; try discriminate; reflexivity.
Qed.

Lemma inner_app a b : inner (a ++ b) = inner a && inner b.
Proof. apply forallb_app. Qed.

Lemma clean_app a b : clean (a ++ b) = clean a && clean b.
Proof. apply forallb_app. Qed.

Lemma ends_with_failure_snoc pre evs c e :
  clean pre = true -> clean evs = true ->
  ends_with_failure (pre ++ evs ++ [EvCall c (Some e)]) e.
Proof.
  intros H1 H2. exists (pre ++ evs), c. split.
  - now rewrite app_assoc.
  - rewrite clean_app, H1, H2. reflexivity.
Qed.

Ltac open_world w Ho Hd :=
  destruct w as [[oo cc rem] tr]; cbn [self opts ctx remote trace] in Ho, Hd |- *;
  subst oo cc.

Ltac use_helper :=
  match goal with
  | |- context [resize ?b ?w ?h ?wd] =>
    let r := fresh "r" in let evs := fresh "evs" in
    let Hrun := fresh "Hrun" in let Hlib := fresh "Hlib" in
    let Hset := fresh "Hset" in let Hhd := fresh "Hhd" in
    destruct (resize_spec b w h wd) as (r & evs & Hrun & Hlib & Hset & Hhd);
    rewrite Hrun; clear Hrun; cbn [self trace] in *; destruct r
  | |- context [scale ?b ?h ?wd] =>
    let r := fresh "r" in let evs := fresh "evs" in
    let Hrun := fresh "Hrun" in let Hlib := fresh "Hlib" in
    let Hset := fresh "Hset" in
    destruct (scale_spec b h wd) as (r & evs & Hrun & Hlib & Hset);
    rewrite Hrun; clear Hrun; cbn [self trace] in *; destruct r
  | |- context [loadFont ?n ?p ?wd] =>
    let r := fresh "r" in let evs := fresh "evs" in
    let Hrun := fresh "Hrun" in let Hlib := fresh "Hlib" in
    let Hset := fresh "Hset" in let Hfe := fresh "Hfe" in
    destruct (loadFont_spec n p wd) as (r & evs & Hrun & Hlib & Hset & Hfe);
    rewrite Hrun; clear Hrun; cbn [self trace] in *; destruct r
  end.

Ltac lists :=
  repeat rewrite <- app_assoc; cbn [app].

Ltac crunch :=
  repeat first
    [ rewrite forallb_app
    | match goal with
      | H : forallb ?f ?e = true |- context [forallb ?f ?e] => rewrite H
      end
    | progress cbn [forallb is_enter is_index negb andb call_failed] ];
  reflexivity.

Ltac solve_inner :=
  repeat match goal with
  | H : library_only ?e = true |- _ => apply library_only_inner in H; unfold inner in H
  end;
  unfold inner; crunch.

Ltac solve_clean :=
  repeat match goal with
  | H : settled (Ok _) ?e |- _ => unfold settled, clean in H
  end;
  unfold clean; crunch.

Ltac props :=
  repeat match goal with
  | |- _ /\ _ => split
  | |- inner _ = true => solve_inner
  | |- clean _ = true => solve_clean
  end.

Lemma drawForeground_spec : stage_spec ForegroundStage drawForeground.
Proof.
  intros w o dc Ho Hd. open_world w Ho Hd.
  unfold drawForeground. go. exists None. do 2 eexists. lists.
  split; [reflexivity | ]. props.
Qed.

Lemma drawBackground_spec bgBuf col : stage_spec BackgroundStage (drawBackground bgBuf col).
Proof.
  intros w o dc Ho Hd. open_world w Ho Hd.
  unfold drawBackground. destruct bgBuf as [b | ]; go.
  - use_helper; go.
    + destruct (image_Decode (contents v)) as [img | e] eqn:Edec; go.
      * exists None. do 2 eexists. lists. split; [reflexivity | ]. props.
      * eexists (Some _). do 2 eexists. lists. split; [reflexivity | ]. props.
        do 2 eexists. split; [reflexivity | ]. split; [cbn; auto | ].
        apply (ends_with_failure_snoc evs [] _ e); [exact Hset | reflexivity].
    + eexists (Some _). do 2 eexists. lists. split; [reflexivity | ]. props.
      do 2 eexists. split; [reflexivity | ]. split; [cbn; auto | ].
      exact Hset.
  - exists None. do 2 eexists. lists. split; [reflexivity | ]. props.
Qed.

Ltac stage_ok := exists None; do 2 eexists; lists; split; [reflexivity | ]; props.

Ltac stage_err tac :=
  eexists (Some _); do 2 eexists; lists; split; [reflexivity | ]; props;
  do 2 eexists; split; [reflexivity | ]; split; [cbn; auto | ]; tac.

Lemma drawAvatar_spec avaBuf : stage_spec AvatarStage (drawAvatar avaBuf).
Proof.
  intros w o dc Ho Hd. open_world w Ho Hd.
  unfold drawAvatar, circle. go. use_helper; go.
  - destruct (image_Decode (contents v)) as [img | e] eqn:Edec; go.
    + stage_ok.
    + stage_err ltac:(apply (ends_with_failure_snoc [_; _; _] evs _ e);
                      [reflexivity | exact Hset]).
  - stage_err ltac:(apply (ends_with_failure_app [_; _; _]); [reflexivity | exact Hset]).
Qed.

Lemma drawLogo_spec logoBuf : stage_spec LogoStage (drawLogo logoBuf).
Proof.
  intros w o dc Ho Hd. open_world w Ho Hd.
  unfold drawLogo. go. use_helper; go.
  - destruct (image_Decode (contents v)) as [img | e] eqn:Edec; go.
    + stage_ok.
    + stage_err ltac:(apply (ends_with_failure_snoc evs [] _ e);
                      [exact Hset | reflexivity]).
  - stage_err ltac:(exact Hset).
Qed.

Lemma drawAuthor_spec : stage_spec AuthorStage drawAuthor.
Proof.
  intros w o dc Ho Hd. open_world w Ho Hd.
  unfold drawAuthor. go. use_helper; go.
  - stage_ok.
  - stage_err ltac:(exact Hset).
Qed.

Lemma slice_to_runes (title : string) (w : World) :
  (maxTitleLength <? utf8.RuneCountInString title) = true ->
  slice_to (utf8.stringtoslicerune title) maxTitleLength w
  = (Val (firstn 90 (utf8.stringtoslicerune title)), w).
Proof.
  intros H. apply Z.ltb_lt in H. rewrite RuneCountInString_length in H.
  unfold slice_to.
  destruct (Z.leb_spec maxTitleLength
              (Z.of_nat (List.length (utf8.stringtoslicerune title)))); [ | lia].
  reflexivity.
Qed.

Lemma drawTitle_spec : stage_spec TitleStage drawTitle.
Proof.
  intros w o dc Ho Hd. open_world w Ho Hd.
  unfold drawTitle. go. use_helper; go.
  - destruct (maxTitleLength <? utf8.RuneCountInString (Title o)) eqn:E; go.
    + rewrite slice_to_runes by exact E. go. stage_ok.
    + stage_ok.
  - stage_err ltac:(exact Hset).
Qed.

(** The font table does not depend on the size asked for: what
    [loadFont] returns for the author decides what it returns for the
    title. *)
Lemma drawAuthor_fonts (w : World) (o : Options) (dc : gg.Context) :
  opts (self w) = Some o -> ctx (self w) = Some dc ->
  fst (drawAuthor w) = Val None -> fontError textFont = None.
Proof.
  intros Ho Hd. open_world w Ho Hd.
  unfold drawAuthor. go. use_helper; go.
  - intros _. exact Hfe.
  - discriminate.
Qed.

Lemma drawTitle_fonts (w : World) (o : Options) (dc : gg.Context) :
  opts (self w) = Some o -> ctx (self w) = Some dc ->
  fontError textFont = None -> fst (drawTitle w) = Val None.
Proof.
  intros Ho Hd. open_world w Ho Hd.
  unfold drawTitle. go. use_helper; go.
  - intros _. destruct (maxTitleLength <? utf8.RuneCountInString (Title o)) eqn:E; go.
    + rewrite slice_to_runes by exact E. reflexivity.
    + reflexivity.
  - intros H. rewrite H in Hfe. discriminate.
Qed.

Ltac use_stage lem o dc :=
  match goal with
  | |- context [drawBackground ?b ?c ?wd] =>
    destruct (drawBackground_spec b c wd o dc eq_refl eq_refl)
      as (?r & ?dcn & ?evs & ?Hrun & ?Hin & ?Hres)
  | |- context [drawAvatar ?b ?wd] =>
    destruct (drawAvatar_spec b wd o dc eq_refl eq_refl)
      as (?r & ?dcn & ?evs & ?Hrun & ?Hin & ?Hres)
  | |- context [drawLogo ?b ?wd] =>
    destruct (drawLogo_spec b wd o dc eq_refl eq_refl)
      as (?r & ?dcn & ?evs & ?Hrun & ?Hin & ?Hres)
  | |- context [drawForeground ?wd] =>
    destruct (drawForeground_spec wd o dc eq_refl eq_refl)
      as (?r & ?dcn & ?evs & ?Hrun & ?Hin & ?Hres)
  | |- context [drawAuthor ?wd] =>
    destruct (drawAuthor_spec wd o dc eq_refl eq_refl)
      as (?r & ?dcn & ?evs & ?Hrun & ?Hin & ?Hres)
  | |- context [drawTitle ?wd] =>
    destruct (drawTitle_spec wd o dc eq_refl eq_refl)
      as (?r & ?dcn & ?evs & ?Hrun & ?Hin & ?Hres)
  end.

(** [Draw] up to the fetch, and what follows it. *)
Lemma Draw_fetch_failed (o : Options) (w : World) (e : error) :
  GetAll (remote (self w)) (urlsOrPaths o) = Err e ->
  Draw o w
  = (Val (None, Some (Errorf "could not get an image" e)),
     mkWorld (mkPreview (Some o) (Some (gg.NewContext (CanvasW o) (CanvasH o)))
                        (remote (self w)))
             (trace w ++ [EvCall (CallGetAll (urlsOrPaths o)) (Some e)])).
Proof.
  intros H. destruct w as [[oo cc rem] tr]. cbn [self remote] in H.
  unfold Draw. go. rewrite H. reflexivity.
Qed.

Lemma pipeline_last bufs oi st evs img :
  readable bufs oi -> inner evs = true -> clean evs = true ->
  pipeline bufs [(oi, st)] (Val (Some img, None)) (read_events oi ++ EvEnter st :: evs).
Proof.
  intros H1 H2 H3.
  replace (read_events oi ++ EvEnter st :: evs)
    with (read_events oi ++ EvEnter st :: evs ++ []) by now rewrite app_nil_r.
  apply pipeline_next; try assumption. constructor.
Qed.

Ltac next_stage o :=
  match goal with
  | |- context [mkPreview (Some o) (Some ?dc) _] => use_stage tt o dc
  end;
  match goal with
  | Hrun : _ = (Val ?r, _) |- _ =>
    rewrite Hrun; cbn [self opts ctx remote trace]; destruct r;
    [ match goal with
      | Hres : exists _ _, _ |- _ =>
        let msg := fresh "msg" in let cause := fresh "cause" in
        let Hmsg := fresh "Hmsg" in let Hewf := fresh "Hewf" in
        destruct Hres as (msg & cause & -> & Hmsg & Hewf)
      end | ]
  end.

Ltac read_buf i :=
  match goal with
  | |- context [nth_error ?bufs i] =>
    let E := fresh "Ebuf" in destruct (nth_error bufs i) eqn:E; cbv beta iota; go
  end.

Ltac side :=
  first [ exact I | unfold readable; congruence | assumption | discriminate ].

Ltac pipe :=
  lazymatch goal with
  | |- pipeline ?b ((None, ?st) :: ?rest) _ (_ :: ?l ++ _) =>
    eapply (pipeline_next b None st rest l); [side | side | side | pipe]
  | |- pipeline ?b ((Some ?i, ?st) :: ?rest) _ (_ :: _ :: ?l ++ _) =>
    eapply (pipeline_next b (Some i) st rest l); [side | side | side | pipe]
  | |- pipeline ?b ((Some ?i, ?st) :: ?rest) Panic _ =>
    apply (pipeline_panic b i st rest); assumption
  | |- pipeline ?b ((?oi, ?st) :: ?rest) (Val (None, Some _)) _ =>
    eapply (pipeline_fail b oi st rest); side
  | |- pipeline ?b [(?oi, ?st)] (Val (Some _, None)) _ =>
    apply (pipeline_last b oi st); side
  end.

Ltac leaf :=
  do 3 eexists; split; [reflexivity | ]; cbn [trace]; lists;
  split; [reflexivity | ]; pipe.

Lemma Draw_fetched (o : Options) (w : World) (bufs : list slice) :
  GetAll (remote (self w)) (urlsOrPaths o) = Ok bufs ->
  exists out w' evs,
    Draw o w = (out, w') /\
    trace w' = trace w ++ EvCall (CallGetAll (urlsOrPaths o)) None :: evs /\
    pipeline bufs (plan o) out evs.
Proof.
  intros H. destruct w as [[oo cc rem] tr]. cbn [self remote] in H.
  unfold Draw, plan, isBgHEX, index. go. rewrite H. go.
  destruct (hexRe_Match (Bg o) || String.eqb (Bg o) EmptyString) eqn:Ebg; go.
  2: read_buf 2%nat; [ | leaf ].
  all: next_stage o; [leaf | ].
  all: next_stage o; [destruct Hmsg | ].
  all: read_buf 0%nat; [ | leaf ].
  all: next_stage o; [leaf | ].
  all: next_stage o; [leaf | ].
  all: match goal with
       | Ha : drawAuthor ?wd = _ |- _ =>
         pose proof (drawAuthor_fonts wd o _ eq_refl eq_refl (f_equal fst Ha))
           as Hfonts
       end.
  all: next_stage o;
    [ exfalso;
      match goal with
      | Ht : drawTitle ?wd = _ |- _ =>
        pose proof (drawTitle_fonts wd o _ eq_refl eq_refl Hfonts) as Hok;
        rewrite Ht in Hok; discriminate Hok
      end | ].
  all: read_buf 1%nat; [ | leaf ].
  all: next_stage o; leaf.
Qed.

(** *** Traces *)

Lemma stages_of_app a b : stages_of (a ++ b) = stages_of a ++ stages_of b.
Proof. apply flat_map_app. Qed.

Lemma indices_of_app a b : indices_of (a ++ b) = indices_of a ++ indices_of b.
Proof. apply flat_map_app. Qed.

Lemma inner_quiet evs : inner evs = true -> stages_of evs = [] /\ indices_of evs = [].
Proof.
  induction evs as [ | ev evs IH]; [auto | ].
  unfold inner. cbn [forallb]. intros H. apply andb_true_iff in H. destruct H as [H1 H2].
  destruct (IH H2) as [IH1 IH2].
  destruct ev; try discriminate; cbn; auto.
Qed.

Lemma read_events_facts oi :
  stages_of (read_events oi) = [] /\ clean (read_events oi) = true /\
  indices_of (read_events oi)
  = match oi with Some i => [Z.of_nat i] | None => [] end.
Proof. destruct oi; cbn; auto. Qed.

(** *** Runs that end in an error *)

Lemma pipeline_error bufs pl out evs :
  pipeline bufs pl out evs ->
  forall img e, out = Val (img, Some e) ->
    img = None /\
    exists msg cause pre c n st,
      e = Errorf msg cause /\
      evs = pre ++ [EvCall c (Some cause)] /\
      clean pre = true /\
      stages_of pre = firstn (S n) (map snd pl) /\
      nth_error (map snd pl) n = Some st /\
      In msg (messages st) /\ st <> TitleStage.
Proof.
  induction 1 as [ img0 | i st rest Hi | oi st rest evs msg cause Hr Hin Hewf Hmsg Hst
                 | oi st rest evs out evs' Hr Hin Hcl Hp IH ];
    intros img e Hout; try discriminate.
  - injection Hout as <- <-. split; [reflexivity | ].
    destruct Hewf as (p & c & -> & Hp).
    exists msg, cause, (read_events oi ++ EvEnter st :: p), c, 0%nat, st.
    destruct (read_events_facts oi) as (Hs & Hc & _).
    rewrite inner_app in Hin. apply andb_true_iff in Hin. destruct Hin as [Hin _].
    destruct (inner_quiet p Hin) as [Hq _].
    repeat split; try assumption.
    + now rewrite <- app_assoc.
    + rewrite clean_app, Hc. cbn. exact Hp.
    + rewrite stages_of_app, Hs. cbn [app].
      change (stages_of (EvEnter st :: p)) with (st :: stages_of p).
      now rewrite Hq.
  - destruct (IH img e Hout) as (-> & msg & cause & pre & c & n & st' & -> & -> & Hc & Hs & Hn & Hm & Ht).
    split; [reflexivity | ].
    exists msg, cause, (read_events oi ++ EvEnter st :: evs ++ pre), c, (S n), st'.
    destruct (read_events_facts oi) as (Hs0 & Hc0 & _).
    destruct (inner_quiet evs Hin) as [Hq _].
    repeat split; try assumption.
    + rewrite <- !app_assoc. cbn [app]. now rewrite <- !app_assoc.
    + rewrite clean_app, Hc0. cbn. unfold clean in *. rewrite forallb_app, Hcl, Hc.
      reflexivity.
    + rewrite stages_of_app, Hs0. cbn [app].
      change (stages_of (EvEnter st :: evs ++ pre)) with (st :: stages_of (evs ++ pre)).
      rewrite stages_of_app, Hq, Hs. reflexivity.
Qed.

Lemma message_names_stage st msg :
  In msg (messages st) -> st <> TitleStage -> stage_of_message msg = Some st.
Proof.
  destruct st; cbn; intros H Hn;
    repeat (destruct H as [<- | H]; [reflexivity | ]); try contradiction.
Qed.

Lemma pipeline_reads bufs pl out evs :
  pipeline bufs pl out evs ->
  forall i, In i (indices_of evs) -> In i (map Z.of_nat (planned pl)).
Proof.
  induction 1 as [ img0 | i0 st rest Hi | oi st rest evs msg cause Hr Hin Hewf Hmsg Hst
                 | oi st rest evs out evs' Hr Hin Hcl Hp IH ]; intros i Hi'.
  - contradiction.
  - cbn in Hi' |- *. tauto.
  - rewrite indices_of_app in Hi'.
    destruct (read_events_facts oi) as (_ & _ & Hidx). rewrite Hidx in Hi'.
    change (indices_of (EvEnter st :: evs)) with (indices_of evs) in Hi'.
    destruct (inner_quiet evs Hin) as [_ Hq]. rewrite Hq, app_nil_r in Hi'.
    unfold planned. cbn [flat_map fst]. rewrite map_app. apply in_or_app. left.
    destruct oi; [exact Hi' | contradiction].
  - rewrite indices_of_app in Hi'.
    destruct (read_events_facts oi) as (_ & _ & Hidx). rewrite Hidx in Hi'.
    change (indices_of (EvEnter st :: evs ++ evs')) with (indices_of (evs ++ evs')) in Hi'.
    rewrite indices_of_app in Hi'.
    destruct (inner_quiet evs Hin) as [_ Hq]. rewrite Hq in Hi'. cbn [app] in Hi'.
    unfold planned. cbn [flat_map fst]. rewrite map_app. apply in_or_app.
    apply in_app_or in Hi'. destruct Hi' as [Hi' | Hi'].
    + left. destruct oi; [exact Hi' | contradiction].
    + right. apply IH. exact Hi'.
Qed.

Lemma pipeline_no_panic bufs pl out evs :
  pipeline bufs pl out evs ->
  (forall i, In i (planned pl) -> nth_error bufs i <> None) ->
  out <> Panic.
Proof.
  induction 1 as [ img0 | i0 st rest Hi | oi st rest evs msg cause Hr Hin Hewf Hmsg Hst
                 | oi st rest evs out evs' Hr Hin Hcl Hp IH ]; intros Hall.
  - discriminate.
  - exfalso. apply (Hall i0); [cbn; auto | exact Hi].
  - discriminate.
  - apply IH. intros i Hi. apply Hall. unfold planned. cbn [flat_map].
    apply in_or_app. right. exact Hi.
Qed.

Lemma pipeline_first_read bufs i st rest out evs :
  pipeline bufs ((Some i, st) :: rest) out evs -> In (Z.of_nat i) (indices_of evs).
Proof. intros H. inversion H; subst; cbn; auto. Qed.

(** A run in which no call failed. *)
Lemma pipeline_clean bufs pl out evs :
  pipeline bufs pl out evs ->
  (forall img e, out <> Val (img, Some e)) -> clean evs = true.
Proof.
  induction 1 as [ img0 | i st rest Hi | oi st rest evs msg cause Hr Hin Hewf Hmsg Hst
                 | oi st rest evs out evs' Hr Hin Hcl Hp IH ]; intros Hout.
  - reflexivity.
  - reflexivity.
  - exfalso. apply (Hout None (Errorf msg cause)). reflexivity.
  - destruct (read_events_facts oi) as (_ & Hc & _).
    rewrite clean_app, Hc. cbn [andb].
    change (clean (EvEnter st :: evs ++ evs')) with (clean (evs ++ evs')).
    rewrite clean_app, Hcl. cbn [andb]. apply IH. exact Hout.
Qed.

Lemma outcome_cases (out : outcome (option image_Image * option error)) :
  (forall img e, out <> Val (img, Some e)) \/ (exists img e, out = Val (img, Some e)).
Proof.
  destruct out as [[img [e | ]] | ].
  - right. exists img, e. reflexivity.
  - left. intros img' e'. discriminate.
  - left. intros img' e'. discriminate.
Qed.

(** C2.  A run of [Draw] adds events to the trace, and there are two
    cases.  Either no library call of the run failed, and [Draw]
    returns no error.  Or the run ends at a library call that
    failed, the only one that did, so that nothing ran after it:
    [Draw] returns no image and the error [Errorf msg cause], where
    [cause] is the error of that call; the failed call is the fetch,
    with the message of the fetch and no stage entered, or else the
    stages entered are the first [n + 1] of the six, in order, and
    the message names the last of them, the one that failed. *)
Theorem Draw_error_wraps_cause (o : Options) (w : World) :
  exists evs,
    trace (snd (Draw o w)) = trace w ++ evs /\
    ((clean evs = true /\ forall img e, fst (Draw o w) <> Val (img, Some e)) \/
     (exists msg cause pre c,
        fst (Draw o w) = Val (None, Some (Errorf msg cause)) /\
        evs = pre ++ [EvCall c (Some cause)] /\
        clean pre = true /\
        ((c = CallGetAll (urlsOrPaths o) /\ msg = "could not get an image"%string /\
          stages_of pre = []) \/
         (exists n st,
            stages_of pre = firstn (S n) stage_order /\
            nth_error stage_order n = Some st /\
            stage_of_message msg = Some st)))).
Proof.
  destruct (GetAll (remote (self w)) (urlsOrPaths o)) as [bufs | e0] eqn:Hget.
  - destruct (Draw_fetched o w bufs Hget) as (out & w' & evs & Hd & Htr & Hp).
    rewrite Hd. cbn [fst snd].
    exists (EvCall (CallGetAll (urlsOrPaths o)) None :: evs).
    split; [exact Htr | ].
    destruct (outcome_cases out) as [Hno | (img & e & ->)].
    + left. split; [ | exact Hno].
      change (clean (EvCall (CallGetAll (urlsOrPaths o)) None :: evs)) with (clean evs).
      apply (pipeline_clean _ _ _ _ Hp Hno).
    + right.
      destruct (pipeline_error _ _ _ _ Hp img e eq_refl)
        as (-> & msg & cause & pre & c & n & st & -> & -> & Hc & Hs & Hn & Hm & Ht).
      exists msg, cause, (EvCall (CallGetAll (urlsOrPaths o)) None :: pre), c.
      split; [reflexivity | ]. split; [reflexivity | ]. split; [exact Hc | ].
      right. exists n, st. split; [exact Hs | ]. split; [exact Hn | ].
      apply message_names_stage; assumption.
  - rewrite (Draw_fetch_failed o w e0 Hget). cbn [fst snd trace].
    exists [EvCall (CallGetAll (urlsOrPaths o)) (Some e0)].
    split; [reflexivity | ]. right.
    exists "could not get an image"%string, e0, [], (CallGetAll (urlsOrPaths o)).
    repeat split. left. repeat split.
Qed.

(** C10.  [Draw] requests the avatar and the logo, and the
    background as a third identifier exactly when it is neither a hex
    colour nor empty.  The fetch is the first event of the run; when
    it fails nothing else happens.  When the resolver returns as many
    buffers as it was given identifiers, every index that [Draw]
    uses is within the buffers returned, index 2 is used exactly
    when the background was requested, and [Draw] does not panic. *)
Theorem Draw_reads_in_bounds (o : Options) (w : World) :
  same_length (remote (self w)) ->
  let third := negb (hexRe_Match (Bg o)) && negb (String.eqb (Bg o) EmptyString) in
  urlsOrPaths o = [AvaURL o; LogoURL o] ++ (if third then [Bg o] else []) /\
  (exists r evs,
     trace (snd (Draw o w))
     = trace w ++ EvCall (CallGetAll (urlsOrPaths o)) r :: evs /\
     r = error_of (GetAll (remote (self w)) (urlsOrPaths o)) /\
     (r <> None -> evs = []) /\
     (forall bufs, GetAll (remote (self w)) (urlsOrPaths o) = Ok bufs ->
        (forall i, In i (indices_of evs) -> 0 <= i < Z.of_nat (List.length bufs)) /\
        (In 2 (indices_of evs) <-> third = true))) /\
  fst (Draw o w) <> Panic.
Proof.
  intros Hlen third.
  assert (Hids : urlsOrPaths o
                 = [AvaURL o; LogoURL o] ++ (if third then [Bg o] else [])).
  { unfold urlsOrPaths, isBgHEX, third.
    destruct (hexRe_Match (Bg o)); [reflexivity | ].
    destruct (String.eqb (Bg o) EmptyString); reflexivity. }
  split; [exact Hids | ].
  destruct (GetAll (remote (self w)) (urlsOrPaths o)) as [bufs | e0] eqn:Hget.
  - destruct (Draw_fetched o w bufs Hget) as (out & w' & evs & Hd & Htr & Hp).
    rewrite Hd. cbn [fst snd].
    pose proof (Hlen _ _ Hget) as Hn. rewrite Hids, length_app in Hn.
    assert (Hplan : planned (plan o) = (if third then [2%nat] else []) ++ [0%nat; 1%nat]).
    { unfold planned, plan, third. cbn [flat_map fst].
      destruct (hexRe_Match (Bg o)); [reflexivity | ].
      destruct (String.eqb (Bg o) EmptyString); reflexivity. }
    assert (Hin : forall i, In i (planned (plan o)) -> (i < List.length bufs)%nat).
    { intros i Hi. rewrite Hplan in Hi. rewrite Hn.
      destruct third; cbn in Hi |- *; lia. }
    split.
    + exists None, evs. split; [exact Htr | ]. split; [reflexivity | ].
      split; [congruence | ].
      intros bufs' Hb. injection Hb as <-. split.
      * intros i Hi. apply (pipeline_reads _ _ _ _ Hp) in Hi.
        apply in_map_iff in Hi. destruct Hi as (k & <- & Hk).
        apply Hin in Hk. lia.
      * split.
        -- intros H2. apply (pipeline_reads _ _ _ _ Hp) in H2.
           apply in_map_iff in H2. destruct H2 as (k & Hk2 & Hk).
           rewrite Hplan in Hk. destruct third; [reflexivity | ].
           cbn in Hk. lia.
        -- intros Ht. unfold third in Ht.
           apply (pipeline_first_read bufs 2 BackgroundStage (tl (plan o)) out).
           replace ((Some 2%nat, BackgroundStage) :: tl (plan o)) with (plan o); [exact Hp | ].
           unfold plan. cbn [tl].
           destruct (hexRe_Match (Bg o)); [discriminate | ].
           destruct (String.eqb (Bg o) EmptyString); [discriminate | reflexivity].
    + apply (pipeline_no_panic _ _ _ _ Hp). intros i Hi.
      apply Hin in Hi. apply nth_error_Some. exact Hi.
  - rewrite (Draw_fetch_failed o w e0 Hget). cbn [fst snd trace]. split.
    + exists (Some e0), []. repeat split; intros; discriminate.
    + discriminate.
Qed.

(** ** Determinism *)

Section Stable.
Variable ids : list string.

Lemma stable_ret {A} (a : A) : stable ids (ret a).
Proof. intros w1 w2 H. split; [reflexivity | exact H]. Qed.

Lemma stable_panic {A} : stable ids (@panic A).
Proof. intros w1 w2 H. split; [reflexivity | exact H]. Qed.

Lemma stable_bind {A B} (c : M A) (k : A -> M B) :
  stable ids c -> (forall a, stable ids (k a)) -> stable ids (bind c k).
Proof.
  intros Hc Hk w1 w2 H. unfold bind.
  destruct (Hc w1 w2 H) as [Hf Ha].
  destruct (c w1) as [[a1 | ] w1'], (c w2) as [[a2 | ] w2']; cbn [fst snd] in *;
    try discriminate.
  - injection Hf as <-. apply Hk. exact Ha.
  - split; [reflexivity | exact Ha].
Qed.

Lemma stable_emit ev : stable ids (emit ev).
Proof. intros w1 w2 H. split; [reflexivity | exact H]. Qed.

Lemma stable_call {T} c (r : result T) : stable ids (call c r).
Proof. unfold call. apply stable_bind; [apply stable_emit | intros; apply stable_ret]. Qed.

Lemma stable_get_opts : stable ids get_opts.
Proof.
  intros w1 w2 H. pose proof H as (Ho & _). unfold get_opts. rewrite Ho.
  destruct (opts (self w2)); (split; [reflexivity | exact H]).
Qed.

Lemma stable_get_ctx : stable ids get_ctx.
Proof.
  intros w1 w2 H. pose proof H as (_ & Hc & _). unfold get_ctx. rewrite Hc.
  destruct (ctx (self w2)); (split; [reflexivity | exact H]).
Qed.

Lemma stable_set_ctx dc : stable ids (set_ctx dc).
Proof.
  intros w1 w2 (Ho & Hc & Hf). split; [reflexivity | ].
  repeat split; cbn; assumption.
Qed.

Lemma stable_draw c : stable ids (draw c).
Proof.
  unfold draw. apply stable_bind; [apply stable_get_ctx | intros dc].
  apply stable_bind; [apply stable_emit | intros _]. apply stable_set_ctx.
Qed.

Lemma stable_if {A} (b : bool) (c1 c2 : M A) :
  stable ids c1 -> stable ids c2 -> stable ids (if b then c1 else c2).
Proof. destruct b; auto. Qed.

Ltac stab :=
  repeat first
    [ apply stable_ret | apply stable_panic | apply stable_emit | apply stable_call
    | apply stable_get_opts | apply stable_get_ctx | apply stable_set_ctx
    | apply stable_draw
    | apply stable_bind; [ | intros ? ]
    | match goal with
      | |- stable _ (match ?x with _ => _ end) => destruct x
      end ].

Lemma stable_resize buf w h : stable ids (resize buf w h).
Proof. unfold resize. stab. Qed.

Lemma stable_scale buf h : stable ids (scale buf h).
Proof. unfold scale. stab. Qed.

Lemma stable_loadFont name points : stable ids (loadFont name points).
Proof. unfold loadFont. stab. Qed.

Lemma stable_circle src : stable ids (circle src).
Proof. unfold circle. stab. Qed.

Lemma stable_index bufs i : stable ids (index bufs i).
Proof. unfold index. stab. Qed.

Ltac stab2 :=
  repeat first
    [ apply stable_resize | apply stable_scale | apply stable_loadFont
    | apply stable_circle | apply stable_index
    | apply stable_ret | apply stable_panic | apply stable_emit | apply stable_call
    | apply stable_get_opts | apply stable_get_ctx | apply stable_set_ctx
    | apply stable_draw
    | apply stable_bind; [ | intros ? ]
    | match goal with
      | |- stable _ (match ?x with _ => _ end) => destruct x
      end ].

Lemma stable_drawBackground b c : stable ids (drawBackground b c).
Proof. unfold drawBackground. stab2. Qed.

Lemma stable_drawForeground : stable ids drawForeground.
Proof. unfold drawForeground. stab2. Qed.

Lemma stable_drawAvatar b : stable ids (drawAvatar b).
Proof. unfold drawAvatar. stab2. Qed.

Lemma stable_drawAuthor : stable ids drawAuthor.
Proof. unfold drawAuthor. stab2. Qed.

Lemma stable_drawTitle : stable ids drawTitle.
Proof. unfold drawTitle, slice_to. stab2. Qed.

Lemma stable_drawLogo b : stable ids (drawLogo b).
Proof. unfold drawLogo. stab2. Qed.

End Stable.

(** The start of [Draw] makes any two worlds agree. *)
Lemma fetch_deterministic {B} (o : Options) (dc : gg.Context)
    (K : Options -> result (list slice) -> M B) (w1 w2 : World) :
  (forall o' r, stable (urlsOrPaths o) (K o' r)) ->
  same_fetch (urlsOrPaths o) w1 w2 ->
  fst ((set_opts o ;; set_ctx dc ;; o' <- get_opts ;; r <- get_remote ;;
        imgBufs <- call (CallGetAll (urlsOrPaths o')) (GetAll r (urlsOrPaths o')) ;;
        K o' imgBufs) w1)
  = fst ((set_opts o ;; set_ctx dc ;; o' <- get_opts ;; r <- get_remote ;;
          imgBufs <- call (CallGetAll (urlsOrPaths o')) (GetAll r (urlsOrPaths o')) ;;
          K o' imgBufs) w2).
Proof.
  intros HK Hf. destruct w1 as [[o1 c1 r1] t1], w2 as [[o2 c2 r2] t2].
  unfold same_fetch in Hf. cbn [self remote] in Hf.
  unfold bind, set_opts, set_ctx, get_opts, get_remote, call, emit, ret.
  cbn [self opts ctx remote trace]. rewrite Hf.
  apply HK. repeat split. cbn [self remote]. exact Hf.
Qed.

(** C9.  [Draw] is deterministic: two calls with the same options,
    whose resolvers return the same buffers for the identifiers that
    [Draw] requests, return the same image and the same error,
    whatever state the two receivers were in before. *)
Theorem Draw_deterministic (o : Options) (w1 w2 : World) :
  GetAll (remote (self w1)) (urlsOrPaths o)
  = GetAll (remote (self w2)) (urlsOrPaths o) ->
  fst (Draw o w1) = fst (Draw o w2).
Proof.
  intros Hf. unfold Draw.
  match goal with
  | |- fst (bind _ (fun _ => bind _ (fun _ => bind _ (fun o' => bind _ (fun r =>
         bind _ (@?K o'))))) _) = _ =>
    apply (fetch_deterministic o _ (fun o' imgBufs => K o' imgBufs) w1 w2)
  end; [ | exact Hf].
  intros o' r. destruct r as [imgBufs | e]; [ | apply stable_ret].
  repeat lazymatch goal with
  | |- stable _ (drawBackground _ _) => apply stable_drawBackground
  | |- stable _ drawForeground => apply stable_drawForeground
  | |- stable _ (drawAvatar _) => apply stable_drawAvatar
  | |- stable _ drawAuthor => apply stable_drawAuthor
  | |- stable _ drawTitle => apply stable_drawTitle
  | |- stable _ (drawLogo _) => apply stable_drawLogo
  | |- stable _ (index _ _) => apply stable_index
  | |- stable _ (ret _) => apply stable_ret
  | |- stable _ get_ctx => apply stable_get_ctx
  | |- stable _ (bind _ _) => apply stable_bind; [ | intros ? ]
  | |- stable _ (match ?x with _ => _ end) => destruct x
  end.
Qed.

Lemma library_only_no_text evs : library_only evs = true -> no_text evs = true.
Proof.
  unfold library_only, no_text. intros H. rewrite forallb_forall in *.
  intros ev Hev. specialize (H ev Hev). destruct ev; try discriminate; reflexivity.
Qed.

(** C1.  [drawTitle] applies the truncation policy before it wraps
    the title.  With the options and the canvas set, the stage
    returns, and it returns an error only when the font cannot be
    loaded: the error then wraps the cause of that failure.
    Otherwise the only text it draws is the last event of its run, a
    [DrawStringWrapped] of a string [drawn] at ([padding],
    [2 * padding + AvaD]) over the width
    [CanvasW - padding - 2 * margin].  When the title has more than
    90 codepoints, the codepoints of [drawn] are the first 90
    codepoints of the title followed by the single codepoint U+2026;
    otherwise [drawn] is the title, unchanged.  Counting and slicing
    are over codepoints, never bytes: for a title that is valid UTF-8
    and longer than 90 codepoints, [drawn] is a prefix [p] of the
    title that ends between two codepoints, followed by the
    ellipsis. *)
Theorem drawTitle_truncates (w : World) (o : Options) (dc : gg.Context) :
  opts (self w) = Some o -> ctx (self w) = Some dc ->
  exists r w' pre,
    drawTitle w = (Val r, w') /\ no_text pre = true /\
    (fontError textFont = None -> r = None) /\
    match r with
    | Some e =>
      trace w' = trace w ++ pre /\
      exists cause,
        fontError textFont = Some cause /\
        e = Errorf "could not load a font face" cause
    | None =>
      exists drawn,
        trace w'
        = trace w ++ pre ++
          [EvDraw (gg.DrawStringWrapped drawn (float64 padding)
                     (float64 padding * 2 + float64 (AvaD o))%Q 0 0
                     (float64 (CanvasW o) - float64 padding - float64 margin * 2)%Q
                     (12 # 10) gg.AlignLeft)] /\
        title_policy (Title o) drawn /\
        (valid_utf8 (Title o) ->
         maxTitleLength < Z.of_nat (List.length (utf8.stringtoslicerune (Title o))) ->
         exists p q : string,
           Title o = (p ++ q)%string /\ drawn = (p ++ ellipsis)%string /\
           utf8.stringtoslicerune p = firstn 90 (utf8.stringtoslicerune (Title o)))
    end.
Proof.
  intros Ho Hd. destruct w as [[oo cc rem] tr].
  cbn [self opts ctx remote trace] in Ho, Hd |- *. subst oo cc.
  unfold drawTitle. go.
  destruct (loadFont_spec textFont (TitleSize o)
              (mkWorld (mkPreview (Some o) (Some dc) rem) (tr ++ [EvEnter TitleStage])))
    as (r & evs & Hrun & Hlib & Hset & Hfe).
  rewrite Hrun. clear Hrun. cbn [self trace opts ctx remote].
  apply library_only_no_text in Hlib.
  destruct r as [font | e]; go.
  - destruct (maxTitleLength <? utf8.RuneCountInString (Title o)) eqn:E; go.
    + rewrite slice_to_runes by exact E. go.
      exists None. eexists. exists (EvEnter TitleStage :: evs ++ [EvDraw (gg.SetFontFace font); EvDraw (gg.SetColor color_White)]).
      split; [reflexivity | ]. split.
      { unfold no_text in *. cbn [forallb is_text negb andb].
        rewrite forallb_app, Hlib. reflexivity. }
      split; [reflexivity | ].
      eexists. split; [ | split].
      * cbn [trace]. repeat rewrite <- app_assoc. cbn [app].
        repeat rewrite <- app_assoc. reflexivity.
      * apply truncated_policy. apply Z.ltb_lt in E.
        now rewrite RuneCountInString_length in E.
      * intros Hv _. destruct (truncated_prefix (Title o) Hv) as (p & q & H1 & H2 & H3).
        exists p, q. auto.
    + exists None. eexists. exists (EvEnter TitleStage :: evs ++ [EvDraw (gg.SetFontFace font); EvDraw (gg.SetColor color_White)]).
      split; [reflexivity | ]. split.
      { unfold no_text in *. cbn [forallb is_text negb andb].
        rewrite forallb_app, Hlib. reflexivity. }
      split; [reflexivity | ].
      eexists. split; [ | split].
      * cbn [trace]. repeat rewrite <- app_assoc. cbn [app].
        repeat rewrite <- app_assoc. reflexivity.
      * unfold title_policy. rewrite <- RuneCountInString_length, E. reflexivity.
      * intros _ Hlt. apply Z.ltb_ge in E. rewrite RuneCountInString_length in E. lia.
  - eexists (Some _). eexists. exists (EvEnter TitleStage :: evs).
    split; [reflexivity | ]. split.
    { unfold no_text in *. cbn [forallb is_text negb andb]. exact Hlib. }
    cbn [error_of] in Hfe. split; [rewrite Hfe; discriminate | ].
    split; [cbn [trace]; repeat rewrite <- app_assoc; reflexivity | ].
    exists e. split; [exact Hfe | reflexivity].
Qed.

(** *** Hexadecimal colours *)

Lemma hexval_digit (c : ascii) :
  isHexDigit c = true -> exists v, gg.hexval c = Some v /\ 0 <= v < 16.
Proof.
  unfold isHexDigit, gg.hexval. intros H.
  destruct ((48 <=? byteval c) && (byteval c <=? 57)) eqn:E1.
  { apply andb_true_iff in E1. destruct E1 as [E1 E2].
    apply Z.leb_le in E1. apply Z.leb_le in E2. eexists. split; [reflexivity | lia]. }
  destruct ((97 <=? byteval c) && (byteval c <=? 102)) eqn:E2.
  { apply andb_true_iff in E2. destruct E2 as [E2 E3].
    apply Z.leb_le in E2. apply Z.leb_le in E3. eexists. split; [reflexivity | lia]. }
  destruct ((65 <=? byteval c) && (byteval c <=? 70)) eqn:E3.
  { apply andb_true_iff in E3. destruct E3 as [E3 E4].
    apply Z.leb_le in E3. apply Z.leb_le in E4. eexists. split; [reflexivity | lia]. }
  discriminate.
Qed.

Lemma hexGroup_digits (s rest : string) :
  hexGroup s = Some rest ->
  exists a b c va vb vc,
    s = String a (String b (String c rest)) /\
    gg.hexval a = Some va /\ gg.hexval b = Some vb /\ gg.hexval c = Some vc /\
    0 <= va < 16 /\ 0 <= vb < 16 /\ 0 <= vc < 16.
Proof.
  destruct s as [ | a [ | b [ | c r]]]; try discriminate. cbn [hexGroup].
  destruct (isHexDigit a) eqn:Ea; [ | discriminate].
  destruct (isHexDigit b) eqn:Eb; [ | discriminate].
  destruct (isHexDigit c) eqn:Ec; [ | discriminate].
  cbn [andb]. intros H. injection H as <-.
  destruct (hexval_digit a Ea) as (va & Ha & Hva).
  destruct (hexval_digit b Eb) as (vb & Hb & Hvb).
  destruct (hexval_digit c Ec) as (vc & Hc & Hvc).
  exists a, b, c, va, vb, vc. auto 10.
Qed.

Lemma double_digit (v : Z) : 0 <= v < 16 -> Z.lor v (Z.shiftl v 4) = 17 * v.
Proof.
  intros H. rewrite Z.lor_comm, Z.shiftl_mul_pow2 by lia.
  rewrite lor_shifted by lia. lia.
Qed.

(** What [hexRe] accepts, [parseHexColor] reads as an opaque colour. *)
Lemma hexRe_parse (s : string) :
  hexRe_Match s = true ->
  exists r g b,
    gg.parseHexColor s = (r, g, b, 255) /\
    0 <= r <= 255 /\ 0 <= g <= 255 /\ 0 <= b <= 255.
Proof.
  destruct s as [ | c rest]; [discriminate | ]. cbn [hexRe_Match].
  destruct (Ascii.eqb c "#") eqn:Ec; [ | discriminate].
  destruct (hexGroup rest) as [rest1 | ] eqn:E1; [ | discriminate].
  destruct (hexGroup_digits rest rest1 E1)
    as (a1 & a2 & a3 & v1 & v2 & v3 & -> & H1 & H2 & H3 & R1 & R2 & R3).
  unfold gg.parseHexColor, gg.TrimPrefix_hash. rewrite Ec.
  destruct rest1 as [ | d rest2].
  - intros _. cbn [list_ascii_of_string map]. rewrite H1, H2, H3.
    rewrite !double_digit by assumption.
    do 3 eexists. split; [reflexivity | lia].
  - destruct (hexGroup (String d rest2)) as [rest3 | ] eqn:E2; [ | discriminate].
    destruct rest3; [ | discriminate]. intros _.
    destruct (hexGroup_digits _ _ E2)
      as (b1 & b2 & b3 & u1 & u2 & u3 & Hs & G1 & G2 & G3 & S1 & S2 & S3).
    rewrite Hs. cbn [list_ascii_of_string map].
    rewrite H1, H2, H3, G1, G2, G3.
    do 3 eexists. split; [reflexivity | lia].
Qed.

(** Painting an opaque colour with full coverage stores the colour. *)
Lemma paintOver_opaque (r g b : Z) (d : pixel) :
  0 <= r <= 255 -> 0 <= g <= 255 -> 0 <= b <= 255 ->
  gg.paintOver (Color_RGBA (NRGBA r g b 255)) 0xffff d = mkPix r g b 255.
Proof.
  intros Hr Hg Hb. unfold gg.paintOver, Color_RGBA, gg.u32, gg.u8.
  cbn [r16 g16 b16 a16].
  change (0xffff - 255 * 0x101 * 0xffff / 0xffff) with 0.
  change ((0 * 0x101) mod 2 ^ 32) with 0.
  rewrite !Z.mul_0_r, !Z.add_0_l, !Z.shiftr_div_pow2 by lia.
  change (2 ^ 32) with 4294967296. change (2 ^ 8) with 256.
  f_equal; Z.div_mod_to_equations; lia.
Qed.

Lemma canvas_size (n : Z) : 0 <= n < 2 ^ 63 -> int_sub (Z.max 0 n) (Z.min 0 n) = n.
Proof.
  intros H. unfold int_sub, wrap64. rewrite Z.max_r, Z.min_l by lia.
  rewrite Z.sub_0_r. rewrite Z.mod_small by lia. lia.
Qed.

(** The canvas after the three calls of a solid background. *)
Lemma solid_fill_pixels (W H : Z) (col : string) (r g b x y : Z) :
  rasterizes_rectangles L ->
  0 <= W < 2 ^ 63 -> 0 <= H < 2 ^ 63 ->
  gg.parseHexColor col = (r, g, b, 255) ->
  0 <= r <= 255 -> 0 <= g <= 255 -> 0 <= b <= 255 ->
  0 <= x < W -> 0 <= y < H ->
  Pix (gg.im (exec gg.Fill
                (exec (gg.DrawRectangle 0 0 (float64 W) (float64 H))
                   (exec (gg.SetHexColor col) (gg.NewContext W H))))) x y
  = mkPix r g b 255.
Proof.
  intros Hrast HW HH Hcol Hr Hg Hb Hx Hy.
  unfold exec. cbn [gg.exec]. rewrite Hcol.
  unfold gg.exec_Fill, gg.withPath, gg.withColor, gg.NewContext, gg.NewContextForRGBA.
  cbn [gg.width gg.height gg.im gg.color gg.fillPattern gg.path gg.mask gg.fontFace app].
  unfold setPix, image_NewRGBA, image_Rect, Dx, Dy.
  cbn [Rect Pix MinX MinY MaxX MaxY].
  rewrite !canvas_size by assumption.
  assert (Hin : inRect (mkRect (Z.min 0 W) (Z.min 0 H) (Z.max 0 W) (Z.max 0 H)) x y = true).
  { unfold inRect. cbn [MinX MinY MaxX MaxY]. rewrite !Z.max_r, !Z.min_l by lia.
    destruct (Z.leb_spec 0 x), (Z.ltb_spec x W), (Z.leb_spec 0 y), (Z.ltb_spec y H);
      try lia; reflexivity. }
  rewrite Hin.
  pose proof (Hrast 0 0 W H W H x y ltac:(lia) ltac:(lia) ltac:(lia) ltac:(lia)) as Hc.
  change (float64 0) with 0%Q in Hc. rewrite Hc.
  cbn [Z.eqb]. unfold gg.u8. rewrite !Z.mod_small by lia.
  apply paintOver_opaque; assumption.
Qed.

(** [drawBackground] with no buffer: three calls on the canvas. *)
Lemma drawBackground_solid (w : World) (o : Options) (dc : gg.Context) (col : string) :
  opts (self w) = Some o -> ctx (self w) = Some dc ->
  drawBackground None col w
  = (Val None,
     mkWorld
       (mkPreview (Some o)
          (Some (exec gg.Fill
                   (exec (gg.DrawRectangle 0 0 (float64 (CanvasW o)) (float64 (CanvasH o)))
                      (exec (gg.SetHexColor col) dc))))
          (remote (self w)))
       (trace w ++ [EvEnter BackgroundStage; EvDraw (gg.SetHexColor col);
                    EvDraw (gg.DrawRectangle 0 0 (float64 (CanvasW o))
                              (float64 (CanvasH o)));
                    EvDraw gg.Fill])).
Proof.
  intros Ho Hd. destruct w as [[oo cc rem] tr].
  cbn [self opts ctx remote trace] in Ho, Hd |- *. subst oo cc.
  unfold drawBackground. go. repeat rewrite <- app_assoc. reflexivity.
Qed.

Lemma extends_ret {A} (a : A) : extends (ret a).
Proof. intros w. exists []. cbn. now rewrite app_nil_r. Qed.

Lemma extends_panic {A} : extends (@panic A).
Proof. intros w. exists []. cbn. now rewrite app_nil_r. Qed.

Lemma extends_emit ev : extends (emit ev).
Proof. intros w. exists [ev]. reflexivity. Qed.

Lemma extends_bind {A B} (c : M A) (k : A -> M B) :
  extends c -> (forall a, extends (k a)) -> extends (bind c k).
Proof.
  intros Hc Hk w. unfold bind. destruct (Hc w) as [e1 H1].
  destruct (c w) as [[a | ] w1]; cbn [snd] in *.
  - destruct (Hk a w1) as [e2 H2]. exists (e1 ++ e2). rewrite H2, H1. now rewrite app_assoc.
  - exists e1. exact H1.
Qed.

Lemma extends_call {T} c (r : result T) : extends (call c r).
Proof. unfold call. apply extends_bind; [apply extends_emit | intros; apply extends_ret]. Qed.

Lemma extends_get_opts : extends get_opts.
Proof. intros w. exists []. unfold get_opts. destruct (opts (self w)); cbn; now rewrite app_nil_r. Qed.

Lemma extends_get_ctx : extends get_ctx.
Proof. intros w. exists []. unfold get_ctx. destruct (ctx (self w)); cbn; now rewrite app_nil_r. Qed.

Lemma extends_set_ctx dc : extends (set_ctx dc).
Proof. intros w. exists []. cbn. now rewrite app_nil_r. Qed.

Lemma extends_draw c : extends (draw c).
Proof.
  unfold draw. apply extends_bind; [apply extends_get_ctx | intros dc].
  apply extends_bind; [apply extends_emit | intros _]. apply extends_set_ctx.
Qed.

Ltac ext :=
  repeat lazymatch goal with
  | |- extends (ret _) => apply extends_ret
  | |- extends panic => apply extends_panic
  | |- extends (emit _) => apply extends_emit
  | |- extends (call _ _) => apply extends_call
  | |- extends get_opts => apply extends_get_opts
  | |- extends get_ctx => apply extends_get_ctx
  | |- extends (set_ctx _) => apply extends_set_ctx
  | |- extends (draw _) => apply extends_draw
  | |- extends (bind _ _) => apply extends_bind; [ | intros ? ]
  | |- extends (match ?x with _ => _ end) => destruct x
  end.

Lemma extends_resize buf w h : extends (resize buf w h).
Proof. unfold resize. ext. Qed.

Lemma extends_scale buf h : extends (scale buf h).
Proof. unfold scale. ext. Qed.

Lemma extends_loadFont name points : extends (loadFont name points).
Proof. unfold loadFont. ext. Qed.

Lemma extends_circle src : extends (circle src).
Proof. unfold circle. ext. Qed.

Lemma extends_index bufs i : extends (index bufs i).
Proof. unfold index. ext. Qed.

Ltac ext2 :=
  repeat lazymatch goal with
  | |- extends (resize _ _ _) => apply extends_resize
  | |- extends (scale _ _) => apply extends_scale
  | |- extends (loadFont _ _) => apply extends_loadFont
  | |- extends (circle _) => apply extends_circle
  | |- extends (index _ _) => apply extends_index
  | |- extends (ret _) => apply extends_ret
  | |- extends panic => apply extends_panic
  | |- extends (emit _) => apply extends_emit
  | |- extends (call _ _) => apply extends_call
  | |- extends get_opts => apply extends_get_opts
  | |- extends get_ctx => apply extends_get_ctx
  | |- extends (set_ctx _) => apply extends_set_ctx
  | |- extends (draw _) => apply extends_draw
  | |- extends (bind _ _) => apply extends_bind; [ | intros ? ]
  | |- extends (match ?x with _ => _ end) => destruct x
  end.

Lemma extends_drawForeground : extends drawForeground.
Proof. unfold drawForeground. ext2. Qed.

Lemma extends_drawAvatar b : extends (drawAvatar b).
Proof. unfold drawAvatar. ext2. Qed.

Lemma extends_drawAuthor : extends drawAuthor.
Proof. unfold drawAuthor. ext2. Qed.

Lemma extends_drawTitle : extends drawTitle.
Proof. unfold drawTitle, slice_to. ext2. Qed.

Lemma extends_drawLogo b : extends (drawLogo b).
Proof. unfold drawLogo. ext2. Qed.

Ltac ext3 :=
  repeat lazymatch goal with
  | |- extends drawForeground => apply extends_drawForeground
  | |- extends (drawAvatar _) => apply extends_drawAvatar
  | |- extends drawAuthor => apply extends_drawAuthor
  | |- extends drawTitle => apply extends_drawTitle
  | |- extends (drawLogo _) => apply extends_drawLogo
  | |- extends (index _ _) => apply extends_index
  | |- extends (ret _) => apply extends_ret
  | |- extends get_opts => apply extends_get_opts
  | |- extends get_ctx => apply extends_get_ctx
  | |- extends (draw _) => apply extends_draw
  | |- extends (bind _ _) => apply extends_bind; [ | intros ? ]
  | |- extends (match ?x with _ => _ end) => destruct x
  end.

Lemma starts_emit {A} ev (k : unit -> M A) :
  (forall u, extends (k u)) -> starts ev (bind (emit ev) k).
Proof.
  intros Hk w. unfold bind, emit. destruct (Hk tt (mkWorld (self w) (trace w ++ [ev]))) as [evs H].
  exists evs. rewrite H. cbn [trace]. now rewrite <- app_assoc.
Qed.

Lemma starts_bind {A B} ev (c : M A) (k : A -> M B) :
  starts ev c -> (forall a, extends (k a)) -> starts ev (bind c k).
Proof.
  intros Hc Hk w. unfold bind. destruct (Hc w) as [e1 H1].
  destruct (c w) as [[a | ] w1]; cbn [snd] in *.
  - destruct (Hk a w1) as [e2 H2]. exists (e1 ++ e2). rewrite H2, H1.
    rewrite <- app_assoc. reflexivity.
  - exists e1. exact H1.
Qed.

(** [Draw] as far as the fetch. *)
Lemma fetch_run {B} (o : Options) (dc : gg.Context)
    (K : Options -> result (list slice) -> M B) (w : World) :
  (set_opts o ;; set_ctx dc ;; o' <- get_opts ;; r <- get_remote ;;
   imgBufs <- call (CallGetAll (urlsOrPaths o')) (GetAll r (urlsOrPaths o')) ;;
   K o' imgBufs) w
  = K o (GetAll (remote (self w)) (urlsOrPaths o))
      (mkWorld (mkPreview (Some o) (Some dc) (remote (self w)))
         (trace w ++ [EvCall (CallGetAll (urlsOrPaths o))
                        (error_of (GetAll (remote (self w)) (urlsOrPaths o)))])).
Proof. destruct w as [[oo cc rem] tr]. reflexivity. Qed.

(** [Draw] after the fetch: the first stage runs in [fetched o w];
    its error ends the run; after its success the next event is the
    entry into the foreground stage. *)
Lemma Draw_after_background (o : Options) (w : World) (bufs : list slice) :
  GetAll (remote (self w)) (urlsOrPaths o) = Ok bufs ->
  match background_call o bufs (fetched o w) with
  | (Val (Some e), w1) => Draw o w = (Val (None, Some e), w1)
  | (Val None, w1) =>
    exists rest, trace (snd (Draw o w)) = trace w1 ++ EvEnter ForegroundStage :: rest
  | (Panic, w1) => Draw o w = (Panic, w1)
  end.
Proof.
  intros Hget. unfold Draw.
  match goal with
  | |- context [bind _ (fun _ => bind _ (fun _ => bind _ (fun o' => bind _ (fun r =>
         bind _ (@?K o')))))] =>
    rewrite (fetch_run o _ (fun o' imgBufs => K o' imgBufs) w)
  end.
  rewrite Hget. cbv beta iota. cbn [error_of]. fold (fetched o w).
  fold (background_call o bufs).
  match goal with
  | |- context [bind (background_call o bufs) ?K (fetched o w)] =>
    change (bind (background_call o bufs) K (fetched o w))
      with (match background_call o bufs (fetched o w) with
            | (Val a, w') => K a w'
            | (Panic, w') => (Panic, w')
            end)
  end.
  destruct (background_call o bufs (fetched o w)) as [[[e | ] | ] w1]; try reflexivity.
  match goal with
  | |- context [bind drawForeground ?K] =>
    assert (Hs : starts (EvEnter ForegroundStage) (bind drawForeground K))
  end.
  { apply starts_bind.
    - unfold drawForeground. apply starts_emit. intros u. ext2.
    - intros a. ext3. }
  destruct (Hs w1) as [rest Hrest]. exists rest. exact Hrest.
Qed.

Lemma hex_requests (o : Options) :
  hexRe_Match (Bg o) = true ->
  urlsOrPaths o = [AvaURL o; LogoURL o] /\ bgColor o = Bg o /\
  forall bufs, background_call o bufs = drawBackground None (Bg o).
Proof.
  intros H. unfold background_call, urlsOrPaths, bgColor, isBgHEX. rewrite H.
  repeat split; reflexivity.
Qed.

(** C3.  For every background that matches the pattern of [hexRe],
    the background is parsed as an opaque colour [(r, g, b, 255)],
    only the avatar and the logo are fetched, and stage 1 is exactly
    [SetHexColor], [DrawRectangle 0 0 CanvasW CanvasH], [Fill]: no
    image is decoded or drawn before the foreground stage begins.
    After stage 1 every pixel of the canvas, its four corners among
    them, is [(r, g, b)] at full opacity. *)
Theorem hex_background_fills_canvas (o : Options) (w : World) (bufs : list slice) :
  rasterizes_rectangles L ->
  hexRe_Match (Bg o) = true ->
  0 <= CanvasW o < 2 ^ 63 -> 0 <= CanvasH o < 2 ^ 63 ->
  GetAll (remote (self w)) (urlsOrPaths o) = Ok bufs ->
  exists r g b dc1 rest,
    gg.parseHexColor (Bg o) = (r, g, b, 255) /\
    background_call o bufs (fetched o w)
    = (Val None,
       mkWorld (mkPreview (Some o) (Some dc1) (remote (self w)))
         (trace (fetched o w) ++
          [EvEnter BackgroundStage; EvDraw (gg.SetHexColor (Bg o));
           EvDraw (gg.DrawRectangle 0 0 (float64 (CanvasW o)) (float64 (CanvasH o)));
           EvDraw gg.Fill])) /\
    trace (snd (Draw o w))
    = trace w ++
      [EvCall (CallGetAll [AvaURL o; LogoURL o]) None;
       EvEnter BackgroundStage; EvDraw (gg.SetHexColor (Bg o));
       EvDraw (gg.DrawRectangle 0 0 (float64 (CanvasW o)) (float64 (CanvasH o)));
       EvDraw gg.Fill; EvEnter ForegroundStage] ++ rest /\
    forall x y, 0 <= x < CanvasW o -> 0 <= y < CanvasH o ->
      Pix (gg.im dc1) x y = mkPix r g b 255.
Proof.
  intros Hrast Hhex HW HH Hget.
  destruct (hexRe_parse (Bg o) Hhex) as (r & g & b & Hcol & Hr & Hg & Hb).
  destruct (hex_requests o Hhex) as (Hids & Hbg & Hcall).
  pose proof (Draw_after_background o w bufs Hget) as Hd.
  rewrite Hcall in Hd |- *.
  pose proof (drawBackground_solid (fetched o w) o _ (Bg o) eq_refl eq_refl) as Hrun.
  rewrite Hrun in Hd. destruct Hd as [rest Hrest].
  exists r, g, b. eexists. exists rest.
  split; [exact Hcol | ]. split; [exact Hrun | ]. split.
  - rewrite Hrest. cbn [trace fetched]. rewrite Hids.
    repeat rewrite <- app_assoc. reflexivity.
  - intros x y Hx Hy. apply solid_fill_pixels; assumption.
Qed.

Lemma library_only_no_fill evs : library_only evs = true -> no_fill evs = true.
Proof.
  unfold library_only, no_fill. intros H. rewrite forallb_forall in *.
  intros ev Hev. specialize (H ev Hev). destruct ev; try discriminate; reflexivity.
Qed.

Lemma index_run {A} (bufs : list slice) (i : nat) (b : slice) (k : slice -> M A)
    (w : World) :
  nth_error bufs i = Some b ->
  bind (index bufs i) k w
  = k b (mkWorld (self w) (trace w ++ [EvIndex (Z.of_nat i)])).
Proof. intros H. unfold index. go. rewrite H. reflexivity. Qed.

(** [drawBackground] with a buffer: resize, decode, draw. *)
Lemma drawBackground_image (w : World) (o : Options) (dc : gg.Context)
    (b : bytes) (col : string) (rr : result slice) (evs : list Event) :
  opts (self w) = Some o -> ctx (self w) = Some dc ->
  resize (Some b) (CanvasW o) (CanvasH o)
         (mkWorld (self w) (trace w ++ [EvEnter BackgroundStage]))
  = (Val rr, mkWorld (self w) ((trace w ++ [EvEnter BackgroundStage]) ++ evs)) ->
  drawBackground (Some b) col w
  = match rr with
    | Err e =>
      (Val (Some (Errorf "could not resize the background" e)),
       mkWorld (self w) ((trace w ++ [EvEnter BackgroundStage]) ++ evs))
    | Ok bres =>
      match image_Decode (contents bres) with
      | Err e =>
        (Val (Some (Errorf "could not decode the background" e)),
         mkWorld (self w)
           ((trace w ++ [EvEnter BackgroundStage]) ++ evs ++
            [EvCall (CallDecode (contents bres)) (Some e)]))
      | Ok img =>
        (Val None,
         mkWorld (mkPreview (Some o) (Some (exec (gg.DrawImage img 0 0) dc))
                            (remote (self w)))
           ((trace w ++ [EvEnter BackgroundStage]) ++ evs ++
            [EvCall (CallDecode (contents bres)) None; EvDraw (gg.DrawImage img 0 0)]))
      end
    end.
Proof.
  intros Ho Hd. destruct w as [[oo cc rem] tr].
  cbn [self opts ctx remote trace] in Ho, Hd |- *. subst oo cc.
  intros Hrun. unfold drawBackground. go. rewrite Hrun.
  destruct rr as [bres | e]; go; [ | reflexivity].
  destruct (image_Decode (contents bres)) as [img | e]; go;
    repeat rewrite <- app_assoc; reflexivity.
Qed.

(** C7, as amended.  For a background that does not match the
    pattern of [hexRe]: when it is the empty string, only the avatar
    and the logo are fetched and stage 1 fills the canvas with
    [defaultBgColor]; when it is not empty, it is the third
    identifier handed to the resolver, and when the resolver
    returned a buffer for it, stage 1 reads that buffer, crop-resizes
    it to the canvas, decodes the result and draws it at the origin,
    stopping at the first of these that fails with the error of that
    step; no colour is set and nothing is filled. *)
Theorem background_dispatch (o : Options) (w : World) (bufs : list slice) :
  hexRe_Match (Bg o) = false ->
  GetAll (remote (self w)) (urlsOrPaths o) = Ok bufs ->
  (Bg o = EmptyString ->
   urlsOrPaths o = [AvaURL o; LogoURL o] /\
   exists dc1,
     background_call o bufs (fetched o w)
     = (Val None,
        mkWorld (mkPreview (Some o) (Some dc1) (remote (self w)))
          (trace (fetched o w) ++
           [EvEnter BackgroundStage; EvDraw (gg.SetHexColor defaultBgColor);
            EvDraw (gg.DrawRectangle 0 0 (float64 (CanvasW o)) (float64 (CanvasH o)));
            EvDraw gg.Fill])) /\
     exists rest,
       trace (snd (Draw o w))
       = trace w ++
         [EvCall (CallGetAll [AvaURL o; LogoURL o]) None;
          EvEnter BackgroundStage; EvDraw (gg.SetHexColor defaultBgColor);
          EvDraw (gg.DrawRectangle 0 0 (float64 (CanvasW o)) (float64 (CanvasH o)));
          EvDraw gg.Fill; EvEnter ForegroundStage] ++ rest) /\
  (Bg o <> EmptyString ->
   urlsOrPaths o = [AvaURL o; LogoURL o; Bg o] /\
   forall b, nth_error bufs 2 = Some (Some b) ->
     let entered :=
       mkWorld (self (fetched o w))
               (trace (fetched o w) ++ [EvIndex 2; EvEnter BackgroundStage]) in
     exists r w1 rr evs tail,
       resize (Some b) (CanvasW o) (CanvasH o) entered
       = (Val rr, mkWorld (self entered) (trace entered ++ evs)) /\
       hd_error evs = Some (EvCall (CallDecodeConfig b) (error_of (image_DecodeConfig b))) /\
       background_call o bufs (fetched o w) = (Val r, w1) /\
       trace w1 = trace entered ++ evs ++ tail /\
       no_fill (evs ++ tail) = true /\
       match r with
       | Some e => Draw o w = (Val (None, Some e), w1)
       | None =>
         exists rest, trace (snd (Draw o w)) = trace w1 ++ EvEnter ForegroundStage :: rest
       end /\
       match rr with
       | Err e =>
         r = Some (Errorf "could not resize the background" e) /\ tail = []
       | Ok bres =>
         match image_Decode (contents bres) with
         | Err e =>
           r = Some (Errorf "could not decode the background" e) /\
           tail = [EvCall (CallDecode (contents bres)) (Some e)]
         | Ok img =>
           r = None /\
           tail = [EvCall (CallDecode (contents bres)) None;
                   EvDraw (gg.DrawImage img 0 0)] /\
           ctx (self w1)
           = Some (exec (gg.DrawImage img 0 0)
                        (gg.NewContext (CanvasW o) (CanvasH o)))
         end
       end).
Proof.
  intros Hhex Hget. split.
  - intros Hempty.
    assert (Hids : urlsOrPaths o = [AvaURL o; LogoURL o]).
    { unfold urlsOrPaths, isBgHEX. rewrite Hhex, Hempty. reflexivity. }
    split; [exact Hids | ].
    assert (Hcall : background_call o bufs (fetched o w)
                    = drawBackground None defaultBgColor (fetched o w)).
    { unfold background_call, bgColor, isBgHEX. rewrite Hhex, Hempty. reflexivity. }
    pose proof (drawBackground_solid (fetched o w) o _ defaultBgColor eq_refl eq_refl)
      as Hrun.
    pose proof (Draw_after_background o w bufs Hget) as Hd.
    rewrite Hcall, Hrun in Hd. destruct Hd as [rest Hrest].
    eexists. split; [rewrite Hcall; exact Hrun | ].
    exists rest. rewrite Hrest. cbn [trace fetched]. rewrite Hids.
    repeat rewrite <- app_assoc. reflexivity.
  - intros Hne. apply String.eqb_neq in Hne.
    assert (Hids : urlsOrPaths o = [AvaURL o; LogoURL o; Bg o]).
    { unfold urlsOrPaths, isBgHEX. rewrite Hhex, Hne. reflexivity. }
    split; [exact Hids | ]. intros b Hb entered.
    destruct (resize_spec (Some b) (CanvasW o) (CanvasH o) entered)
      as (rr & evs & Hrun & Hlib & Hset & Hhd).
    pose proof (library_only_no_fill evs Hlib) as Hnf.
    assert (Hcall : background_call o bufs (fetched o w)
                    = drawBackground (Some b) (bgColor o)
                        (mkWorld (self (fetched o w))
                                 (trace (fetched o w) ++ [EvIndex 2]))).
    { unfold background_call, isBgHEX. rewrite Hhex, Hne. cbn [orb].
      apply (index_run bufs 2 (Some b)). exact Hb. }
    assert (Hent : entered
                   = mkWorld (self (fetched o w))
                       ((trace (fetched o w) ++ [EvIndex 2]) ++ [EvEnter BackgroundStage])).
    { subst entered. now rewrite <- app_assoc. }
    pose proof (drawBackground_image
                  (mkWorld (self (fetched o w)) (trace (fetched o w) ++ [EvIndex 2]))
                  o _ b (bgColor o) rr evs eq_refl eq_refl) as Himg.
    cbn [self trace] in Himg.
    pose proof Hrun as Hrun'. rewrite Hent in Hrun'. cbn [self trace] in Hrun'.
    specialize (Himg Hrun'). rewrite <- Hcall in Himg.
    exists (match rr with
            | Err e => Some (Errorf "could not resize the background" e)
            | Ok bres =>
              match image_Decode (contents bres) with
              | Err e => Some (Errorf "could not decode the background" e)
              | Ok _ => None
              end
            end).
    exists (snd (background_call o bufs (fetched o w))), rr, evs.
    exists (match rr with
            | Err e => []
            | Ok bres =>
              match image_Decode (contents bres) with
              | Err e => [EvCall (CallDecode (contents bres)) (Some e)]
              | Ok img => [EvCall (CallDecode (contents bres)) None;
                           EvDraw (gg.DrawImage img 0 0)]
              end
            end).
    split; [exact Hrun | ]. split; [exact Hhd | ].
    pose proof (Draw_after_background o w bufs Hget) as Hd.
    rewrite Himg in Hd |- *. unfold no_fill in *. rewrite forallb_app, Hnf.
    rewrite Hent. cbn [trace].
    destruct rr as [bres | e].
    + destruct (image_Decode (contents bres)) as [img | e]; cbn [snd trace self ctx];
        repeat split; exact Hd.
    + cbn [snd trace]. rewrite app_nil_r. repeat split. exact Hd.
Qed.

Lemma resize_fast (buf : slice) (w h : Z) (wd : World) :
  image_DecodeConfig (contents buf) = Ok (w, h) ->
  resize buf w h wd
  = (Val (Ok buf),
     mkWorld (self wd) (trace wd ++ [EvCall (CallDecodeConfig (contents buf)) None])).
Proof.
  intros H. unfold resize. go. rewrite H. go. rewrite !Z.eqb_refl. reflexivity.
Qed.

(** C4.  [resize] is idempotent.  When the decoded dimensions of the
    buffer are already [(w, h)], it returns the buffer itself, after
    the one call of [DecodeConfig]; and when [resize buf w h] returns
    a buffer [out], [resize out w h] takes that fast path and returns
    [out] itself, whatever the state it runs in. *)
Theorem resize_idempotent (buf : slice) (w h : Z) (wd : World) :
  thumbnail_has_size L ->
  (image_DecodeConfig (contents buf) = Ok (w, h) ->
   resize buf w h wd
   = (Val (Ok buf),
      mkWorld (self wd) (trace wd ++ [EvCall (CallDecodeConfig (contents buf)) None]))) /\
  (forall out wd2,
     fst (resize buf w h wd) = Val (Ok out) ->
     resize out w h wd2
     = (Val (Ok out),
        mkWorld (self wd2) (trace wd2 ++ [EvCall (CallDecodeConfig (contents out)) None]))).
Proof.
  intros Hthumb. split; [apply resize_fast | ].
  intros out wd2. unfold resize at 1. go.
  destruct (image_DecodeConfig (contents buf)) as [[cw ch] | e] eqn:Ecfg; go;
    [ | discriminate].
  destruct ((cw =? w) && (ch =? h)) eqn:Esame; go.
  { intros H. injection H as <-. apply resize_fast.
    apply andb_true_iff in Esame. destruct Esame as [E1 E2].
    apply Z.eqb_eq in E1. apply Z.eqb_eq in E2. subst. exact Ecfg. }
  destruct (vips_NewImageFromBuffer (contents buf)) as [ref | e] eqn:Enew; go;
    [ | discriminate].
  destruct (vips_Thumbnail ref w h InterestingAttention) as [ref' | e] eqn:Eth; go;
    [ | discriminate].
  destruct (vips_Export ref') as [o | e] eqn:Eex; go; [ | discriminate].
  intros H. injection H as <-. apply resize_fast. cbn [contents].
  exact (Hthumb _ _ _ _ _ _ Enew Eth Eex).
Qed.




Lemma wrap64_int (z : Z) : is_int z -> wrap64 z = z.
Proof. unfold is_int, wrap64. intros H. rewrite Z.mod_small by lia. lia. Qed.

Lemma half_of_min (a b : Z) :
  int_of_float (math_Min (float64 a) (float64 b) / 2)%Q = Z.quot (Z.min a b) 2.
Proof.
  unfold math_Min, float64, Qle_bool, inject_Z. cbn [Qnum Qden].
  rewrite !Z.mul_1_r.
  destruct (Z.leb_spec a b).
  - rewrite Z.min_l by lia. unfold int_of_float. cbn. now rewrite Z.mul_1_r.
  - rewrite Z.min_r by lia. unfold int_of_float. cbn. now rewrite Z.mul_1_r.
Qed.

(** The pixels of the masked copy, where the mask is empty and where
    it is full. *)
Lemma maskedOver_empty (c : rgba16) : gg.maskedOver c (0 * 0x101) (mkPix 0 0 0 0) = mkPix 0 0 0 0.
Proof.
  unfold gg.maskedOver, pixel_of_16. cbn [pR pG pB pA r16 g16 b16 a16].
  rewrite !Z.mul_0_l, !Z.mul_0_r. reflexivity.
Qed.

Lemma maskedOver_full (c : rgba16) :
  0 <= a16 c <= 0xffff ->
  pA (gg.maskedOver c (255 * 0x101) (mkPix 0 0 0 0)) = Z.shiftr (a16 c) 8.
Proof.
  intros H. unfold gg.maskedOver, pixel_of_16. cbn [pR pG pB pA r16 g16 b16 a16].
  change (255 * 0x101) with 0xffff.
  rewrite Z.div_mul by lia.
  change (0 * 0x101 * (0xffff - a16 c) / 0xffff) with (0 * (0xffff - a16 c) / 0xffff).
  rewrite Z.mul_0_l. change (0 / 0xffff) with 0.
  rewrite Z.add_0_l, Z.mod_small by lia. reflexivity.
Qed.

(** C5, as amended.  For an image whose bounds start at the origin,
    [circle] returns a new image with the bounds of the source and
    leaves its receiver as it was.  With [cx = W / 2], [cy = H / 2]
    and [r = min W H / 2], all three rounded down, every pixel
    outside the bounds is transparent, every pixel strictly outside
    the circle of centre [(cx, cy)] and radius [r] has alpha 0, and
    every pixel strictly inside it has the alpha of the source pixel
    reduced to its eight high bits, as the 8-bit canvas stores it. *)
Theorem circle_masks_alpha (src : image_Image) (wd : World) :
  rasterizes_circles L ->
  MinX (Bounds src) = 0 -> MinY (Bounds src) = 0 ->
  0 <= MaxX (Bounds src) < 2 ^ 63 -> 0 <= MaxY (Bounds src) < 2 ^ 63 ->
  let W := MaxX (Bounds src) in
  let H := MaxY (Bounds src) in
  let cx := Z.quot W 2 in
  let cy := Z.quot H 2 in
  let r := Z.quot (Z.min W H) 2 in
  circle src wd
  = (Val (circled src), mkWorld (self wd) (trace wd ++ [EvLog LogCircling])) /\
  Bounds (circled src) = Bounds src /\
  forall x y,
    (inRect (Bounds src) x y = false -> At (circled src) x y = RGBA 0 0 0 0) /\
    (strictlyOutside cx cy r x y = true ->
     a16 (Color_RGBA (At (circled src) x y)) = 0) /\
    (inRect (Bounds src) x y = true -> strictlyInside cx cy r x y = true ->
     0 <= a16 (Color_RGBA (At src x y)) <= 0xffff ->
     a16 (Color_RGBA (At (circled src) x y))
     = Z.shiftr (a16 (Color_RGBA (At src x y))) 8 * 0x101).
Proof.
  intros Hrast Hx0 Hy0 HW HH W H cx cy r.
  split; [reflexivity | ]. split; [reflexivity | ].
  intros x y.
  assert (HDx : Dx (Bounds src) = W).
  { unfold Dx, int_sub. rewrite Hx0, Z.sub_0_r. apply wrap64_int. unfold is_int. subst W. lia. }
  assert (HDy : Dy (Bounds src) = H).
  { unfold Dy, int_sub. rewrite Hy0, Z.sub_0_r. apply wrap64_int. unfold is_int. subst H. lia. }
  unfold circled, circle_mask, gg.Image, RGBA_Image. cbn [At Bounds].
  rewrite half_of_min, HDx, HDy. unfold int_div. fold W H. fold cx cy r.
  unfold exec. cbn [gg.exec].
  unfold gg.exec_DrawImageAnchored, gg.exec_Clip, gg.withPath, gg.NewContextForRGBA.
  cbn [gg.width gg.height gg.im gg.color gg.fillPattern gg.path gg.mask gg.fontFace app].
  unfold setPix, image_NewRGBA. cbn [Rect Pix].
  rewrite HDx, HDy.
  assert (Hz : forall n, int_sub 0 (int_of_float (0 * float64 n)) = 0).
  { intros n. unfold int_of_float, float64, inject_Z, Qmult. cbn. reflexivity. }
  rewrite !Hz, Hx0, Hy0, !Z.sub_0_r, !Z.add_0_r.
  destruct (Hrast cx cy r W H x y) as [Hin Hout].
  split; [ | split].
  - intros Hb. rewrite Hb. reflexivity.
  - intros Ho. specialize (Hout Ho).
    destruct (inRect (Bounds src) x y); [ | reflexivity].
    rewrite Hout. change (Z.shiftr 0 8) with 0. rewrite maskedOver_empty. reflexivity.
  - intros Hb Hi Ha. rewrite Hb.
    assert (Hxy : 0 <= x < W /\ 0 <= y < H).
    { unfold inRect in Hb. rewrite Hx0, Hy0 in Hb. fold W H in Hb.
      destruct (Z.leb_spec 0 x), (Z.ltb_spec x W), (Z.leb_spec 0 y), (Z.ltb_spec y H);
        try discriminate; lia. }
    rewrite (Hin (proj1 Hxy) (proj2 Hxy) Hi).
    change (Z.shiftr 65535 8) with 255.
    cbn [Color_RGBA a16]. f_equal. apply maskedOver_full. exact Ha.
Qed.

(** The border circle of [drawAvatar]. *)
Lemma drawAvatar_border (w : World) (o : Options) (dc : gg.Context) (avaBuf : slice) :
  opts (self w) = Some o -> ctx (self w) = Some dc ->
  exists rest,
    trace (snd (drawAvatar avaBuf w))
    = trace w ++
      [EvEnter AvatarStage;
       EvDraw (gg.DrawCircle
                 (float64 padding + float64 (int_add (AvaD o) border) / 2)%Q
                 (float64 padding + float64 (int_add (AvaD o) border) / 2)%Q
                 (float64 (int_div (int_add (AvaD o) 8) 2)))] ++ rest.
Proof.
  intros Ho Hd. destruct w as [[oo cc rem] tr].
  cbn [self opts ctx remote trace] in Ho, Hd |- *. subst oo cc.
  unfold drawAvatar, circle. go.
  destruct (resize_spec avaBuf (AvaD o) (AvaD o)
              (mkWorld
                 (mkPreview (Some o)
                    (Some (exec gg.Fill
                             (exec (gg.SetHexColor avatarBorderColor)
                                (exec (gg.DrawCircle
                                         (float64 padding +
                                          float64 (int_add (AvaD o) border) / 2)%Q
                                         (float64 padding +
                                          float64 (int_add (AvaD o) border) / 2)%Q
                                         (float64 (int_div (int_add (AvaD o) 8) 2)))
                                   dc)))) rem)
                 ((((tr ++ [EvEnter AvatarStage]) ++
                    [EvDraw (gg.DrawCircle
                               (float64 padding + float64 (int_add (AvaD o) border) / 2)%Q
                               (float64 padding + float64 (int_add (AvaD o) border) / 2)%Q
                               (float64 (int_div (int_add (AvaD o) 8) 2)))]) ++
                   [EvDraw (gg.SetHexColor avatarBorderColor)]) ++ [EvDraw gg.Fill])))
    as (rr & evs & Hrun & _).
  rewrite Hrun. cbn [self trace].
  destruct rr as [v | e]; go.
  - destruct (image_Decode (contents v)); go;
      eexists; repeat rewrite <- app_assoc; cbn [app]; reflexivity.
  - eexists; repeat rewrite <- app_assoc; cbn [app]; reflexivity.
Qed.

Lemma half_even (n : Z) :
  0 <= n -> Z.even n = true -> (float64 (int_div n 2) == float64 n / 2)%Q.
Proof.
  intros Hn He. apply Z.even_spec in He. destruct He as [k ->].
  unfold int_div. rewrite Z.mul_comm, Z.quot_mul by lia.
  unfold float64. rewrite inject_Z_mult. field.
Qed.

Lemma half_odd (n : Z) :
  0 <= n -> Z.odd n = true -> (float64 (int_div n 2) == float64 n / 2 - (1 # 2))%Q.
Proof.
  intros Hn Ho. apply Z.odd_spec in Ho. destruct Ho as [k ->].
  unfold int_div. rewrite Z.quot_div_nonneg by lia.
  replace ((2 * k + 1) / 2) with k by (Z.div_mod_to_equations; lia).
  unfold float64. rewrite inject_Z_plus, inject_Z_mult. field.
Qed.

(** C6.  What [drawAvatar] draws first is the border circle: its
    centre is at [padding + (AvaD + border) / 2] on both axes.  For
    an even [AvaD] the radius is the distance from the centre to the
    padding edge, [(AvaD + border) / 2]; for an odd [AvaD] the radius
    is half a pixel short of it, the division of [AvaD + 8] being
    that of integers. *)
Theorem drawAvatar_border_radius (w : World) (o : Options) (dc : gg.Context)
    (avaBuf : slice) :
  opts (self w) = Some o -> ctx (self w) = Some dc ->
  0 <= AvaD o < 2 ^ 52 ->
  exists c rad rest,
    trace (snd (drawAvatar avaBuf w))
    = trace w ++ [EvEnter AvatarStage; EvDraw (gg.DrawCircle c c rad)] ++ rest /\
    (c == float64 padding + float64 (AvaD o + border) / 2)%Q /\
    (Z.even (AvaD o) = true -> (rad == c - float64 padding)%Q) /\
    (Z.odd (AvaD o) = true -> (rad == c - float64 padding - (1 # 2))%Q).
Proof.
  intros Ho Hd Hr.
  destruct (drawAvatar_border w o dc avaBuf Ho Hd) as [rest Hrest].
  assert (Hadd : forall k, 0 <= k <= 8 -> int_add (AvaD o) k = AvaD o + k).
  { intros k Hk. unfold int_add. apply wrap64_int. unfold is_int. lia. }
  do 3 eexists. split; [exact Hrest | ].
  unfold border in *. rewrite (Hadd 8) by lia.
  split; [reflexivity | ]. split.
  - intros He. rewrite half_even; [ring | lia | ].
    rewrite Z.even_add, He. reflexivity.
  - intros Hodd. rewrite half_odd; [ring | lia | ].
    rewrite Z.odd_add, Hodd. reflexivity.
Qed.

(** ** Further properties of the stages *)

(** *** Runs of [Draw] that return an image *)

Lemma pipeline_success bufs pl out evs :
  pipeline bufs pl out evs ->
  forall img, out = Val (Some img, None) ->
    clean evs = true /\ stages_of evs = map snd pl /\
    indices_of evs = map Z.of_nat (planned pl) /\
    forall i, In i (planned pl) -> nth_error bufs i <> None.
Proof.
  induction 1 as [ img0 | i st rest Hi | oi st rest evs msg cause Hr Hin Hewf Hmsg Hst
                 | oi st rest evs out evs' Hr Hin Hcl Hp IH ];
    intros img Hout; try discriminate.
  - repeat split. intros i [].
  - destruct (IH img Hout) as (Hc & Hs & Hi & Hb).
    destruct (read_events_facts oi) as (Hs0 & Hc0 & Hi0).
    destruct (inner_quiet evs Hin) as [Hq1 Hq2].
    repeat split.
    + rewrite clean_app, Hc0. cbn [andb].
      change (clean (EvEnter st :: evs ++ evs')) with (clean (evs ++ evs')).
      now rewrite clean_app, Hcl, Hc.
    + rewrite stages_of_app, Hs0. cbn [app map snd].
      change (stages_of (EvEnter st :: evs ++ evs')) with (st :: stages_of (evs ++ evs')).
      now rewrite stages_of_app, Hq1, Hs.
    + rewrite indices_of_app, Hi0.
      change (indices_of (EvEnter st :: evs ++ evs')) with (indices_of (evs ++ evs')).
      rewrite indices_of_app, Hq2, Hi. cbn [app]. unfold planned. cbn [flat_map fst].
      rewrite map_app. destruct oi; reflexivity.
    + intros i Hi'. unfold planned in Hi'. cbn [flat_map fst] in Hi'.
      apply in_app_or in Hi'. destruct Hi' as [Hi' | Hi'].
      * destruct oi as [j | ]; [ | contradiction]. destruct Hi' as [<- | []]. exact Hr.
      * apply Hb. exact Hi'.
Qed.

Lemma planned_plan (o : Options) :
  planned (plan o) = (if fetches_background o then [2%nat] else []) ++ [0%nat; 1%nat].
Proof.
  unfold planned, plan, fetches_background. cbn [flat_map fst].
  destruct (hexRe_Match (Bg o)); [reflexivity | ].
  destruct (String.eqb (Bg o) EmptyString); reflexivity.
Qed.


(** X1.  A run of [Draw] that returns an image fetched without an
    error and made no library call that failed; it entered the six
    stages once each, in their order, and read the buffers 0 and 1,
    after the buffer 2 when the background is fetched, and no other;
    the resolver had returned that many buffers. *)
Theorem Draw_success_runs_every_stage (o : Options) (w : World) (img : image_Image) :
  fst (Draw o w) = Val (Some img, None) ->
  exists bufs evs,
    GetAll (remote (self w)) (urlsOrPaths o) = Ok bufs /\
    trace (snd (Draw o w))
    = trace w ++ EvCall (CallGetAll (urlsOrPaths o)) None :: evs /\
    clean evs = true /\
    stages_of evs = stage_order /\
    indices_of evs = (if fetches_background o then [2] else []) ++ [0; 1] /\
    (2 <= List.length bufs)%nat /\
    (fetches_background o = true -> (3 <= List.length bufs)%nat).
Proof.
  intros Hrun.
  destruct (GetAll (remote (self w)) (urlsOrPaths o)) as [bufs | e0] eqn:Hget.
  2:{ rewrite (Draw_fetch_failed o w e0 Hget) in Hrun. discriminate. }
  destruct (Draw_fetched o w bufs Hget) as (out & w' & evs & Hd & Htr & Hp).
  rewrite Hd in Hrun |- *. cbn [fst snd] in *. subst out.
  destruct (pipeline_success _ _ _ _ Hp img eq_refl) as (Hc & Hs & Hi & Hb).
  exists bufs, evs. split; [reflexivity | ]. split; [exact Htr | ].
  split; [exact Hc | ]. split; [exact Hs | ].
  rewrite planned_plan in Hi, Hb. split.
  - rewrite Hi. destruct (fetches_background o); reflexivity.
  - split.
    + assert (H1 : nth_error bufs 1 <> None).
      { apply Hb. apply in_or_app. right. cbn. auto. }
      apply nth_error_Some in H1. lia.
    + intros Hf. rewrite Hf in Hb.
      assert (H2 : nth_error bufs 2 <> None) by (apply Hb; cbn; auto).
      apply nth_error_Some in H2. lia.
Qed.

(** *** Panics *)



(** A solid background is painted without a failure: the run of
    [Draw] goes on to the foreground. *)
Lemma solid_background_passes (o : Options) (w : World) (bufs : list slice) :
  fetches_background o = false ->
  GetAll (remote (self w)) (urlsOrPaths o) = Ok bufs ->
  exists rest,
    trace (snd (Draw o w))
    = trace w ++
      EvCall (CallGetAll (urlsOrPaths o)) None ::
      [EvEnter BackgroundStage; EvDraw (gg.SetHexColor (bgColor o));
       EvDraw (gg.DrawRectangle 0 0 (float64 (CanvasW o)) (float64 (CanvasH o)));
       EvDraw gg.Fill; EvEnter ForegroundStage] ++ rest.
Proof.
  intros Hf Hget.
  assert (Hcall : background_call o bufs = drawBackground None (bgColor o)).
  { unfold background_call, isBgHEX. unfold fetches_background in Hf.
    destruct (hexRe_Match (Bg o)); [reflexivity | ].
    destruct (String.eqb (Bg o) EmptyString); [reflexivity | discriminate]. }
  pose proof (Draw_after_background o w bufs Hget) as Hd.
  rewrite Hcall in Hd.
  rewrite (drawBackground_solid (fetched o w) o _ (bgColor o) eq_refl eq_refl) in Hd.
  destruct Hd as [rest Hrest]. exists rest. rewrite Hrest.
  cbn [trace fetched]. repeat rewrite <- app_assoc. reflexivity.
Qed.

Lemma stages_of_last (pre : list Event) (c : LibCall) (r : option error) :
  stages_of (pre ++ [EvCall c r]) = stages_of pre.
Proof. rewrite stages_of_app. cbn. apply app_nil_r. Qed.

(** X3.  Where the errors of [Draw] come from.  Either the fetch
    failed, and the error wraps its cause with the message of the
    fetch; or the last stage entered is one that can fail (the
    avatar, the author, the logo, and the background when it is
    fetched) and the message is one of that stage.  The foreground
    and the title never fail, nor does a background that is a colour
    or empty. *)
Theorem Draw_error_comes_from (o : Options) (w : World)
    (img : option image_Image) (e : error) :
  fst (Draw o w) = Val (img, Some e) ->
  exists msg cause,
    e = Errorf msg cause /\
    (msg = "could not get an image"%string /\
     GetAll (remote (self w)) (urlsOrPaths o) = Err cause \/
     exists n st,
       stages_of (skipn (List.length (trace w)) (trace (snd (Draw o w))))
       = firstn (S n) stage_order /\
       nth_error stage_order n = Some st /\
       In msg (messages st) /\ may_fail o st = true).
Proof.
  intros Hrun.
  destruct (GetAll (remote (self w)) (urlsOrPaths o)) as [bufs | e0] eqn:Hget.
  2:{ rewrite (Draw_fetch_failed o w e0 Hget) in Hrun. cbn [fst] in Hrun.
      injection Hrun as _ <-. do 2 eexists. split; [reflexivity | ]. left. auto. }
  destruct (Draw_fetched o w bufs Hget) as (out & w' & evs & Hd & Htr & Hp).
  pose proof Hrun as Hrun'. rewrite Hd in Hrun'. cbn [fst] in Hrun'. subst out.
  destruct (pipeline_error _ _ _ _ Hp img e eq_refl)
    as (_ & msg & cause & pre & c & n & st & -> & Hevs & Hc & Hs & Hn & Hm & Ht).
  exists msg, cause. split; [reflexivity | ]. right.
  assert (Hsk : skipn (List.length (trace w)) (trace (snd (Draw o w)))
                = EvCall (CallGetAll (urlsOrPaths o)) None :: evs).
  { rewrite Hd. cbn [snd]. rewrite Htr. apply skipn_length_app. }
  rewrite Hsk.
  change (stages_of (EvCall (CallGetAll (urlsOrPaths o)) None :: evs))
    with (stages_of evs).
  assert (Hall : stages_of evs = firstn (S n) stage_order).
  { rewrite Hevs, stages_of_last. exact Hs. }
  change (map snd (plan o)) with stage_order in Hn.
  assert (Hsolid : fetches_background o = false -> n <> 0%nat).
  { intros Hf ->. destruct (solid_background_passes o w bufs Hf Hget) as [rest Hrest].
    rewrite Hd in Hrest. cbn [snd] in Hrest. rewrite Htr in Hrest.
    apply app_inv_head in Hrest. injection Hrest as Hrest.
    rewrite Hrest in Hall. cbn in Hall. discriminate Hall. }
  exists n, st. split; [exact Hall | ]. split; [exact Hn | ]. split; [exact Hm | ].
  destruct st; try reflexivity.
  - cbn [may_fail]. destruct (fetches_background o); [reflexivity | ].
    exfalso. apply Hsolid; [reflexivity | ].
    do 6 (destruct n as [ | n]; [try reflexivity; discriminate Hn | ]).
    destruct n; discriminate Hn.
  - destruct Hm.
  - exfalso. apply Ht. reflexivity.
Qed.

(** *** Computations that leave the receiver alone *)

Lemma quiet_ret {A} (a : A) : quiet (ret a).
Proof. intros w. reflexivity. Qed.

Lemma quiet_panic {A} : quiet (@panic A).
Proof. intros w. reflexivity. Qed.

Lemma quiet_emit ev : quiet (emit ev).
Proof. intros w. reflexivity. Qed.

Lemma quiet_bind {A B} (c : M A) (k : A -> M B) :
  quiet c -> (forall a, quiet (k a)) -> quiet (bind c k).
Proof.
  intros Hc Hk w. unfold bind. specialize (Hc w).
  destruct (c w) as [[a | ] w1]; cbn [snd] in *.
  - rewrite Hk. exact Hc.
  - exact Hc.
Qed.

Lemma quiet_call {T} c (r : result T) : quiet (call c r).
Proof. unfold call. apply quiet_bind; [apply quiet_emit | intros; apply quiet_ret]. Qed.

Lemma quiet_get_opts : quiet get_opts.
Proof. intros w. unfold get_opts. destruct (opts (self w)); reflexivity. Qed.

Lemma quiet_get_ctx : quiet get_ctx.
Proof. intros w. unfold get_ctx. destruct (ctx (self w)); reflexivity. Qed.

Ltac quietly :=
  repeat lazymatch goal with
  | |- quiet (ret _) => apply quiet_ret
  | |- quiet panic => apply quiet_panic
  | |- quiet (emit _) => apply quiet_emit
  | |- quiet (call _ _) => apply quiet_call
  | |- quiet get_opts => apply quiet_get_opts
  | |- quiet get_ctx => apply quiet_get_ctx
  | |- quiet (bind _ _) => apply quiet_bind; [ | intros ? ]
  | |- quiet (match ?x with _ => _ end) => destruct x
  end.

Lemma quiet_resize buf w h : quiet (resize buf w h).
Proof. unfold resize. quietly. Qed.

Lemma quiet_scale buf h : quiet (scale buf h).
Proof. unfold scale. quietly. Qed.

Lemma quiet_loadFont name points : quiet (loadFont name points).
Proof. unfold loadFont. quietly. Qed.

Lemma quiet_circle src : quiet (circle src).
Proof. unfold circle. quietly. Qed.

Lemma quiet_index bufs i : quiet (index bufs i).
Proof. unfold index. quietly. Qed.

(** *** Computations that keep a property of the receiver *)

Lemma keeps_quiet {A} I (c : M A) : quiet c -> keeps I c.
Proof. intros Hq w H. rewrite Hq. exact H. Qed.

Lemma keeps_bind {A B} I (c : M A) (k : A -> M B) :
  keeps I c -> (forall a, keeps I (k a)) -> keeps I (bind c k).
Proof.
  intros Hc Hk w H. unfold bind. specialize (Hc w H).
  destruct (c w) as [[a | ] w1]; cbn [snd] in *.
  - apply Hk. exact Hc.
  - exact Hc.
Qed.

(** No call on the canvas changes the bounds of its image. *)
Lemma exec_Rect (c : gg.Call) (dc : gg.Context) :
  text_keeps_bounds L -> Rect (gg.im (exec c dc)) = Rect (gg.im dc).
Proof.
  intros [Ht Hw]. unfold exec.
  destruct c; cbn [gg.exec]; try reflexivity.
  - destruct (gg.parseHexColor x) as [[[r g] b] a]. reflexivity.
  - cbn [gg.withIm gg.im]. apply Ht.
  - cbn [gg.withIm gg.im]. apply Hw.
Qed.

Lemma keeps_draw R o (c : gg.Call) :
  text_keeps_bounds L -> keeps (canvas_is R o) (draw c).
Proof.
  intros Ht w (Ho & dc & Hd & HR). unfold draw, bind, get_ctx, emit, set_ctx.
  rewrite Hd. cbn [self snd opts ctx]. split; [exact Ho | ].
  eexists. split; [reflexivity | ]. rewrite exec_Rect by exact Ht. exact HR.
Qed.

Ltac keeping Ht :=
  repeat lazymatch goal with
  | |- keeps _ (draw _) => apply keeps_draw; exact Ht
  | |- keeps _ (ret _) => apply keeps_quiet, quiet_ret
  | |- keeps _ panic => apply keeps_quiet, quiet_panic
  | |- keeps _ (emit _) => apply keeps_quiet, quiet_emit
  | |- keeps _ (call _ _) => apply keeps_quiet, quiet_call
  | |- keeps _ get_opts => apply keeps_quiet, quiet_get_opts
  | |- keeps _ get_ctx => apply keeps_quiet, quiet_get_ctx
  | |- keeps _ (resize _ _ _) => apply keeps_quiet, quiet_resize
  | |- keeps _ (scale _ _) => apply keeps_quiet, quiet_scale
  | |- keeps _ (loadFont _ _) => apply keeps_quiet, quiet_loadFont
  | |- keeps _ (circle _) => apply keeps_quiet, quiet_circle
  | |- keeps _ (index _ _) => apply keeps_quiet, quiet_index
  | |- keeps _ (slice_to _ _) => apply keeps_quiet; unfold slice_to; quietly
  | |- keeps _ (bind _ _) => apply keeps_bind; [ | intros ? ]
  | |- keeps _ (match ?x with _ => _ end) => destruct x
  end.

Lemma keeps_drawBackground R o b col :
  text_keeps_bounds L -> keeps (canvas_is R o) (drawBackground b col).
Proof. intros Ht. unfold drawBackground. keeping Ht. Qed.

Lemma keeps_drawForeground R o :
  text_keeps_bounds L -> keeps (canvas_is R o) drawForeground.
Proof. intros Ht. unfold drawForeground. keeping Ht. Qed.

Lemma keeps_drawAvatar R o b :
  text_keeps_bounds L -> keeps (canvas_is R o) (drawAvatar b).
Proof. intros Ht. unfold drawAvatar. keeping Ht. Qed.

Lemma keeps_drawAuthor R o :
  text_keeps_bounds L -> keeps (canvas_is R o) drawAuthor.
Proof. intros Ht. unfold drawAuthor. keeping Ht. Qed.

Lemma keeps_drawTitle R o :
  text_keeps_bounds L -> keeps (canvas_is R o) drawTitle.
Proof. intros Ht. unfold drawTitle. keeping Ht. Qed.

Lemma keeps_drawLogo R o b :
  text_keeps_bounds L -> keeps (canvas_is R o) (drawLogo b).
Proof. intros Ht. unfold drawLogo. keeping Ht. Qed.

(** *** The image that [Draw] returns *)

Lemma returns_canvas_bind {A} (c : M A) k :
  (forall a, returns_canvas (k a)) -> returns_canvas (bind c k).
Proof.
  intros Hk w img e. unfold bind. destruct (c w) as [[a | ] w1].
  - apply Hk.
  - discriminate.
Qed.

Lemma returns_canvas_error e : returns_canvas (ret (None, e)).
Proof. intros w img e'. discriminate. Qed.

Lemma returns_canvas_image :
  returns_canvas (dc <- get_ctx ;; ret (Some (gg.Image dc), None)).
Proof.
  intros w img e. unfold bind, get_ctx, ret.
  destruct (ctx (self w)) as [dc | ] eqn:Hd; cbn [fst snd]; [ | discriminate].
  intros H. injection H as <- _. exists dc. auto.
Qed.

Lemma Draw_returns_canvas (o : Options) : returns_canvas (Draw o).
Proof.
  unfold Draw.
  repeat lazymatch goal with
  | |- returns_canvas (bind get_ctx _) => apply returns_canvas_image
  | |- returns_canvas (bind _ _) => apply returns_canvas_bind; intros ?
  | |- returns_canvas (ret (None, _)) => apply returns_canvas_error
  | |- returns_canvas (match ?x with _ => _ end) => destruct x
  end.
Qed.

(** After [Draw] the receiver holds the options it was given and a
    canvas of the size asked for. *)
Lemma Draw_canvas (o : Options) (w : World) :
  text_keeps_bounds L ->
  canvas_is (image_Rect 0 0 (CanvasW o) (CanvasH o)) o (self (snd (Draw o w))).
Proof.
  intros Ht. unfold Draw.
  match goal with
  | |- context [bind _ (fun _ => bind _ (fun _ => bind _ (fun o' => bind _ (fun r =>
         bind _ (@?K o')))))] =>
    rewrite (fetch_run o _ (fun o' imgBufs => K o' imgBufs) w)
  end.
  cbv beta.
  match goal with
  | |- canvas_is ?R o (self (snd (?c ?w0))) =>
    assert (Hk : keeps (canvas_is R o) c); [ | apply Hk ]
  end.
  - destruct (GetAll (remote (self w)) (urlsOrPaths o)) as [bufs | e].
    + repeat lazymatch goal with
      | |- keeps _ (drawBackground _ _) => apply keeps_drawBackground; exact Ht
      | |- keeps _ drawForeground => apply keeps_drawForeground; exact Ht
      | |- keeps _ (drawAvatar _) => apply keeps_drawAvatar; exact Ht
      | |- keeps _ drawAuthor => apply keeps_drawAuthor; exact Ht
      | |- keeps _ drawTitle => apply keeps_drawTitle; exact Ht
      | |- keeps _ (drawLogo _) => apply keeps_drawLogo; exact Ht
      | |- keeps _ (index _ _) => apply keeps_quiet, quiet_index
      | |- keeps _ (ret _) => apply keeps_quiet, quiet_ret
      | |- keeps _ get_ctx => apply keeps_quiet, quiet_get_ctx
      | |- keeps _ (bind _ _) => apply keeps_bind; [ | intros ? ]
      | |- keeps _ (match ?x with _ => _ end) => destruct x
      end.
    + apply keeps_quiet, quiet_ret.
  - cbn [self opts ctx]. split; [reflexivity | ]. eexists. split; reflexivity.
Qed.

(** X4.  The image that [Draw] returns has the bounds of the canvas
    asked for: from (0, 0) to ([CanvasW], [CanvasH]). *)
Theorem Draw_image_has_canvas_bounds (o : Options) (w : World) (img : image_Image) :
  text_keeps_bounds L ->
  0 <= CanvasW o -> 0 <= CanvasH o ->
  fst (Draw o w) = Val (Some img, None) ->
  Bounds img = mkRect 0 0 (CanvasW o) (CanvasH o).
Proof.
  intros Ht HW HH Hrun.
  destruct (Draw_returns_canvas o w img None Hrun) as (dc & Hd & ->).
  destruct (Draw_canvas o w Ht) as (Ho & dc' & Hd' & HR).
  rewrite Hd in Hd'. injection Hd' as <-.
  cbn [gg.Image RGBA_Image Bounds]. rewrite HR. unfold image_Rect.
  rewrite !Z.min_l, !Z.max_r by lia. reflexivity.
Qed.







(** The run of [drawForeground]. *)
Lemma drawForeground_run (w : World) (o : Options) (dc : gg.Context) :
  opts (self w) = Some o -> ctx (self w) = Some dc ->
  let col := RGBA 0 0 0 (uint8_of_float (float64_mul 255 (Opacity o))) in
  let box := gg.DrawRectangle (float64 margin) (float64 margin)
               (float64 (CanvasW o) - float64 margin * 2)%Q
               (float64 (CanvasH o) - float64 margin * 2)%Q in
  drawForeground w
  = (Val None,
     mkWorld (mkPreview (Some o)
                (Some (exec gg.Fill (exec box (exec (gg.SetColor col) dc))))
                (remote (self w)))
             (trace w ++ [EvEnter ForegroundStage; EvDraw (gg.SetColor col);
                          EvDraw box; EvDraw gg.Fill])).
Proof.
  intros Ho Hd. open_world w Ho Hd. cbv zeta.
  unfold drawForeground. go. repeat rewrite <- app_assoc. reflexivity.
Qed.



(** X6.  When the background is an image reference and the resolver
    returns a nil buffer for it, stage 1 reports no error: it reads
    the buffer and fills the whole canvas with [defaultBgColor],
    opaque white, and the run goes on to the foreground. *)
Theorem nil_background_is_painted_white (o : Options) (w : World) (bufs : list slice) :
  rasterizes_rectangles L ->
  fetches_background o = true ->
  0 <= CanvasW o < 2 ^ 63 -> 0 <= CanvasH o < 2 ^ 63 ->
  GetAll (remote (self w)) (urlsOrPaths o) = Ok bufs ->
  nth_error bufs 2 = Some None ->
  exists dc1 rest,
    background_call o bufs (fetched o w)
    = (Val None,
       mkWorld (mkPreview (Some o) (Some dc1) (remote (self w)))
         (trace (fetched o w) ++
          [EvIndex 2; EvEnter BackgroundStage; EvDraw (gg.SetHexColor defaultBgColor);
           EvDraw (gg.DrawRectangle 0 0 (float64 (CanvasW o)) (float64 (CanvasH o)));
           EvDraw gg.Fill])) /\
    trace (snd (Draw o w))
    = trace w ++
      [EvCall (CallGetAll [AvaURL o; LogoURL o; Bg o]) None; EvIndex 2;
       EvEnter BackgroundStage; EvDraw (gg.SetHexColor defaultBgColor);
       EvDraw (gg.DrawRectangle 0 0 (float64 (CanvasW o)) (float64 (CanvasH o)));
       EvDraw gg.Fill; EvEnter ForegroundStage] ++ rest /\
    forall x y, 0 <= x < CanvasW o -> 0 <= y < CanvasH o ->
      Pix (gg.im dc1) x y = mkPix 255 255 255 255.
Proof.
  intros Hrast Hf HW HH Hget Hnil.
  unfold fetches_background in Hf. apply andb_true_iff in Hf. destruct Hf as [Hhex Hne].
  apply negb_true_iff in Hhex. apply negb_true_iff in Hne.
  assert (Hids : urlsOrPaths o = [AvaURL o; LogoURL o; Bg o]).
  { unfold urlsOrPaths, isBgHEX. rewrite Hhex, Hne. reflexivity. }
  assert (Hcol : bgColor o = defaultBgColor).
  { unfold bgColor, isBgHEX. rewrite Hhex. reflexivity. }
  assert (Hcall : background_call o bufs (fetched o w)
                  = drawBackground None defaultBgColor
                      (mkWorld (self (fetched o w))
                               (trace (fetched o w) ++ [EvIndex 2]))).
  { unfold background_call, isBgHEX. rewrite Hhex, Hne, Hcol. cbn [orb].
    apply (index_run bufs 2 None). exact Hnil. }
  pose proof (drawBackground_solid
                (mkWorld (self (fetched o w)) (trace (fetched o w) ++ [EvIndex 2]))
                o _ defaultBgColor eq_refl eq_refl) as Hrun.
  cbn [self trace remote] in Hrun.
  pose proof (Draw_after_background o w bufs Hget) as Hd.
  rewrite Hcall, Hrun in Hd. destruct Hd as [rest Hrest].
  eexists. exists rest. split; [ | split].
  - rewrite Hcall, Hrun. cbn [fetched self remote trace].
    repeat rewrite <- app_assoc. reflexivity.
  - rewrite Hrest. cbn [trace fetched]. rewrite Hids.
    repeat rewrite <- app_assoc. reflexivity.
  - intros x y Hx Hy. cbn [fetched self ctx].
    apply (solid_fill_pixels (CanvasW o) (CanvasH o) defaultBgColor 255 255 255 x y);
      try assumption; try lia. reflexivity.
Qed.

(** X7.  A buffer that [resize] returns decodes to the width and
    the height asked for; and [resize] calls nothing but
    [DecodeConfig] exactly when its input had them already. *)
Theorem resize_result_has_size (buf out : slice) (w h : Z) (wd : World) :
  thumbnail_has_size L ->
  fst (resize buf w h wd) = Val (Ok out) ->
  image_DecodeConfig (contents out) = Ok (w, h) /\
  (image_DecodeConfig (contents buf) = Ok (w, h) <-> 
   trace (snd (resize buf w h wd))
   = trace wd ++ [EvCall (CallDecodeConfig (contents buf)) None]).
Proof.
  intros Hthumb. unfold resize. go.
  destruct (image_DecodeConfig (contents buf)) as [[cw ch] | e] eqn:Ecfg; go;
    [ | discriminate].
  destruct ((cw =? w) && (ch =? h)) eqn:Esame; go.
  { intros H. injection H as <-.
    apply andb_true_iff in Esame. destruct Esame as [E1 E2].
    apply Z.eqb_eq in E1. apply Z.eqb_eq in E2. subst. split; [exact Ecfg | ].
    split; reflexivity. }
  assert (Hdiff : Ok (cw, ch) <> @Ok (Z * Z) (w, h)).
  { intros H. injection H as -> ->. rewrite !Z.eqb_refl in Esame. discriminate. }
  destruct (vips_NewImageFromBuffer (contents buf)) as [ref | e] eqn:Enew; go;
    [ | discriminate].
  destruct (vips_Thumbnail ref w h InterestingAttention) as [ref' | e] eqn:Eth; go;
    [ | discriminate].
  destruct (vips_Export ref') as [res | e] eqn:Eex; go; [ | discriminate].
  intros H. injection H as <-. split.
  - apply (Hthumb _ _ _ _ _ _ Enew Eth Eex).
  - split; [intros H; contradiction | ].
    intros H. repeat rewrite <- app_assoc in H. apply app_inv_head in H. discriminate H.
Qed.

(** X8.  [loadFont] does not depend on the size or on the state:
    for two sizes it makes the same library calls and returns the
    same error, or two faces.  A face it returns holds three fonts,
    parsed from the file asked for, the symbols file and the emoji
    file in that order, each at the size asked for. *)
Theorem loadFont_ignores_size (name : string) (p1 p2 : Q) (w1 w2 : World) :
  exists r1 r2 evs,
    loadFont name p1 w1 = (Val r1, mkWorld (self w1) (trace w1 ++ evs)) /\
    loadFont name p2 w2 = (Val r2, mkWorld (self w2) (trace w2 ++ evs)) /\
    error_of r1 = error_of r2 /\
    (forall f1, r1 = Ok f1 ->
       exists f2, r2 = Ok f2 /\
         map snd (faces f1) = map snd (faces f2) /\
         List.length (faces f1) = 3%nat /\
         Forall (fun entry => fst entry = mkTTFace (snd entry) p1) (faces f1) /\
         Forall (fun entry => fst entry = mkTTFace (snd entry) p2) (faces f2) /\
         Forall2 (fun file entry =>
                    exists buf, fonts_ReadFile file = Ok buf /\
                                truetype_Parse buf = Ok (snd entry))
                 (font_files name) (faces f1)).
Proof.
  unfold loadFont. go.
  destruct (fonts_ReadFile name) as [b1 | e] eqn:E1; go.
  2:{ do 3 eexists. repeat split; lists; try reflexivity. intros f H. discriminate H. }
  destruct (truetype_Parse b1) as [f1 | e] eqn:P1; go.
  2:{ do 3 eexists. repeat split; lists; try reflexivity. intros f H. discriminate H. }
  destruct (fonts_ReadFile symbolsFont) as [b2 | e] eqn:E2; go.
  2:{ do 3 eexists. repeat split; lists; try reflexivity. intros f H. discriminate H. }
  destruct (truetype_Parse b2) as [f2 | e] eqn:P2; go.
  2:{ do 3 eexists. repeat split; lists; try reflexivity. intros f H. discriminate H. }
  destruct (fonts_ReadFile emojiFont) as [b3 | e] eqn:E3; go.
  2:{ do 3 eexists. repeat split; lists; try reflexivity. intros f H. discriminate H. }
  destruct (truetype_Parse b3) as [f3 | e] eqn:P3; go.
  2:{ do 3 eexists. repeat split; lists; try reflexivity. intros f H. discriminate H. }
  do 3 eexists. split; [lists; reflexivity | ]. split; [lists; reflexivity | ].
  split; [reflexivity | ].
  intros f H. injection H as <-. eexists. split; [reflexivity | ].
  unfold AddTruetypeFace, font_files. cbn [faces app map snd List.length].
  repeat split; repeat constructor; eexists; cbn [snd]; eauto.
Qed.

(** The codepoints of the string drawn. *)
Lemma title_drawn_runes (title : string) :
  utf8.stringtoslicerune (title_drawn title)
  = if maxTitleLength <? utf8.RuneCountInString title
    then firstn 90 (utf8.stringtoslicerune title) ++ [0x2026]
    else utf8.stringtoslicerune title.
Proof.
  unfold title_drawn.
  destruct (maxTitleLength <? utf8.RuneCountInString title); [ | reflexivity].
  rewrite stringtoslicerune_encoded, ellipsis_rune; [reflexivity | ].
  apply Forall_firstn, stringtoslicerune_scalar.
Qed.

Lemma title_drawn_count (title : string) :
  utf8.RuneCountInString (title_drawn title)
  = Z.min (utf8.RuneCountInString title) (maxTitleLength + 1).
Proof.
  rewrite (RuneCountInString_length (title_drawn title)), title_drawn_runes.
  destruct (Z.ltb_spec maxTitleLength (utf8.RuneCountInString title)) as [H | H].
  - rewrite RuneCountInString_length in H. unfold maxTitleLength in *.
    rewrite length_app, firstn_length_le by lia. cbn [List.length].
    rewrite RuneCountInString_length. lia.
  - rewrite <- RuneCountInString_length. lia.
Qed.

(** Truncating twice is truncating once. *)
Lemma title_drawn_idempotent (title : string) :
  title_drawn (title_drawn title) = title_drawn title.
Proof.
  unfold title_drawn at 1.
  destruct (Z.ltb_spec maxTitleLength (utf8.RuneCountInString (title_drawn title)))
    as [H | H]; [ | reflexivity].
  rewrite title_drawn_count in H.
  assert (Hlong : maxTitleLength < utf8.RuneCountInString title) by lia.
  rewrite title_drawn_runes. unfold title_drawn.
  apply Z.ltb_lt in Hlong. rewrite Hlong. apply Z.ltb_lt in Hlong.
  rewrite RuneCountInString_length in Hlong. unfold maxTitleLength in Hlong.
  rewrite firstn_app, firstn_firstn, length_firstn.
  rewrite (Nat.min_l 90 (List.length (utf8.stringtoslicerune title))) by lia.
  rewrite Nat.min_id. change (90 - 90)%nat with 0%nat. cbn [firstn].
  rewrite app_nil_r. reflexivity.
Qed.

(** The run of [drawTitle] that loads its font. *)
Lemma drawTitle_draws (w : World) (o : Options) (dc : gg.Context) :
  opts (self w) = Some o -> ctx (self w) = Some dc ->
  fst (drawTitle w) = Val None ->
  exists pre,
    no_text pre = true /\
    trace (snd (drawTitle w))
    = trace w ++ pre ++ [EvDraw (title_call o (title_drawn (Title o)))].
Proof.
  intros Ho Hd. open_world w Ho Hd.
  unfold drawTitle, title_call, title_drawn. go.
  destruct (loadFont_spec textFont (TitleSize o)
              (mkWorld (mkPreview (Some o) (Some dc) rem) (tr ++ [EvEnter TitleStage])))
    as (r & evs & Hrun & Hlib & _ & _).
  rewrite Hrun. clear Hrun. cbn [self trace opts ctx remote].
  apply library_only_no_text in Hlib.
  destruct r as [font | e]; go; [ | discriminate].
  intros _.
  exists (EvEnter TitleStage :: evs
          ++ [EvDraw (gg.SetFontFace font); EvDraw (gg.SetColor color_White)]).
  split.
  { unfold no_text in *. cbn [forallb is_text negb andb].
    rewrite forallb_app, Hlib. reflexivity. }
  destruct (maxTitleLength <? utf8.RuneCountInString (Title o)) eqn:E; go.
  - rewrite slice_to_runes by exact E. go.
    repeat rewrite <- app_assoc. cbn [app]. repeat rewrite <- app_assoc. reflexivity.
  - repeat rewrite <- app_assoc. cbn [app]. repeat rewrite <- app_assoc. reflexivity.
Qed.

(** X9.  The string that [drawTitle] draws has the codepoints of
    the title up to 91 at most: its count is the smaller of the
    title's count and [maxTitleLength + 1].  Truncation is
    idempotent: a title that is itself a string drawn by [drawTitle]
    is drawn unchanged. *)
Theorem drawTitle_length_and_idempotence (w : World) (o : Options) (dc : gg.Context) :
  opts (self w) = Some o -> ctx (self w) = Some dc ->
  fst (drawTitle w) = Val None ->
  exists pre drawn,
    trace (snd (drawTitle w)) = trace w ++ pre ++ [EvDraw (title_call o drawn)] /\
    no_text pre = true /\
    utf8.RuneCountInString drawn
    = Z.min (utf8.RuneCountInString (Title o)) (maxTitleLength + 1) /\
    forall w2 o2 dc2,
      opts (self w2) = Some o2 -> ctx (self w2) = Some dc2 ->
      Title o2 = drawn -> fst (drawTitle w2) = Val None ->
      exists pre2,
        trace (snd (drawTitle w2)) = trace w2 ++ pre2 ++ [EvDraw (title_call o2 drawn)] /\
        no_text pre2 = true.
Proof.
  intros Ho Hd Hrun.
  destruct (drawTitle_draws w o dc Ho Hd Hrun) as (pre & Hpre & Htr).
  exists pre, (title_drawn (Title o)). split; [exact Htr | ]. split; [exact Hpre | ].
  split; [apply title_drawn_count | ].
  intros w2 o2 dc2 Ho2 Hd2 Ht Hrun2.
  destruct (drawTitle_draws w2 o2 dc2 Ho2 Hd2 Hrun2) as (pre2 & Hpre2 & Htr2).
  exists pre2. split; [ | exact Hpre2].
  rewrite Htr2, Ht, title_drawn_idempotent. reflexivity.
Qed.

Lemma int_of_float_zero (q : Q) : int_of_float (0 * q) = 0.
Proof. unfold int_of_float. cbn [Qnum Qden Qmult]. reflexivity. Qed.

Lemma int_of_float_half (d : Z) : int_of_float ((1 # 2) * float64 d) = Z.quot d 2.
Proof.
  unfold int_of_float, float64, inject_Z. cbn [Qnum Qden Qmult].
  rewrite Z.mul_1_l. reflexivity.
Qed.

Lemma int_of_float_centre (d : Z) :
  0 <= d ->
  int_of_float (float64 padding + float64 (d + border) / 2) = padding + border / 2 + Z.quot d 2.
Proof.
  intros Hd. unfold int_of_float, float64, inject_Z, Qdiv, Qinv, Qplus, Qmult, padding, border.
  cbn [Qnum Qden]. change (Z.pos (1 * (1 * 2))) with 2.
  change (48 + 8 / 2) with 52.
  rewrite !Z.quot_div_nonneg by lia. Z.div_mod_to_equations. lia.
Qed.

(** The buffers that the two transforms return. *)
Lemma resize_size (buf out : slice) (w h : Z) (wd : World) :
  thumbnail_has_size L ->
  fst (resize buf w h wd) = Val (Ok out) ->
  image_DecodeConfig (contents out) = Ok (w, h).
Proof.
  intros Hthumb. unfold resize. go.
  destruct (image_DecodeConfig (contents buf)) as [[cw ch] | e] eqn:Ecfg; go;
    [ | discriminate].
  destruct ((cw =? w) && (ch =? h)) eqn:Esame; go.
  { intros H. injection H as <-.
    apply andb_true_iff in Esame. destruct Esame as [E1 E2].
    apply Z.eqb_eq in E1. apply Z.eqb_eq in E2. subst. exact Ecfg. }
  destruct (vips_NewImageFromBuffer (contents buf)) as [ref | e] eqn:Enew; go;
    [ | discriminate].
  destruct (vips_Thumbnail ref w h InterestingAttention) as [ref' | e] eqn:Eth; go;
    [ | discriminate].
  destruct (vips_Export ref') as [res | e] eqn:Eex; go; [ | discriminate].
  intros H. injection H as <-. apply (Hthumb _ _ _ _ _ _ Enew Eth Eex).
Qed.


(** An image drawn by its anchor is an image drawn at its corner. *)
Lemma anchored_at (img : image_Image) (x y x' y' : Z) (ax ay : Q) (dc : gg.Context) :
  is_int x' -> is_int y' ->
  int_sub x (int_of_float (ax * float64 (Dx (Bounds img)))) = x' ->
  int_sub y (int_of_float (ay * float64 (Dy (Bounds img)))) = y' ->
  exec (gg.DrawImageAnchored img x y ax ay) dc = exec (gg.DrawImage img x' y') dc.
Proof.
  intros Hx Hy Ex Ey. unfold exec. cbn [gg.exec]. unfold gg.exec_DrawImageAnchored.
  rewrite Ex, Ey, !int_of_float_zero.
  unfold int_sub. rewrite !Z.sub_0_r, !wrap64_int by assumption. reflexivity.
Qed.

Lemma square_Dx (d : Z) : 0 <= d < 2 ^ 63 -> Dx (mkRect 0 0 d d) = d /\ Dy (mkRect 0 0 d d) = d.
Proof.
  intros H. unfold Dx, Dy, int_sub. cbn [MinX MinY MaxX MaxY].
  rewrite Z.sub_0_r, wrap64_int by (unfold is_int; lia). auto.
Qed.

(** X11.  [drawAvatar] draws the masked avatar, a square of side
    [AvaD], with its top left corner at [padding + border / 2] on
    both axes, for odd and even [AvaD] alike, over the canvas that
    carries the border ring. *)
Theorem drawAvatar_places_image (w : World) (o : Options) (dc : gg.Context)
    (avaBuf : slice) :
  thumbnail_has_size L -> decode_agrees L ->
  opts (self w) = Some o -> ctx (self w) = Some dc ->
  0 <= AvaD o < 2 ^ 31 ->
  fst (drawAvatar avaBuf w) = Val None ->
  exists img,
    Bounds (circled img) = mkRect 0 0 (AvaD o) (AvaD o) /\
    ctx (self (snd (drawAvatar avaBuf w)))
    = Some (exec (gg.DrawImage (circled img)
                    (padding + border / 2) (padding + border / 2)) (ringed o dc)).
Proof.
  intros Hthumb Hdec Ho Hd HD. open_world w Ho Hd.
  unfold drawAvatar, circle. go.
  match goal with
  | |- context [resize ?b ?x ?y ?wd] =>
    destruct (resize_spec b x y wd) as (rr & evs & Hrun & _);
    pose proof (fun out => resize_size b out x y wd Hthumb) as Hsize;
    rewrite Hrun in Hsize |- *; cbn [fst self trace] in Hsize |- *
  end.
  destruct rr as [v | e]; go; [ | discriminate].
  specialize (Hsize v eq_refl).
  destruct (image_Decode (contents v)) as [img | e] eqn:Edec; go; [ | discriminate].
  intros _.
  destruct (Hdec _ _ Edec) as (iw & ih & Hcfg & Hb & _ & _).
  rewrite Hsize in Hcfg. injection Hcfg as <- <-.
  exists img. split; [exact Hb | ].
  f_equal. fold (ringed o dc).
  destruct (square_Dx (AvaD o)) as [HDx HDy]; [lia | ].
  assert (Hadd : int_add (AvaD o) border = AvaD o + border).
  { unfold int_add. apply wrap64_int. unfold is_int, border. lia. }
  assert (Hc : int_sub (int_of_float (float64 padding
                                      + float64 (int_add (AvaD o) border) / 2))
                       (Z.quot (AvaD o) 2)
               = padding + border / 2).
  { rewrite Hadd, int_of_float_centre by lia. unfold int_sub.
    replace (padding + border / 2 + Z.quot (AvaD o) 2 - Z.quot (AvaD o) 2)
      with (padding + border / 2) by ring.
    apply wrap64_int. unfold is_int. cbn. lia. }
  apply anchored_at.
  - unfold is_int. cbn. lia.
  - unfold is_int. cbn. lia.
  - change (Bounds (circled img)) with (Bounds img).
    rewrite Hb, HDx, int_of_float_half. exact Hc.
  - change (Bounds (circled img)) with (Bounds img).
    rewrite Hb, HDy, int_of_float_half. exact Hc.
Qed.

(** The pixels under an image drawn at the origin of a context
    without a clip mask. *)
Lemma drawn_image_pixel (img : image_Image) (dc : gg.Context) (w h x y : Z) :
  gg.mask dc = None -> Bounds img = mkRect 0 0 w h ->
  inRect (Rect (gg.im dc)) x y = true -> 0 <= x < w -> 0 <= y < h ->
  Pix (gg.im (exec (gg.DrawImage img 0 0) dc)) x y
  = gg.paintOver (Color_RGBA (At img x y)) 0xffff (Pix (gg.im dc) x y).
Proof.
  intros Hm Hb Hin Hx Hy. unfold exec. cbn [gg.exec]. unfold gg.exec_DrawImageAnchored.
  rewrite !int_of_float_zero. change (int_sub 0 0) with 0.
  unfold setPix. cbn [gg.im Pix]. rewrite Hin, Hb, Hm. cbn [MinX MinY].
  rewrite !Z.sub_0_r, !Z.add_0_r.
  unfold inRect. cbn [MinX MinY MaxX MaxY].
  replace ((0 <=? x) && (x <? w) && (0 <=? y) && (y <? h)) with true; [reflexivity | ].
  symmetry. repeat rewrite andb_true_iff. rewrite !Z.leb_le, !Z.ltb_lt. lia.
Qed.

(** X12.  A background image covers the canvas: the image that
    stage 1 draws has the size of the canvas and is drawn at the
    origin, so that every pixel of the canvas is the image's pixel
    painted over what was there. *)
Theorem background_image_covers_canvas (w : World) (o : Options) (dc : gg.Context)
    (b : bytes) (col : string) :
  thumbnail_has_size L -> decode_agrees L ->
  opts (self w) = Some o -> ctx (self w) = Some dc -> gg.mask dc = None ->
  fst (drawBackground (Some b) col w) = Val None ->
  exists img dc',
    ctx (self (snd (drawBackground (Some b) col w))) = Some dc' /\
    dc' = exec (gg.DrawImage img 0 0) dc /\
    Bounds img = mkRect 0 0 (CanvasW o) (CanvasH o) /\
    forall x y,
      inRect (Rect (gg.im dc)) x y = true ->
      0 <= x < CanvasW o -> 0 <= y < CanvasH o ->
      Pix (gg.im dc') x y
      = gg.paintOver (Color_RGBA (At img x y)) 0xffff (Pix (gg.im dc) x y).
Proof.
  intros Hthumb Hdec Ho Hd Hm.
  destruct (resize_spec (Some b) (CanvasW o) (CanvasH o)
              (mkWorld (self w) (trace w ++ [EvEnter BackgroundStage])))
    as (rr & evs & Hrun & _).
  pose proof (fun out => resize_size (Some b) out (CanvasW o) (CanvasH o)
                           (mkWorld (self w) (trace w ++ [EvEnter BackgroundStage]))
                           Hthumb) as Hsize.
  rewrite Hrun in Hsize. cbn [fst self trace] in Hsize, Hrun.
  rewrite (drawBackground_image w o dc b col rr evs Ho Hd Hrun).
  destruct rr as [bres | e]; [ | discriminate].
  specialize (Hsize bres eq_refl).
  destruct (image_Decode (contents bres)) as [img | e] eqn:Edec; [ | discriminate].
  intros _. cbn [snd self ctx].
  destruct (Hdec _ _ Edec) as (iw & ih & Hcfg & Hb & _ & _).
  rewrite Hsize in Hcfg. injection Hcfg as <- <-.
  exists img. eexists. split; [reflexivity | ]. split; [reflexivity | ].
  split; [exact Hb | ].
  intros x y Hin Hx Hy. apply (drawn_image_pixel img dc (CanvasW o) (CanvasH o)); assumption.
Qed.



(** *** What [hexRe] accepts *)

Lemma hexGroup_spec (s rest : string) :
  hexGroup s = Some rest <->
  exists a b c,
    s = String a (String b (String c rest)) /\
    isHexDigit a = true /\ isHexDigit b = true /\ isHexDigit c = true.
Proof.
  split.
  - destruct s as [ | a [ | b [ | c r]]]; try discriminate. cbn [hexGroup].
    destruct (isHexDigit a) eqn:Ea; [ | discriminate].
    destruct (isHexDigit b) eqn:Eb; [ | discriminate].
    destruct (isHexDigit c) eqn:Ec; [ | discriminate].
    cbn [andb]. intros H. injection H as <-. exists a, b, c. auto.
  - intros (a & b & c & -> & Ha & Hb & Hc). cbn [hexGroup].
    rewrite Ha, Hb, Hc. reflexivity.
Qed.

(** X14.  What [hexRe] accepts: exactly the strings made of [#] and
    three or six hexadecimal digits.  Four or eight digits, as in a
    colour with an alpha channel, are not accepted. *)
Theorem hexRe_accepts_exactly (s : string) :
  hexRe_Match s = true <->
  exists ds,
    s = String "#" (string_of_list_ascii ds) /\
    (List.length ds = 3%nat \/ List.length ds = 6%nat) /\
    forallb isHexDigit ds = true.
Proof.
  split.
  - destruct s as [ | c rest]; [discriminate | ]. cbn [hexRe_Match].
    destruct (Ascii.eqb_spec c "#") as [-> | ]; [ | discriminate].
    destruct (hexGroup rest) as [rest1 | ] eqn:E1; [ | discriminate].
    apply hexGroup_spec in E1. destruct E1 as (a1 & a2 & a3 & -> & H1 & H2 & H3).
    destruct rest1 as [ | d rest2].
    + intros _. exists [a1; a2; a3]. cbn. rewrite H1, H2, H3. auto.
    + destruct (hexGroup (String d rest2)) as [rest3 | ] eqn:E2; [ | discriminate].
      destruct rest3; [ | discriminate]. intros _.
      apply hexGroup_spec in E2. destruct E2 as (b1 & b2 & b3 & E2 & G1 & G2 & G3).
      rewrite E2. exists [a1; a2; a3; b1; b2; b3]. cbn.
      rewrite H1, H2, H3, G1, G2, G3. auto.
  - intros (ds & -> & Hlen & Hds). cbn [hexRe_Match]. rewrite Ascii.eqb_refl.
    destruct Hlen as [Hlen | Hlen].
    + destruct ds as [ | a [ | b [ | c [ | ? ?]]]]; try discriminate Hlen.
      cbn in Hds |- *. repeat (apply andb_true_iff in Hds; destruct Hds as [? Hds]).
      repeat (match goal with H : isHexDigit _ = true |- _ => rewrite H; clear H end;
              cbn [andb hexGroup]).
      reflexivity.
    + destruct ds as [ | a [ | b [ | c [ | d [ | e [ | f [ | ? ?]]]]]]];
        try discriminate Hlen.
      cbn in Hds |- *. repeat (apply andb_true_iff in Hds; destruct Hds as [? Hds]).
      repeat (match goal with H : isHexDigit _ = true |- _ => rewrite H; clear H end;
              cbn [andb hexGroup]).
      reflexivity.
Qed.

(** *** A fetch that returns no buffer *)

(** X13.  When the resolver returns no buffer and no error, [Draw]
    panics: it returns neither an image nor an error.  With an image
    background the panic is the read of [imgBufs[2]], before anything
    is drawn; otherwise the background and the foreground are painted
    and the panic is the read of [imgBufs[0]]. *)
Theorem Draw_panics_on_empty_fetch (o : Options) (w : World) :
  GetAll (remote (self w)) (urlsOrPaths o) = Ok [] ->
  fst (Draw o w) = Panic /\
  trace (snd (Draw o w))
  = trace w ++ EvCall (CallGetAll (urlsOrPaths o)) None :: events_before_panic o.
Proof.
  intros Hget.
  assert (Hrun : exists p,
            Draw o w
            = (Panic,
               mkWorld p (trace w ++ EvCall (CallGetAll (urlsOrPaths o)) None
                                  :: events_before_panic o))).
  { unfold Draw.
    match goal with
    | |- context [bind _ (fun _ => bind _ (fun _ => bind _ (fun o' => bind _ (fun r =>
           bind _ (@?K o')))))] =>
      rewrite (fetch_run o _ (fun o' imgBufs => K o' imgBufs) w)
    end.
    rewrite Hget. cbv beta iota. cbn [error_of].
    unfold events_before_panic, fetches_background, isBgHEX.
    destruct (hexRe_Match (Bg o) || String.eqb (Bg o) EmptyString) eqn:Ebg.
    - assert (Hf : negb (hexRe_Match (Bg o)) && negb (String.eqb (Bg o) EmptyString) = false).
      { destruct (hexRe_Match (Bg o)); [reflexivity | ].
        cbn [orb] in Ebg. rewrite Ebg. reflexivity. }
      rewrite Hf. fold (fetched o w). unfold bind at 1.
      rewrite (drawBackground_solid (fetched o w) o _ (bgColor o) eq_refl eq_refl).
      cbv beta iota. unfold bind at 1.
      match goal with
      | |- context [drawForeground ?w0] =>
        rewrite (drawForeground_run w0 o _ eq_refl eq_refl)
      end.
      cbv beta iota zeta. unfold index. go. cbn [nth_error fetched trace]. go.
      eexists. repeat rewrite <- app_assoc. reflexivity.
    - assert (Hf : negb (hexRe_Match (Bg o)) && negb (String.eqb (Bg o) EmptyString) = true).
      { destruct (hexRe_Match (Bg o)); [discriminate | ].
        cbn [orb] in Ebg. rewrite Ebg. reflexivity. }
      rewrite Hf. unfold index. go. cbn [nth_error]. go.
      eexists. repeat rewrite <- app_assoc. reflexivity. }
  destruct Hrun as [p Hrun]. rewrite Hrun. split; reflexivity.
Qed.

Ltac run_helper :=
  match goal with
  | |- context [resize ?b ?x ?y ?wd] =>
    let rr := fresh "rr" in let evs := fresh "evs" in let Hrun := fresh "Hrun" in
    destruct (resize_spec b x y wd) as (rr & evs & Hrun & _);
    rewrite Hrun; clear Hrun; cbn [fst snd self trace]; destruct rr
  | |- context [scale ?b ?y ?wd] =>
    let rr := fresh "rr" in let evs := fresh "evs" in let Hrun := fresh "Hrun" in
    destruct (scale_spec b y wd) as (rr & evs & Hrun & _);
    rewrite Hrun; clear Hrun; cbn [fst snd self trace]; destruct rr
  | |- context [loadFont ?n ?p ?wd] =>
    let rr := fresh "rr" in let evs := fresh "evs" in let Hrun := fresh "Hrun" in
    destruct (loadFont_spec n p wd) as (rr & evs & Hrun & _);
    rewrite Hrun; clear Hrun; cbn [fst snd self trace]; destruct rr
  end.

(** X15.  A stage that fails has drawn nothing: the background, the
    author, the title and the logo leave the canvas as it was when
    they return an error.  The avatar stage is the exception: when
    it fails, the border ring is already painted. *)
Theorem failed_stage_leaves_canvas (w : World) (o : Options) (dc : gg.Context) :
  opts (self w) = Some o -> ctx (self w) = Some dc ->
  (forall b col e,
     fst (drawBackground b col w) = Val (Some e) ->
     ctx (self (snd (drawBackground b col w))) = Some dc) /\
  (forall e,
     fst (drawAuthor w) = Val (Some e) -> ctx (self (snd (drawAuthor w))) = Some dc) /\
  (forall e,
     fst (drawTitle w) = Val (Some e) -> ctx (self (snd (drawTitle w))) = Some dc) /\
  (forall b e,
     fst (drawLogo b w) = Val (Some e) -> ctx (self (snd (drawLogo b w))) = Some dc) /\
  (forall b e,
     fst (drawAvatar b w) = Val (Some e) ->
     ctx (self (snd (drawAvatar b w))) = Some (ringed o dc)).
Proof.
  intros Ho Hd. open_world w Ho Hd. repeat split.
  - intros b col e. unfold drawBackground. destruct b as [b | ]; go; [ | discriminate].
    run_helper; go; [ | reflexivity].
    destruct (image_Decode (contents v)); go; [discriminate | reflexivity].
  - intros e. unfold drawAuthor. go. run_helper; go; [discriminate | reflexivity].
  - intros e. unfold drawTitle. go. run_helper; go; [ | reflexivity].
    destruct (maxTitleLength <? utf8.RuneCountInString (Title o)) eqn:E; go.
    + rewrite slice_to_runes by exact E. go. discriminate.
    + discriminate.
  - intros b e. unfold drawLogo. go. run_helper; go; [ | reflexivity].
    destruct (image_Decode (contents v)); go; [discriminate | reflexivity].
  - intros b e. unfold drawAvatar, circle. go. run_helper; go; [ | reflexivity].
    destruct (image_Decode (contents v)); go; [discriminate | reflexivity].
Qed.

End Verification.

(** * The small instance meets the contracts *)

#[local] Existing Instance demo.libs.

Lemma whole_float64 (z : Z) : demo.whole (float64 z) = Some z.
Proof. reflexivity. Qed.

Ltac bools :=
  repeat rewrite andb_true_iff; rewrite ?Z.leb_le, ?Z.ltb_lt; lia.

Lemma demo_rectangles : rasterizes_rectangles demo.libs.
Proof.
  intros x0 y0 rw rh w h x y Hx Hy Hrx Hry.
  cbn [rasterize demo.libs]. unfold demo.rasterize.
  replace ((0 <=? x) && (x <? w) && (0 <=? y) && (y <? h)) with true
    by (symmetry; bools).
  cbn [fold_right demo.cover]. rewrite !whole_float64.
  replace ((x0 <=? x) && (x <? x0 + rw) && (y0 <=? y) && (y <? y0 + rh)) with true
    by (symmetry; bools).
  reflexivity.
Qed.

(** A pixel strictly inside a circle is not strictly outside it. *)
Lemma inside_not_outside (cx cy r x y : Z) :
  strictlyInside cx cy r x y = true -> strictlyOutside cx cy r x y = false.
Proof.
  unfold strictlyInside, strictlyOutside. cbn [forallb fst snd].
  rewrite !andb_true_iff, !Z.ltb_lt. intros (H1 & H2 & H3 & H4 & _).
  apply Z.ltb_ge. unfold clamp, sq in *.
  destruct (Z.ltb_spec cx x), (Z.ltb_spec (x + 1) cx),
           (Z.ltb_spec cy y), (Z.ltb_spec (y + 1) cy); nia.
Qed.

Lemma demo_circles : rasterizes_circles demo.libs.
Proof.
  intros cx cy r w h x y. cbn [rasterize demo.libs]. unfold demo.rasterize. split.
  - intros Hx Hy Hin.
    replace ((0 <=? x) && (x <? w) && (0 <=? y) && (y <? h)) with true
      by (symmetry; bools).
    cbn [fold_right demo.cover]. rewrite !whole_float64.
    rewrite (inside_not_outside _ _ _ _ _ Hin), Hin. reflexivity.
  - intros Hout.
    destruct ((0 <=? x) && (x <? w) && (0 <=? y) && (y <? h)); [ | reflexivity].
    cbn [fold_right demo.cover]. rewrite !whole_float64, Hout. reflexivity.
Qed.

Lemma dim_of_N (n : Z) (b : Byte.byte) :
  0 <= n -> Byte.of_N (Z.to_N n) = Some b -> demo.dim b = n.
Proof.
  intros Hn Hb. unfold demo.dim. apply Byte.to_of_N in Hb. rewrite Hb. apply Z2N.id. exact Hn.
Qed.

Lemma demo_export (ref : Z * Z) (out : bytes) :
  demo.Export ref = Ok out -> demo.DecodeConfig out = Ok ref.
Proof.
  destruct ref as [a b]. unfold demo.Export. cbn [fst snd].
  destruct ((0 <=? a) && (0 <=? b)) eqn:E; [ | discriminate].
  apply andb_true_iff in E. destruct E as [Ea Eb].
  apply Z.leb_le in Ea. apply Z.leb_le in Eb.
  destruct (Byte.of_N (Z.to_N a)) as [ba | ] eqn:Ha; [ | discriminate].
  destruct (Byte.of_N (Z.to_N b)) as [bb | ] eqn:Hb; [ | discriminate].
  intros H. injection H as <-. cbn [demo.DecodeConfig].
  now rewrite (dim_of_N a ba Ea Ha), (dim_of_N b bb Eb Hb).
Qed.

Lemma demo_thumbnails : thumbnail_has_size demo.libs.
Proof.
  intros buf ref w h ref' out _ Hth Hex.
  cbn [vips_Thumbnail vips_Export image_DecodeConfig demo.libs] in *.
  unfold demo.Thumbnail in Hth.
  destruct ((0 <? w) && (0 <? h)); [ | discriminate].
  injection Hth as <-. apply demo_export. exact Hex.
Qed.



Lemma demo_same_length : same_length demo.resolver.
Proof.
  intros ids bufs H. cbn [GetAll demo.resolver] in H. injection H as <-.
  apply length_map.
Qed.

(** * The theorems at the sample inputs *)

Lemma drawTitle_truncates_witness :
  (opts (self (demo.stage_world demo.wordy)) = Some demo.wordy /\
   ctx (self (demo.stage_world demo.wordy)) = Some (gg.NewContext 4 2) /\
   fontError textFont = None /\
   valid_utf8 (Title demo.wordy) /\
   maxTitleLength
   < Z.of_nat (List.length (utf8.stringtoslicerune (Title demo.wordy)))) /\
  exists r w' pre,
    drawTitle (demo.stage_world demo.wordy) = (Val r, w') /\ no_text pre = true /\
    (fontError textFont = None -> r = None) /\
    match r with
    | Some e =>
      trace w' = trace (demo.stage_world demo.wordy) ++ pre /\
      exists cause,
        fontError textFont = Some cause /\
        e = Errorf "could not load a font face" cause
    | None =>
      exists drawn,
        trace w'
        = trace (demo.stage_world demo.wordy) ++ pre ++
          [EvDraw (gg.DrawStringWrapped drawn (float64 padding)
                     (float64 padding * 2 + float64 (AvaD demo.wordy))%Q 0 0
                     (float64 (CanvasW demo.wordy) - float64 padding
                      - float64 margin * 2)%Q
                     (12 # 10) gg.AlignLeft)] /\
        title_policy (Title demo.wordy) drawn /\
        (valid_utf8 (Title demo.wordy) ->
         maxTitleLength
         < Z.of_nat (List.length (utf8.stringtoslicerune (Title demo.wordy))) ->
         exists p q : string,
           Title demo.wordy = (p ++ q)%string /\ drawn = (p ++ ellipsis)%string /\
           utf8.stringtoslicerune p
           = firstn 90 (utf8.stringtoslicerune (Title demo.wordy)))
    end.
Proof.
  split.
  - repeat split; try reflexivity; vm_compute; reflexivity.
  - apply (drawTitle_truncates (demo.stage_world demo.wordy) demo.wordy
             (gg.NewContext 4 2)); reflexivity.
Defined.

Lemma Draw_error_wraps_cause_witness :
  fst (Draw demo.broken demo.world)
  = Val (None, Some (Errorf "could not resize the avatar"
                            (LibError "image: unknown format"))) /\
  exists msg cause pre c,
    fst (Draw demo.broken demo.world) = Val (None, Some (Errorf msg cause)) /\
    trace (snd (Draw demo.broken demo.world))
    = trace demo.world ++ pre ++ [EvCall c (Some cause)] /\
    clean pre = true /\
    ((c = CallGetAll (urlsOrPaths demo.broken) /\
      msg = "could not get an image"%string /\ stages_of pre = []) \/
     (exists n st,
        stages_of pre = firstn (S n) stage_order /\
        nth_error stage_order n = Some st /\
        stage_of_message msg = Some st)).
Proof.
  assert (H : fst (Draw demo.broken demo.world)
              = Val (None, Some (Errorf "could not resize the avatar"
                                        (LibError "image: unknown format"))))
    by (vm_compute; reflexivity).
  split; [exact H | ].
  destruct (Draw_error_wraps_cause demo.broken demo.world)
    as (evs & Htr & [[_ Hno] | (msg & cause & pre & c & Hout & Hevs & Hrest)]).
  - exfalso.
    exact (Hno None (Errorf "could not resize the avatar"
                            (LibError "image: unknown format")) H).
  - exists msg, cause, pre, c. split; [exact Hout | ].
    split; [rewrite Htr, Hevs; reflexivity | exact Hrest].
Defined.

Lemma hex_background_fills_canvas_witness :
  (rasterizes_rectangles demo.libs /\ hexRe_Match (Bg demo.solid) = true /\
   GetAll (remote (self demo.world)) (urlsOrPaths demo.solid)
   = Ok (map demo.fetch ["ava"; "logo"]%string)) /\
  exists r g b dc1 rest,
    gg.parseHexColor (Bg demo.solid) = (r, g, b, 255) /\
    background_call demo.solid (map demo.fetch ["ava"; "logo"]%string)
                    (fetched demo.solid demo.world)
    = (Val None,
       mkWorld (mkPreview (Some demo.solid) (Some dc1) (remote (self demo.world)))
         (trace (fetched demo.solid demo.world) ++
          [EvEnter BackgroundStage; EvDraw (gg.SetHexColor (Bg demo.solid));
           EvDraw (gg.DrawRectangle 0 0 (float64 (CanvasW demo.solid))
                                    (float64 (CanvasH demo.solid)));
           EvDraw gg.Fill])) /\
    trace (snd (Draw demo.solid demo.world))
    = trace demo.world ++
      [EvCall (CallGetAll [AvaURL demo.solid; LogoURL demo.solid]) None;
       EvEnter BackgroundStage; EvDraw (gg.SetHexColor (Bg demo.solid));
       EvDraw (gg.DrawRectangle 0 0 (float64 (CanvasW demo.solid))
                                (float64 (CanvasH demo.solid)));
       EvDraw gg.Fill; EvEnter ForegroundStage] ++ rest /\
    forall x y, 0 <= x < CanvasW demo.solid -> 0 <= y < CanvasH demo.solid ->
      Pix (gg.im dc1) x y = mkPix r g b 255.
Proof.
  split.
  - split; [exact demo_rectangles | split; reflexivity].
  - apply (hex_background_fills_canvas demo.solid demo.world
             (map demo.fetch ["ava"; "logo"]%string)).
    + exact demo_rectangles.
    + reflexivity.
    + change (0 <= 4 < 2 ^ 63). lia.
    + change (0 <= 2 < 2 ^ 63). lia.
    + reflexivity.
Defined.

Lemma resize_idempotent_witness :
  (thumbnail_has_size demo.libs /\
   fst (resize (Some [Byte.x03; Byte.x03]) 4 2 demo.world)
   = Val (Ok (Some [Byte.x04; Byte.x02]))) /\
  resize (Some [Byte.x04; Byte.x02]) 4 2 demo.world
  = (Val (Ok (Some [Byte.x04; Byte.x02])),
     mkWorld (self demo.world)
       (trace demo.world
        ++ [EvCall (CallDecodeConfig (contents (Some [Byte.x04; Byte.x02]))) None])).
Proof.
  assert (H : fst (resize (Some [Byte.x03; Byte.x03]) 4 2 demo.world)
              = Val (Ok (Some [Byte.x04; Byte.x02])))
    by (vm_compute; reflexivity).
  split; [split; [exact demo_thumbnails | exact H] | ].
  exact (proj2 (resize_idempotent (Some [Byte.x03; Byte.x03]) 4 2 demo.world
                  demo_thumbnails)
               (Some [Byte.x04; Byte.x02]) demo.world H).
Defined.

Lemma circle_masks_alpha_witness :
  (rasterizes_circles demo.libs /\
   inRect (Bounds demo.deep) 3 3 = true /\ strictlyInside 4 4 4 3 3 = true /\
   strictlyOutside 4 4 4 0 0 = true) /\
  circle demo.deep demo.world
  = (Val (circled demo.deep),
     mkWorld (self demo.world) (trace demo.world ++ [EvLog LogCircling])) /\
  Bounds (circled demo.deep) = Bounds demo.deep /\
  forall x y,
    (inRect (Bounds demo.deep) x y = false ->
     At (circled demo.deep) x y = RGBA 0 0 0 0) /\
    (strictlyOutside 4 4 4 x y = true ->
     a16 (Color_RGBA (At (circled demo.deep) x y)) = 0) /\
    (inRect (Bounds demo.deep) x y = true -> strictlyInside 4 4 4 x y = true ->
     0 <= a16 (Color_RGBA (At demo.deep x y)) <= 0xffff ->
     a16 (Color_RGBA (At (circled demo.deep) x y))
     = Z.shiftr (a16 (Color_RGBA (At demo.deep x y))) 8 * 0x101).
Proof.
  split.
  - split; [exact demo_circles | repeat split; reflexivity].
  - apply (circle_masks_alpha demo.deep demo.world).
    + exact demo_circles.
    + reflexivity.
    + reflexivity.
    + change (0 <= 8 < 2 ^ 63). lia.
    + change (0 <= 8 < 2 ^ 63). lia.
Defined.

Lemma drawAvatar_border_radius_witness :
  (opts (self (demo.stage_world demo.odd)) = Some demo.odd /\
   AvaD demo.odd = 81 /\ Z.odd (AvaD demo.odd) = true) /\
  exists c rad rest,
    trace (snd (drawAvatar (Some [Byte.x03; Byte.x03]) (demo.stage_world demo.odd)))
    = trace (demo.stage_world demo.odd)
      ++ [EvEnter AvatarStage; EvDraw (gg.DrawCircle c c rad)] ++ rest /\
    (c == float64 padding + float64 (AvaD demo.odd + border) / 2)%Q /\
    (rad == c - float64 padding - (1 # 2))%Q.
Proof.
  split; [repeat split | ].
  destruct (drawAvatar_border_radius (demo.stage_world demo.odd) demo.odd
              (gg.NewContext 4 2) (Some [Byte.x03; Byte.x03]) eq_refl eq_refl)
    as (c & rad & rest & Ht & Hc & _ & Hodd).
  - change (0 <= 81 < 2 ^ 52). lia.
  - exists c, rad, rest. split; [exact Ht | ]. split; [exact Hc | ].
    apply Hodd. reflexivity.
Defined.

Lemma background_dispatch_witness :
  (hexRe_Match (Bg demo.pictured) = false /\
   GetAll (remote (self demo.world)) (urlsOrPaths demo.pictured)
   = Ok (map demo.fetch ["ava"; "logo"; "bg"]%string) /\
   Bg demo.pictured <> EmptyString /\
   nth_error (map demo.fetch ["ava"; "logo"; "bg"]%string) 2
   = Some (Some [Byte.x04; Byte.x02])) /\
  urlsOrPaths demo.pictured
  = [AvaURL demo.pictured; LogoURL demo.pictured; Bg demo.pictured] /\
  exists r w1 rr evs tail,
    resize (Some [Byte.x04; Byte.x02]) (CanvasW demo.pictured) (CanvasH demo.pictured)
           (mkWorld (self (fetched demo.pictured demo.world))
                    (trace (fetched demo.pictured demo.world)
                     ++ [EvIndex 2; EvEnter BackgroundStage]))
    = (Val rr,
       mkWorld (self (fetched demo.pictured demo.world))
               ((trace (fetched demo.pictured demo.world)
                 ++ [EvIndex 2; EvEnter BackgroundStage]) ++ evs)) /\
    hd_error evs
    = Some (EvCall (CallDecodeConfig [Byte.x04; Byte.x02])
                   (error_of (image_DecodeConfig [Byte.x04; Byte.x02]))) /\
    background_call demo.pictured (map demo.fetch ["ava"; "logo"; "bg"]%string)
                    (fetched demo.pictured demo.world)
    = (Val r, w1) /\
    trace w1
    = (trace (fetched demo.pictured demo.world)
       ++ [EvIndex 2; EvEnter BackgroundStage]) ++ evs ++ tail /\
    no_fill (evs ++ tail) = true /\
    match r with
    | Some e => Draw demo.pictured demo.world = (Val (None, Some e), w1)
    | None =>
      exists rest,
        trace (snd (Draw demo.pictured demo.world))
        = trace w1 ++ EvEnter ForegroundStage :: rest
    end /\
    match rr with
    | Err e => r = Some (Errorf "could not resize the background" e) /\ tail = []
    | Ok bres =>
      match image_Decode (contents bres) with
      | Err e =>
        r = Some (Errorf "could not decode the background" e) /\
        tail = [EvCall (CallDecode (contents bres)) (Some e)]
      | Ok img =>
        r = None /\
        tail = [EvCall (CallDecode (contents bres)) None;
                EvDraw (gg.DrawImage img 0 0)] /\
        ctx (self w1)
        = Some (exec (gg.DrawImage img 0 0)
                     (gg.NewContext (CanvasW demo.pictured) (CanvasH demo.pictured)))
      end
    end.
Proof.
  assert (Hne : Bg demo.pictured <> EmptyString)
    by (apply String.eqb_neq; reflexivity).
  split; [repeat split; [exact Hne] | ].
  destruct (proj2 (background_dispatch demo.pictured demo.world
                     (map demo.fetch ["ava"; "logo"; "bg"]%string) eq_refl eq_refl)
                  Hne) as [Hids Himg].
  split; [exact Hids | ].
  exact (Himg [Byte.x04; Byte.x02] eq_refl).
Defined.


Lemma Draw_deterministic_witness :
  GetAll (remote (self demo.world)) (urlsOrPaths demo.pictured)
  = GetAll (remote (self (demo.stage_world demo.blank))) (urlsOrPaths demo.pictured) /\
  fst (Draw demo.pictured demo.world)
  = fst (Draw demo.pictured (demo.stage_world demo.blank)).
Proof.
  split; [reflexivity | ].
  apply (Draw_deterministic demo.pictured demo.world (demo.stage_world demo.blank)).
  reflexivity.
Defined.

Lemma Draw_reads_in_bounds_witness :
  same_length (remote (self demo.world)) /\
  let third := negb (hexRe_Match (Bg demo.pictured))
               && negb (String.eqb (Bg demo.pictured) EmptyString) in
  urlsOrPaths demo.pictured
  = [AvaURL demo.pictured; LogoURL demo.pictured]
    ++ (if third then [Bg demo.pictured] else []) /\
  (exists r evs,
     trace (snd (Draw demo.pictured demo.world))
     = trace demo.world ++ EvCall (CallGetAll (urlsOrPaths demo.pictured)) r :: evs /\
     r = error_of (GetAll (remote (self demo.world)) (urlsOrPaths demo.pictured)) /\
     (r <> None -> evs = []) /\
     (forall bufs,
        GetAll (remote (self demo.world)) (urlsOrPaths demo.pictured) = Ok bufs ->
        (forall i, In i (indices_of evs) -> 0 <= i < Z.of_nat (List.length bufs)) /\
        (In 2 (indices_of evs) <-> third = true))) /\
  fst (Draw demo.pictured demo.world) <> Panic.
Proof.
  split; [exact demo_same_length | ].
  exact (Draw_reads_in_bounds demo.pictured demo.world demo_same_length).
Defined.

(** * Where the specification and the code part *)

(** C5, as stated, fails in two ways.  In a three by three image the
    pixel (2, 2) is closer to the centre (3/2, 3/2) than the radius
    3/2, by its corner and by its middle alike (the distances are
    doubled below), yet the mask is the circle of centre (1, 1) and
    radius 1, and the pixel comes out transparent.  In an eight by
    eight image of 16-bit pixels the pixel (3, 3) lies strictly
    inside the circle of centre (4, 4) and radius 4; the alpha of
    the source is [0x1234] and that of the masked copy [0x1212]. *)
Lemma circle_alpha_counterexample :
  (Bounds demo.tile = mkRect 0 0 3 3 /\
   sq (2 * 2 - 3) + sq (2 * 2 - 3) < sq 3 /\
   sq (2 * 2 + 1 - 3) + sq (2 * 2 + 1 - 3) < sq 3 /\
   a16 (Color_RGBA (At demo.tile 2 2)) = 0xffff /\
   exists out,
     fst (circle demo.tile demo.world) = Val out /\
     a16 (Color_RGBA (At out 2 2)) = 0) /\
  (Bounds demo.deep = mkRect 0 0 8 8 /\
   strictlyInside 4 4 4 3 3 = true /\
   a16 (Color_RGBA (At demo.deep 3 3)) = 0x1234 /\
   exists out,
     fst (circle demo.deep demo.world) = Val out /\
     a16 (Color_RGBA (At out 3 3)) = 0x1212 /\
     a16 (Color_RGBA (At out 3 3)) <> a16 (Color_RGBA (At demo.deep 3 3))).
Proof.
  split.
  - repeat split.
    exists (circled demo.tile). split; [reflexivity | ].
    vm_compute. reflexivity.
  - split; [reflexivity | ]. split; [reflexivity | ]. split; [reflexivity | ].
    exists (circled demo.deep). split; [reflexivity | ].
    assert (H : a16 (Color_RGBA (At (circled demo.deep) 3 3)) = 0x1212)
      by (vm_compute; reflexivity).
    split; [exact H | ]. rewrite H. discriminate.
Qed.

(** C7, as stated, at the empty background: it does not match the
    pattern, yet it is not handed to the resolver, nothing is
    resized, decoded or drawn from a buffer in stage 1, and the canvas
    is filled with the default colour. *)
Lemma empty_background_counterexample :
  hexRe_Match (Bg demo.blank) = false /\
  urlsOrPaths demo.blank = [AvaURL demo.blank; LogoURL demo.blank] /\
  firstn 6 (trace (snd (Draw demo.blank demo.world)))
  = [EvCall (CallGetAll ["ava"; "logo"]%string) None;
     EvEnter BackgroundStage; EvDraw (gg.SetHexColor defaultBgColor);
     EvDraw (gg.DrawRectangle 0 0 4 2); EvDraw gg.Fill;
     EvEnter ForegroundStage] /\
  ~ (urlsOrPaths demo.blank
     = [AvaURL demo.blank; LogoURL demo.blank; Bg demo.blank] /\
     no_fill (firstn 5 (trace (snd (Draw demo.blank demo.world)))) = true).
Proof.
  split; [reflexivity | ]. split; [reflexivity | ].
  split; [vm_compute; reflexivity | ].
  intros [H _]. discriminate H.
Qed.

(** * The further properties at the sample inputs *)

Lemma demo_text : text_keeps_bounds demo.libs.
Proof. split; reflexivity. Qed.


Lemma dim_range (b : Byte.byte) : 0 <= demo.dim b < 2 ^ 31.
Proof.
  unfold demo.dim. pose proof (Byte.to_N_bounded b) as H.
  split; [apply N2Z.is_nonneg | ].
  apply Z.le_lt_trans with 255; [ | reflexivity].
  change 255 with (Z.of_N 255). apply N2Z.inj_le. exact H.
Qed.

Lemma demo_decodes : decode_agrees demo.libs.
Proof.
  intros buf img. cbn [image_Decode image_DecodeConfig demo.libs].
  destruct buf as [ | bw [ | bh rest]]; try discriminate.
  cbn [demo.Decode demo.DecodeConfig]. intros H. injection H as <-.
  exists (demo.dim bw), (demo.dim bh). cbn [Bounds].
  repeat split; try apply dim_range.
Qed.

(** A run that returns an image. *)
Ltac decide_run :=
  match goal with
  | |- exists img, fst ?run = Val (Some img, None) /\ _ =>
    let Hs := fresh "Hs" in
    assert (Hs : match fst run with Val (Some _, None) => True | _ => False end)
      by (vm_compute; exact I);
    let E := fresh "E" in
    destruct (fst run) as [[[img | ] [e | ]] | ] eqn:E; try contradiction;
    exists img; split; [reflexivity | ]
  end.

Lemma Draw_success_runs_every_stage_witness :
  exists img,
    fst (Draw demo.solid demo.world) = Val (Some img, None) /\
    exists bufs evs,
      GetAll (remote (self demo.world)) (urlsOrPaths demo.solid) = Ok bufs /\
      trace (snd (Draw demo.solid demo.world))
      = trace demo.world ++ EvCall (CallGetAll (urlsOrPaths demo.solid)) None :: evs /\
      clean evs = true /\
      stages_of evs = stage_order /\
      indices_of evs = (if fetches_background demo.solid then [2] else []) ++ [0; 1] /\
      (2 <= List.length bufs)%nat /\
      (fetches_background demo.solid = true -> (3 <= List.length bufs)%nat).
Proof.
  decide_run. exact (Draw_success_runs_every_stage demo.solid demo.world img E).
Defined.


Lemma Draw_error_comes_from_witness :
  fst (Draw demo.broken demo.world)
  = Val (None, Some (Errorf "could not resize the avatar"
                            (LibError "image: unknown format"))) /\
  exists msg cause,
    Errorf "could not resize the avatar" (LibError "image: unknown format")
    = Errorf msg cause /\
    (msg = "could not get an image"%string /\
     GetAll (remote (self demo.world)) (urlsOrPaths demo.broken) = Err cause \/
     exists n st,
       stages_of (skipn (List.length (trace demo.world))
                        (trace (snd (Draw demo.broken demo.world))))
       = firstn (S n) stage_order /\
       nth_error stage_order n = Some st /\
       In msg (messages st) /\ may_fail demo.broken st = true).
Proof.
  assert (H : fst (Draw demo.broken demo.world)
              = Val (None, Some (Errorf "could not resize the avatar"
                                        (LibError "image: unknown format"))))
    by (vm_compute; reflexivity).
  split; [exact H | ].
  exact (Draw_error_comes_from demo.broken demo.world None _ H).
Defined.

Lemma Draw_image_has_canvas_bounds_witness :
  text_keeps_bounds demo.libs /\
  exists img,
    fst (Draw demo.solid demo.world) = Val (Some img, None) /\
    Bounds img = mkRect 0 0 (CanvasW demo.solid) (CanvasH demo.solid).
Proof.
  split; [exact demo_text | ]. decide_run.
  apply (Draw_image_has_canvas_bounds demo.solid demo.world img demo_text).
  - change (0 <= 4). lia.
  - change (0 <= 2). lia.
  - exact E.
Defined.


Lemma nil_background_is_painted_white_witness :
  (rasterizes_rectangles demo.libs /\ fetches_background demo.pictured = true /\
   GetAll (remote (self demo.absent_world)) (urlsOrPaths demo.pictured)
   = Ok [Some [Byte.x03; Byte.x03]; Some [Byte.x03; Byte.x03]; None]) /\
  exists dc1 rest,
    background_call demo.pictured [Some [Byte.x03; Byte.x03]; Some [Byte.x03; Byte.x03]; None]
                    (fetched demo.pictured demo.absent_world)
    = (Val None,
       mkWorld (mkPreview (Some demo.pictured) (Some dc1)
                          (remote (self demo.absent_world)))
         (trace (fetched demo.pictured demo.absent_world) ++
          [EvIndex 2; EvEnter BackgroundStage; EvDraw (gg.SetHexColor defaultBgColor);
           EvDraw (gg.DrawRectangle 0 0 (float64 (CanvasW demo.pictured))
                                    (float64 (CanvasH demo.pictured)));
           EvDraw gg.Fill])) /\
    trace (snd (Draw demo.pictured demo.absent_world))
    = trace demo.absent_world ++
      [EvCall (CallGetAll [AvaURL demo.pictured; LogoURL demo.pictured; Bg demo.pictured])
              None;
       EvIndex 2;
       EvEnter BackgroundStage; EvDraw (gg.SetHexColor defaultBgColor);
       EvDraw (gg.DrawRectangle 0 0 (float64 (CanvasW demo.pictured))
                                (float64 (CanvasH demo.pictured)));
       EvDraw gg.Fill; EvEnter ForegroundStage] ++ rest /\
    forall x y, 0 <= x < CanvasW demo.pictured -> 0 <= y < CanvasH demo.pictured ->
      Pix (gg.im dc1) x y = mkPix 255 255 255 255.
Proof.
  split.
  - split; [exact demo_rectangles | split; reflexivity].
  - apply (nil_background_is_painted_white demo.pictured demo.absent_world).
    + exact demo_rectangles.
    + reflexivity.
    + change (0 <= 4 < 2 ^ 63). lia.
    + change (0 <= 2 < 2 ^ 63). lia.
    + reflexivity.
    + reflexivity.
Defined.

Lemma resize_result_has_size_witness :
  (thumbnail_has_size demo.libs /\
   fst (resize (Some [Byte.x03; Byte.x03]) 4 2 demo.world)
   = Val (Ok (Some [Byte.x04; Byte.x02]))) /\
  image_DecodeConfig (contents (Some [Byte.x04; Byte.x02])) = Ok (4, 2) /\
  (image_DecodeConfig (contents (Some [Byte.x03; Byte.x03])) = Ok (4, 2) <->
   trace (snd (resize (Some [Byte.x03; Byte.x03]) 4 2 demo.world))
   = trace demo.world
     ++ [EvCall (CallDecodeConfig (contents (Some [Byte.x03; Byte.x03]))) None]).
Proof.
  assert (H : fst (resize (Some [Byte.x03; Byte.x03]) 4 2 demo.world)
              = Val (Ok (Some [Byte.x04; Byte.x02])))
    by (vm_compute; reflexivity).
  split; [split; [exact demo_thumbnails | exact H] | ].
  exact (resize_result_has_size (Some [Byte.x03; Byte.x03]) (Some [Byte.x04; Byte.x02])
           4 2 demo.world demo_thumbnails H).
Defined.

Lemma drawTitle_length_and_idempotence_witness :
  fst (drawTitle (demo.stage_world demo.wordy)) = Val None /\
  utf8.RuneCountInString (Title demo.wordy) = 91 /\
  exists pre drawn,
    trace (snd (drawTitle (demo.stage_world demo.wordy)))
    = trace (demo.stage_world demo.wordy) ++ pre
      ++ [EvDraw (title_call demo.wordy drawn)] /\
    no_text pre = true /\
    utf8.RuneCountInString drawn
    = Z.min (utf8.RuneCountInString (Title demo.wordy)) (maxTitleLength + 1) /\
    forall w2 o2 dc2,
      opts (self w2) = Some o2 -> ctx (self w2) = Some dc2 ->
      Title o2 = drawn -> fst (drawTitle w2) = Val None ->
      exists pre2,
        trace (snd (drawTitle w2)) = trace w2 ++ pre2 ++ [EvDraw (title_call o2 drawn)] /\
        no_text pre2 = true.
Proof.
  assert (H : fst (drawTitle (demo.stage_world demo.wordy)) = Val None)
    by (vm_compute; reflexivity).
  split; [exact H | ]. split; [vm_compute; reflexivity | ].
  exact (drawTitle_length_and_idempotence (demo.stage_world demo.wordy) demo.wordy
           (gg.NewContext 4 2) eq_refl eq_refl H).
Defined.


Lemma drawAvatar_places_image_witness :
  (thumbnail_has_size demo.libs /\ decode_agrees demo.libs /\
   fst (drawAvatar (Some [Byte.x04; Byte.x02]) (demo.stage_world demo.solid))
   = Val None) /\
  exists img,
    Bounds (circled img) = mkRect 0 0 (AvaD demo.solid) (AvaD demo.solid) /\
    ctx (self (snd (drawAvatar (Some [Byte.x04; Byte.x02]) (demo.stage_world demo.solid))))
    = Some (exec (gg.DrawImage (circled img)
                    (padding + border / 2) (padding + border / 2))
                 (ringed demo.solid (gg.NewContext 4 2))).
Proof.
  assert (H : fst (drawAvatar (Some [Byte.x04; Byte.x02]) (demo.stage_world demo.solid))
              = Val None)
    by (vm_compute; reflexivity).
  split; [split; [exact demo_thumbnails | split; [exact demo_decodes | exact H]] | ].
  apply (drawAvatar_places_image (demo.stage_world demo.solid) demo.solid
           (gg.NewContext 4 2) (Some [Byte.x04; Byte.x02])
           demo_thumbnails demo_decodes eq_refl eq_refl).
  - change (0 <= 3 < 2 ^ 31). lia.
  - exact H.
Defined.

Lemma background_image_covers_canvas_witness :
  (thumbnail_has_size demo.libs /\ decode_agrees demo.libs /\
   fst (drawBackground (Some [Byte.x03; Byte.x03]) defaultBgColor
                       (demo.stage_world demo.pictured)) = Val None) /\
  exists img dc',
    ctx (self (snd (drawBackground (Some [Byte.x03; Byte.x03]) defaultBgColor
                                   (demo.stage_world demo.pictured)))) = Some dc' /\
    dc' = exec (gg.DrawImage img 0 0) (gg.NewContext 4 2) /\
    Bounds img = mkRect 0 0 (CanvasW demo.pictured) (CanvasH demo.pictured) /\
    forall x y,
      inRect (Rect (gg.im (gg.NewContext 4 2))) x y = true ->
      0 <= x < CanvasW demo.pictured -> 0 <= y < CanvasH demo.pictured ->
      Pix (gg.im dc') x y
      = gg.paintOver (Color_RGBA (At img x y)) 0xffff
                     (Pix (gg.im (gg.NewContext 4 2)) x y).
Proof.
  assert (H : fst (drawBackground (Some [Byte.x03; Byte.x03]) defaultBgColor
                                  (demo.stage_world demo.pictured)) = Val None)
    by (vm_compute; reflexivity).
  split; [split; [exact demo_thumbnails | split; [exact demo_decodes | exact H]] | ].
  exact (background_image_covers_canvas (demo.stage_world demo.pictured) demo.pictured
           (gg.NewContext 4 2) [Byte.x03; Byte.x03] defaultBgColor
           demo_thumbnails demo_decodes eq_refl eq_refl eq_refl H).
Defined.

Lemma Draw_panics_on_empty_fetch_witness :
  (GetAll (remote (self demo.deaf_world)) (urlsOrPaths demo.pictured) = Ok [] /\
   GetAll (remote (self demo.deaf_world)) (urlsOrPaths demo.solid) = Ok [] /\
   events_before_panic demo.pictured = [EvIndex 2] /\
   last (events_before_panic demo.solid) (EvIndex 2) = EvIndex 0) /\
  (fst (Draw demo.pictured demo.deaf_world) = Panic /\
   trace (snd (Draw demo.pictured demo.deaf_world))
   = trace demo.deaf_world
     ++ EvCall (CallGetAll (urlsOrPaths demo.pictured)) None
        :: events_before_panic demo.pictured) /\
  (fst (Draw demo.solid demo.deaf_world) = Panic /\
   trace (snd (Draw demo.solid demo.deaf_world))
   = trace demo.deaf_world
     ++ EvCall (CallGetAll (urlsOrPaths demo.solid)) None
        :: events_before_panic demo.solid).
Proof.
  split; [repeat split | ]. split.
  - apply (Draw_panics_on_empty_fetch demo.pictured demo.deaf_world). reflexivity.
  - apply (Draw_panics_on_empty_fetch demo.solid demo.deaf_world). reflexivity.
Defined.

Lemma failed_stage_leaves_canvas_witness :
  fst (drawAvatar (Some []) (demo.stage_world demo.solid))
  = Val (Some (Errorf "could not resize the avatar" (LibError "image: unknown format"))) /\
  ctx (self (snd (drawAvatar (Some []) (demo.stage_world demo.solid))))
  = Some (ringed demo.solid (gg.NewContext 4 2)) /\
  fst (drawLogo (Some []) (demo.stage_world demo.solid))
  = Val (Some (Errorf "could not resize the logo" (LibError "image: unknown format"))) /\
  ctx (self (snd (drawLogo (Some []) (demo.stage_world demo.solid))))
  = Some (gg.NewContext 4 2).
Proof.
  assert (Ha : fst (drawAvatar (Some []) (demo.stage_world demo.solid))
               = Val (Some (Errorf "could not resize the avatar"
                                   (LibError "image: unknown format"))))
    by (vm_compute; reflexivity).
  assert (Hl : fst (drawLogo (Some []) (demo.stage_world demo.solid))
               = Val (Some (Errorf "could not resize the logo"
                                   (LibError "image: unknown format"))))
    by (vm_compute; reflexivity).
  destruct (failed_stage_leaves_canvas (demo.stage_world demo.solid) demo.solid
              (gg.NewContext 4 2) eq_refl eq_refl) as (_ & _ & _ & Hlogo & Hava).
  split; [exact Ha | ]. split; [exact (Hava _ _ Ha) | ].
  split; [exact Hl | exact (Hlogo _ _ Hl)].
Defined.
